(** * openapi-graphql: the resolver builder (src/resolver_builder.ts)

    A shallow embedding of [getResolver] and of the helpers it calls
    ([extractRequestDataFromArgs], [resolveRuntimeExpression],
    [isRuntimeExpression], [getAuthOptions], [getIdentifier], ...) together
    with the properties of the dispatch runtime that the specification states.

    The development has two views of the same code.

    - The value view (modules [JS], [Str], [Resolver]): JavaScript values are
      immutable trees, every statement of the resolver is a function on them,
      and a thrown exception is a result.  It decides what the resolver
      sends, returns and throws.
    - The store view (module [Store]): objects live in a store and are named
      by references, so that two names of one object are visible.  It decides
      which objects the resolver writes.

    What is not part of this module of the repository (the [Oas3Tools]
    helpers, the JSONPath and form-urlencoded libraries, the text level of
    [JSON.parse]/[JSON.stringify], the transport) is a field of the class
    [Collaborators]; nothing is assumed about a field unless a theorem says
    so in a hypothesis. *)

From Stdlib Require Import String Ascii List ZArith Lia Bool DecimalString.
From stdpp Require Import base option list gmap.
Import ListNotations.
Local Open Scope string_scope.
Local Open Scope Z_scope.
Set Warnings "-register-all".

(** ** JavaScript values *)

Module JS.

(** The values the resolver handles: what [JSON.parse] can produce, plus
    [undefined].  Numbers are the integers (the GraphQL [Int] of the
    [limit] argument, status codes); fractional and non-finite numbers are
    outside the model.  An object is the list of its own properties in
    insertion order.  An array carries its elements and, as in JavaScript,
    may carry named properties besides them (the resolver stores its hidden
    field on array elements that are arrays themselves). *)
Inductive json : Type :=
| JUndefined
| JNull
| JBool (b : bool)
| JNum (n : Z)
| JStr (s : string)
| JArr (elems : list json) (props : list (string * json))
| JObj (props : list (string * json)).

Definition obj : Type := list (string * json).

(** [typeof v] *)
Inductive jstype := Tundefined | Tobject | Tboolean | Tnumber | Tstring.

Definition typeof (v : json) : jstype :=
  match v with
  | JUndefined => Tundefined
  | JNull | JArr _ _ | JObj _ => Tobject
  | JBool _ => Tboolean
  | JNum _ => Tnumber
  | JStr _ => Tstring
  end.

Definition is_object (v : json) : bool :=
  match typeof v with Tobject => true | _ => false end.

Definition is_undefined (v : json) : bool :=
  match v with JUndefined => true | _ => false end.

Definition is_string (v : json) : bool :=
  match v with JStr _ => true | _ => false end.

Definition isArray (v : json) : bool :=
  match v with JArr _ _ => true | _ => false end.

(** ToBoolean: what [if (v)], [v && ...] and [!v] test. *)
Definition truthy (v : json) : bool :=
  match v with
  | JUndefined | JNull => false
  | JBool b => b
  | JNum n => negb (n =? 0)
  | JStr s => negb (String.eqb s "")
  | JArr _ _ | JObj _ => true
  end.

(** *** Own properties of an object *)

(** The property list of an object, whatever its values are (trees here,
    references in the store view). *)
Fixpoint obj_get {A} (k : string) (o : list (string * A)) : option A :=
  match o with
  | [] => None
  | (k', v) :: r => if String.eqb k k' then Some v else obj_get k r
  end.

(** [k in o], for a name [k] that [o] does not inherit: an own property. *)
Definition obj_has {A} (k : string) (o : list (string * A)) : bool :=
  match obj_get k o with Some _ => true | None => false end.

(** [o[k]], for a name [k] that [o] does not inherit: a missing property
    reads as [undefined]. *)
Definition obj_read (k : string) (o : obj) : json :=
  match obj_get k o with Some v => v | None => JUndefined end.

(** The names a plain object inherits from [Object.prototype].  For these
    [k in o] holds and [o[k]] reads the inherited member (a function, which
    the values here do not have) also when [o] has no property [k] of its
    own; [obj_has] and [obj_read] are the code for every other name. *)
Definition Object_prototype_names : list string :=
  ["constructor"; "hasOwnProperty"; "isPrototypeOf"; "propertyIsEnumerable";
   "toLocaleString"; "toString"; "valueOf"; "__proto__";
   "__defineGetter__"; "__defineSetter__"; "__lookupGetter__"; "__lookupSetter__"].

Definition inherited (k : string) : bool :=
  existsb (String.eqb k) Object_prototype_names.

(** [o[k] = v]: an existing property keeps its place, a new one goes last. *)
Fixpoint obj_set {A} (k : string) (v : A) (o : list (string * A)) : list (string * A) :=
  match o with
  | [] => [(k, v)]
  | (k', v') :: r =>
      if String.eqb k k' then (k, v) :: r else (k', v') :: obj_set k v r
  end.

(** [Object.assign(target, src)] on own properties, in the order of [src]. *)
Definition obj_assign {A} (target src : list (string * A)) : list (string * A) :=
  fold_left (fun t kv => obj_set (fst kv) (snd kv) t) src target.

(** *** What a resolver call ends in *)

(** The exceptions the module throws or provokes.  [Error] is
    [new Error(message)]; [GraphQLError] is the error built by
    [graphQLErrorWithExtensions]; [TypeError], [SyntaxError] and
    [RangeError] are the engine's (their text is the engine's and is kept
    only as a note); [Rejected] is a rejection of the transport. *)
Inductive thrown : Type :=
| Error (message : string)
| GraphQLError (message : string) (extensions : obj)
| TypeError (note : string)
| SyntaxError (note : string)
| RangeError (note : string)
| Rejected (reason : json).

(** [Ret v]: the code returns (the promise resolves with) [v].
    [Throw e]: it throws (the promise rejects with) [e].
    [Unmodelled why]: the code leaves the values this model has (a wrapper
    object around a primitive); no theorem concludes anything from it. *)
Inductive result (A : Type) : Type :=
| Ret (a : A)
| Throw (e : thrown)
| Unmodelled (why : string).
Arguments Ret {A} a.
Arguments Throw {A} e.
Arguments Unmodelled {A} why.

#[global] Instance result_ret : MRet result := fun A a => Ret a.

#[global] Instance result_bind : MBind result := fun A B k m =>
  match m with
  | Ret a => k a
  | Throw e => Throw e
  | Unmodelled w => Unmodelled w
  end.

End JS.
Export JS.

(** ** Strings *)

Module Str.

Definition ascii_eqb (a b : ascii) : bool := Ascii.eqb a b.

(** [s.startsWith(pre)] *)
Definition startsWith (s pre : string) : bool := String.prefix pre s.

Fixpoint drop (n : nat) (s : string) : string :=
  match n, s with
  | O, _ => s
  | S n', String _ r => drop n' r
  | S _, EmptyString => EmptyString
  end.

(** The first occurrence of [sep] in [s]: the text before it and the text
    after it. *)
Fixpoint cut (sep s : string) : option (string * string) :=
  if String.prefix sep s then Some (EmptyString, drop (String.length sep) s)
  else match s with
       | EmptyString => None
       | String c r =>
           match cut sep r with
           | Some (a, b) => Some (String c a, b)
           | None => None
           end
       end.

(** [s.includes(sub)] *)
Definition includes (s sub : string) : bool :=
  match cut sub s with Some _ => true | None => false end.

(** [s.split(sep)[1]] for a non-empty [sep]: the piece between the first
    and the second occurrence of [sep]; [None] is [undefined]. *)
Definition split_1 (sep s : string) : option string :=
  match cut sep s with
  | None => None
  | Some (_, rest) =>
      match cut sep rest with
      | None => Some rest
      | Some (piece, _) => Some piece
      end
  end.

(** GetSubstitution of ECMAScript for a string pattern (no captures):
    in the replacement text [$$] is a dollar, [$&] the matched text, [$`]
    the text before the match and [$'] the text after it; every other
    character, a lone [$] included, stands for itself. *)
Fixpoint GetSubstitution (matched before after repl : string) : string :=
  match repl with
  | EmptyString => EmptyString
  | String c r =>
      if ascii_eqb c "$" then
        match r with
        | EmptyString => String c EmptyString
        | String d r' =>
            if ascii_eqb d "$" then String "$" (GetSubstitution matched before after r')
            else if ascii_eqb d "&" then matched ++ GetSubstitution matched before after r'
            else if ascii_eqb d "`" then before ++ GetSubstitution matched before after r'
            else if ascii_eqb d "'" then after ++ GetSubstitution matched before after r'
            else String c (GetSubstitution matched before after r)
        end
      else String c (GetSubstitution matched before after r)
  end.

(** [s.replace(pat, repl)] with a string pattern: the first occurrence
    only, the replacement text expanded by [GetSubstitution]. *)
Definition replace (s pat repl : string) : string :=
  match cut pat s with
  | None => s
  | Some (before, after) =>
      before ++ GetSubstitution pat before after repl ++ after
  end.

(** [s.search(/{|}/) === -1] is [negb (has_brace s)]. *)
Fixpoint has_brace (s : string) : bool :=
  match s with
  | EmptyString => false
  | String c r => ascii_eqb c "{" || ascii_eqb c "}" || has_brace r
  end.

(** [s.match(re)] for the global pattern [re] of the link parameters (an
    opening brace, any characters but a closing brace, a closing brace): the
    matches from left to right.  A match starts at a [{] and ends at the next
    [}]; [cur] is the match being read.  The empty list stands for [null]. *)
Fixpoint match_braces_from (s : string) (cur : option string) : list string :=
  match s with
  | EmptyString => []
  | String c r =>
      match cur with
      | None =>
          if ascii_eqb c "{" then match_braces_from r (Some "{")
          else match_braces_from r None
      | Some acc =>
          if ascii_eqb c "}" then (acc ++ "}") :: match_braces_from r None
          else match_braces_from r (Some (acc ++ String c EmptyString))
      end
  end.

Definition match_braces (s : string) : list string := match_braces_from s None.

(** [linkParam.substring(1, linkParam.length - 1)] *)
Definition strip_ends (s : string) : string :=
  String.substring 1 (String.length s - 2) s.

(** [isNaN(parseInt(s))]: after white space and a sign, no digit follows
    (no hexadecimal digit after a [0x] prefix). *)
Definition is_ws (c : ascii) : bool :=
  let n := nat_of_ascii c in
  ((9 <=? n) && (n <=? 13) || (n =? 32))%nat.

Definition is_digit (c : ascii) : bool :=
  let n := nat_of_ascii c in ((48 <=? n) && (n <=? 57))%nat.

Definition is_hex (c : ascii) : bool :=
  let n := nat_of_ascii c in
  (is_digit c || ((65 <=? n) && (n <=? 70)) || ((97 <=? n) && (n <=? 102)))%nat.

Fixpoint strip_ws (s : string) : string :=
  match s with
  | String c r => if is_ws c then strip_ws r else s
  | EmptyString => s
  end.

Definition parseInt_isNaN (s : string) : bool :=
  let s1 := strip_ws s in
  let s2 := match s1 with
            | String c r =>
                if ascii_eqb c "+" || ascii_eqb c "-" then r else s1
            | EmptyString => s1
            end in
  match s2 with
  | EmptyString => true
  | String c r =>
      if ascii_eqb c "0" then
        match r with
        | String x r' =>
            if ascii_eqb x "x" || ascii_eqb x "X" then
              match r' with
              | String h _ => negb (is_hex h)
              | EmptyString => true
              end
            else false
        | EmptyString => false
        end
      else negb (is_digit c)
  end.

(** The decimal text of an integer. *)
Definition of_Z (n : Z) : string := NilZero.string_of_int (Z.to_int n).

End Str.

(** ** Operations of the language on values *)

Module Ops.

(** ToString, as template literals, [+] with a string and [replace] apply
    it.  An array joins its elements with commas, [null] and [undefined]
    elements as the empty text.  A number prints as its decimal digits:
    that is the text JavaScript gives for the safe integers (see
    [exact_text] below), not for larger numbers, which JavaScript rounds
    and, from 1e21, prints with an exponent. *)
Fixpoint ToString (v : json) : string :=
  match v with
  | JUndefined => "undefined"
  | JNull => "null"
  | JBool true => "true"
  | JBool false => "false"
  | JNum n => Str.of_Z n
  | JStr s => s
  | JArr l _ =>
      (fix join (l : list json) : string :=
         match l with
         | [] => ""
         | x :: r =>
             let here := match x with
                         | JUndefined | JNull => ""
                         | _ => ToString x
                         end in
             match r with
             | [] => here
             | _ => here ++ "," ++ join r
             end
         end) l
  | JObj _ => "[object Object]"
  end.

(** The values whose text [ToString] gives as JavaScript does: every number
    in them is a safe integer, below 2^53 in absolute value. *)
Fixpoint exact_text (v : json) : bool :=
  match v with
  | JNum n => Z.abs n <? 2 ^ 53
  | JArr l _ => forallb exact_text l
  | _ => true
  end.

(** An array index written as a property key: the canonical decimal text of
    a natural number. *)
Fixpoint digits_value (s : string) (acc : N) : option N :=
  match s with
  | EmptyString => Some acc
  | String c r =>
      if Str.is_digit c
      then digits_value r (10 * acc + N.of_nat (nat_of_ascii c - 48))%N
      else None
  end.

Definition array_index (k : string) : option nat :=
  match k with
  | EmptyString => None
  | _ =>
      match digits_value k 0%N with
      | Some n =>
          if String.eqb (Str.of_Z (Z.of_N n)) k && (n <? 4294967295)%N
          then Some (N.to_nat n) else None
      | None => None
      end
  end.

(** [v[k]] for a string key.  Only own properties are modelled (what the
    prototypes add, [toString] and the like, is not); reading a property of
    [null] or [undefined] throws. *)
Definition get_prop (v : json) (k : string) : result json :=
  match v with
  | JUndefined | JNull =>
      Throw (TypeError "cannot read properties of undefined or null")
  | JObj o => Ret (obj_read k o)
  | JArr l ps =>
      if String.eqb k "length" then Ret (JNum (Z.of_nat (length l)))
      else match array_index k with
           | Some i => Ret (nth i l JUndefined)
           | None => Ret (obj_read k ps)
           end
  | JStr s =>
      if String.eqb k "length" then Ret (JNum (Z.of_nat (String.length s)))
      else match array_index k with
           | Some i =>
               Ret (match String.get i s with
                    | Some c => JStr (String c EmptyString)
                    | None => JUndefined
                    end)
           | None => Ret JUndefined
           end
  | JBool _ | JNum _ => Ret JUndefined
  end.

(** [k in v] *)
Definition js_in (k : string) (v : json) : result bool :=
  match v with
  | JObj o => Ret (obj_has k o)
  | JArr l ps =>
      if String.eqb k "length" then Ret true
      else match array_index k with
           | Some i => Ret (bool_decide (i < length l)%nat)
           | None => Ret (obj_has k ps)
           end
  | _ => Throw (TypeError "cannot use 'in' on a value that is not an object")
  end.

(** [target[k] = v] in strict code (the module is an ES module), as the new
    value of [target].  An array takes an index (growing with holes, which
    read as [undefined]) or a named property; writing its [length] is not
    modelled.  A primitive target throws. *)
Definition set_prop (target : json) (k : string) (v : json) : result json :=
  match target with
  | JObj o => Ret (JObj (obj_set k v o))
  | JArr l ps =>
      if String.eqb k "length" then Unmodelled "assignment to the length of an array"
      else match array_index k with
           | Some i =>
               if bool_decide (i < length l)%nat then Ret (JArr (<[i:=v]> l) ps)
               else Ret (JArr (l ++ replicate (i - length l) JUndefined ++ [v])%list ps)
           | None => Ret (JArr l (obj_set k v ps))
           end
  | _ => Throw (TypeError "cannot set a property of a primitive, undefined or null")
  end.

(** The own enumerable properties [Object.assign] copies from a source. *)
Definition indexed {A} (f : string -> A -> json) (l : list A) : obj :=
  imap (fun i x => (Str.of_Z (Z.of_nat i), f (Str.of_Z (Z.of_nat i)) x)) l.

Fixpoint chars (s : string) : list ascii :=
  match s with
  | EmptyString => []
  | String c r => c :: chars r
  end.

Definition own_props (src : json) : obj :=
  match src with
  | JObj o => o
  | JArr l ps => (indexed (fun _ x => x) l ++ ps)%list
  | JStr s => indexed (fun _ c => JStr (String c EmptyString)) (chars s)
  | _ => []
  end.

Fixpoint set_props (target : json) (ps : obj) : result json :=
  match ps with
  | [] => Ret target
  | (k, v) :: r => t ← set_prop target k v; set_props t r
  end.

(** [Object.assign(target, src)] where the value of the call is used: the
    target after the writes.  On a primitive target the call returns a
    wrapper object, which the values here do not have. *)
Definition assign (target src : json) : result json :=
  match target with
  | JUndefined | JNull => Throw (TypeError "cannot convert undefined or null to object")
  | JBool _ | JNum _ | JStr _ => Unmodelled "Object.assign returns a wrapper object"
  | _ => set_props target (own_props src)
  end.

(** [Object.assign(target, src)] as a statement: what [target] holds
    afterwards.  The wrapper made for a number or a boolean is dropped with
    what was written to it; the wrapper of a string has read-only
    properties and is not modelled. *)
Definition assign_stmt (target src : json) : result json :=
  match target with
  | JUndefined | JNull => Throw (TypeError "cannot convert undefined or null to object")
  | JBool _ | JNum _ => Ret target
  | JStr _ => Unmodelled "Object.assign onto a string wrapper"
  | _ => set_props target (own_props src)
  end.

(** [JSON.parse(JSON.stringify(v))] on values: properties holding
    [undefined] are dropped, [undefined] array elements become [null], the
    named properties of an array are dropped.  [JSON.stringify(undefined)]
    is [undefined], which [JSON.parse] rejects.  (Integer-like keys, which
    [JSON.parse] enumerates first, are left in place.) *)
Fixpoint clone_value (v : json) : json :=
  match v with
  | JUndefined => JNull
  | JArr l _ => JArr (map clone_value l) []
  | JObj o =>
      JObj ((fix props (o : obj) : obj :=
               match o with
               | [] => []
               | (k, JUndefined) :: r => props r
               | (k, x) :: r => (k, clone_value x) :: props r
               end) o)
  | _ => v
  end.

Definition JSON_clone (v : json) : result json :=
  match v with
  | JUndefined => Throw (SyntaxError "JSON.parse(undefined)")
  | _ => Ret (clone_value v)
  end.

(** The values [JSON.parse] produces: no [undefined] in them, and no named
    property on an array. *)
Fixpoint is_JSON (v : json) : bool :=
  match v with
  | JUndefined => false
  | JArr l ps => forallb is_JSON l && match ps with [] => true | _ => false end
  | JObj o =>
      (fix all (o : obj) : bool :=
         match o with
         | [] => true
         | (_, x) :: r => is_JSON x && all r
         end) o
  | _ => true
  end.

(** SameValueZero against a primitive, as [Array.prototype.includes]
    compares. *)
Definition same_prim (a b : json) : bool :=
  match a, b with
  | JUndefined, JUndefined | JNull, JNull => true
  | JBool x, JBool y => Bool.eqb x y
  | JNum x, JNum y => (x =? y)
  | JStr x, JStr y => String.eqb x y
  | _, _ => false
  end.

(** [recv.includes(arg)] for a primitive [arg]: the method of strings or of
    arrays; any other receiver has no such method. *)
Definition js_includes (recv arg : json) : result bool :=
  match recv with
  | JStr s => Ret (Str.includes s (ToString arg))
  | JArr l _ => Ret (existsb (same_prim arg) l)
  | _ => Throw (TypeError "includes is not a function")
  end.

(** [arr.slice(0, n)] for [0 <= n] *)
Definition slice0 (l : list json) (n : Z) : list json := firstn (Z.to_nat n) l.

End Ops.
Export Ops.

(** ** The data the resolver builder reads *)

Module Resolver.

(** [Oas3Tools.CaseStyle], the two members this module uses. *)
Inductive CaseStyle := simple | camelCase.

(** [SchemaObject | ReferenceObject] of a parameter; of a schema only
    [default] is read ([JUndefined] when the schema declares none). *)
Record SchemaObject := { schema_default : json }.

Inductive SchemaOrRef :=
| Reference (ref : string)
| Schema (s : SchemaObject).

Record ParameterObject := {
  param_name : string;
  param_in : string;
  param_schema : option SchemaOrRef
}.

(** The OAS document of an operation: its [info.title], and the rest,
    which only [Oas3Tools.resolveRef] reads. *)
Record Oas3 := { info_title : string; document : json }.

Record Operation := {
  operationString : string;
  path : string;
  method : string;
  parameters : list ParameterObject;
  payloadContentType : option string;
  responseContentType : option string;
  statusCode : string;
  securityRequirements : list string;
  oas : Oas3
}.

(** [Oas3Tools.HTTP_METHODS.get] *)
Definition HTTP_METHODS_get : string := "get".

(** [info.path] of graphql-js: a key (a field name or alias, or the index
    of a list element) and the path before it. *)
Inductive PathKey := Field (name : string) | Index (i : nat).

Inductive Path := PathNode (prev : option Path) (key : PathKey).

Definition prev (p : Path) : option Path := match p with PathNode q _ => q end.
Definition key (p : Path) : PathKey := match p with PathNode _ k => k end.

Record Response := {
  resp_statusCode : Z;
  resp_headers : obj;
  resp_body : json
}.

(** [GraphQLFieldResolver]: source, args, context, info. *)
Definition GraphQLFieldResolver : Type :=
  json -> obj -> json -> Path -> result json.

(** A declared security scheme, [data.security[name].def]. *)
Record SecurityDef := {
  def_type : string;
  def_name : option string;
  def_in : option string;
  def_scheme : option string
}.

(** [data.options], the options this module reads.  [customResolvers] is
    the lookup by title, path and method. *)
Record Options := {
  simpleNames : bool;
  customResolvers : string -> string -> string -> option GraphQLFieldResolver;
  genericPayloadArgName : bool;
  opt_headers : option obj;
  opt_qs : option obj;
  sendOAuthTokenInQuery : bool;
  tokenJSONpath : option string;
  provideErrorExtensions : bool;
  addLimitArgument : bool
}.

Record PreprocessingData := {
  options : Options;
  saneMap : list (string * string);
  security : list (string * SecurityDef)
}.

(** [HTTPRequest]: the transport, given the request options and the
    context. *)
Definition HTTPRequest : Type := obj -> json -> result Response.

Record GetResolverParams := {
  operation : Operation;
  argsFromLink : list (string * string);
  payloadName : option string;
  data : PreprocessingData;
  baseUrl : option string;
  requestOptions : option obj;
  httpRequest : HTTPRequest
}.

(** What this module calls and does not define.  [sanitize], [resolveRef],
    [getBaseUrl], [desanitizeObjectKeys] and [sanitizeObjectKeys] are
    [Oas3Tools]; [JSONPath] is jsonpath-plus ([None]: the result is not an
    array); [JSON_parse] and [JSON_stringify] are the text level of [JSON]
    ([None]: a [SyntaxError]; the result of stringify is a string or
    [undefined]); [base64] is [Buffer.from(s).toString('base64')];
    [StringToNumber] is the numeric value of a string ([None]: [NaN]). *)
Class Collaborators := {
  sanitize : string -> CaseStyle -> string;
  resolveRef : string -> Oas3 -> result (option SchemaObject);
  getBaseUrl : Operation -> string;
  desanitizeObjectKeys : json -> list (string * string) -> result json;
  sanitizeObjectKeys : json -> CaseStyle -> result json;
  JSONPath : option string -> json -> result (option (list json));
  formurlencoded : json -> result json;
  JSON_parse : string -> option json;
  JSON_stringify : json -> json;
  base64 : string -> string;
  StringToNumber : string -> option Z
}.

(** ** Constants *)

(** OAS runtime expression reference locations *)
Definition RUNTIME_REFERENCES : list string := ["header."; "query."; "path."; "body"].

Definition OPENAPI_TO_GRAPHQL : string := "_openAPIToGraphQL".

(** ** Identifiers *)

Definition key_text (k : PathKey) : string :=
  match k with
  | Field s => s
  | Index i => Str.of_Z (Z.of_nat i)
  end.

(** [isNaN(parseInt(path.key))] *)
Definition key_isNaN (k : PathKey) : bool :=
  match k with
  | Field s => Str.parseInt_isNaN s
  | Index _ => false
  end.

(** Get the path of nested field names (or aliases if provided); array
    indices are removed. *)
Fixpoint getIdentifierRecursive (p : Path) : string :=
  match p with
  | PathNode None k => key_text k
  | PathNode (Some q) k =>
      if key_isNaN k
      then key_text k ++ "/" ++ getIdentifierRecursive q
      else getIdentifierRecursive q
  end.

Definition getIdentifier (info : Path) : string := getIdentifierRecursive info.

(** [getIdentifierRecursive(info.path.prev)]; at a root field [prev] is
    [undefined] and reading [prev] of it throws. *)
Definition getParentIdentifier (info : Path) : result string :=
  match prev info with
  | Some q => Ret (getIdentifierRecursive q)
  | None => Throw (TypeError "cannot read properties of undefined (reading 'prev')")
  end.

(** Create a new GraphQLError with an extensions field *)
Definition graphQLErrorWithExtensions (message : string) (extensions : obj) : thrown :=
  GraphQLError message extensions.

(** Check if a string is a runtime expression in the context of link
    parameters *)
Definition isRuntimeExpression (str : string) : bool :=
  if String.eqb str "$url" || String.eqb str "$method" || String.eqb str "$statusCode"
  then true
  else if Str.startsWith str "$request."
  then existsb (fun r => Str.startsWith str ("$request." ++ r)) RUNTIME_REFERENCES
  else if Str.startsWith str "$response."
  then existsb (fun r => Str.startsWith str ("$response." ++ r)) RUNTIME_REFERENCES
  else false.

End Resolver.
Export Resolver.

(** ** The resolver *)

Module Runtime.
Section WithCollaborators.
Context `{Collaborators}.

(** [!data.options.simpleNames ? CaseStyle.camelCase : CaseStyle.simple] *)
Definition caseStyle (data : PreprocessingData) : CaseStyle :=
  if simpleNames (options data) then simple else camelCase.

Definition invalid_expression (value : string) : thrown :=
  Error ("Cannot create link because '" ++ value ++ "' is an invalid runtime expression.").

(** [Array.isArray(tokens) && tokens.length > 0], then [tokens[0]] *)
Definition first_token (tokens : option (list json)) : option json :=
  match tokens with
  | Some (t :: _) => Some t
  | _ => None
  end.

(** [resolveData.usedParams[Oas3Tools.sanitize(value.split(sep)[1], camelCase)]];
    when the separator does not occur [sanitize] is called on [undefined],
    outside its type. *)
Definition used_param (sep value : string) (resolveData : json) : result json :=
  usedParams ← get_prop resolveData "usedParams";
  match Str.split_1 sep value with
  | Some name => get_prop usedParams (sanitize name camelCase)
  | None => Unmodelled "sanitize(undefined)"
  end.

(** [headers[value.split('header.')[1]]]; [undefined] as a key reads the
    property of that name. *)
Definition header_of (value : string) (headers : json) : result json :=
  get_prop headers (default "undefined" (Str.split_1 "header." value)).

(** Given a link parameter or callback path, determine the value from the
    runtime expression. *)
Definition resolveRuntimeExpression (paramName value : string)
    (resolveData root : json) (args : obj) : result json :=
  if String.eqb value "$url" then
    o ← get_prop resolveData "usedRequestOptions"; get_prop o "url"
  else if String.eqb value "$method" then
    o ← get_prop resolveData "usedRequestOptions"; get_prop o "method"
  else if String.eqb value "$statusCode" then
    get_prop resolveData "usedStatusCode"
  else if Str.startsWith value "$request." then
    if String.eqb value "$request.body" then
      get_prop resolveData "usedPayload"
    else if Str.startsWith value "$request.body#" then
      usedPayload ← get_prop resolveData "usedPayload";
      tokens ← JSONPath (Str.split_1 "body#/" value) usedPayload;
      match first_token tokens with
      | Some t => Ret t
      | None => Throw (invalid_expression value)
      end
    else if Str.startsWith value "$request.query" then
      used_param "query." value resolveData
    else if Str.startsWith value "$request.path" then
      used_param "path." value resolveData
    else if Str.startsWith value "$request.header" then
      o ← get_prop resolveData "usedRequestOptions";
      h ← get_prop o "headers";
      header_of value h
    else Throw (invalid_expression value)
  else if Str.startsWith value "$response." then
    if String.eqb value "$response.body" then
      result ← JSON_clone root;
      set_prop result OPENAPI_TO_GRAPHQL JUndefined
    else if Str.startsWith value "$response.body#" then
      tokens ← JSONPath (Str.split_1 "body#/" value) root;
      match first_token tokens with
      | Some t => Ret t
      | None => Throw (invalid_expression value)
      end
    else if Str.startsWith value "$response.query" then
      used_param "query." value resolveData
    else if Str.startsWith value "$response.path" then
      used_param "path." value resolveData
    else if Str.startsWith value "$response.header" then
      h ← get_prop resolveData "responseHeaders";
      header_of value h
    else Throw (invalid_expression value)
  else Throw (invalid_expression value).

(** *** Ancestor context recovery *)

(** [source && typeof source === 'object' &&
     typeof source[OPENAPI_TO_GRAPHQL] === 'object'] *)
Definition has_hidden (source : json) : result bool :=
  if truthy source && is_object source then
    hidden ← get_prop source OPENAPI_TO_GRAPHQL;
    Ret (is_object hidden)
  else Ret false.

(** The first statement of the resolver: [resolveData] is [{}], or the
    [JSON] copy of the record found on the parent result under the parent
    identifier. *)
Definition recover (source : json) (info : Path) : result json :=
  hid ← has_hidden source;
  if (hid : bool) then
    hidden ← get_prop source OPENAPI_TO_GRAPHQL;
    d ← get_prop hidden "data";
    if is_object d then
      parentIdentifier ← getParentIdentifier info;
      if negb (String.eqb parentIdentifier "") then
        present ← js_in parentIdentifier d;
        if (present : bool) then
          record ← get_prop d parentIdentifier;
          JSON_clone record
        else Ret (JObj [])
      else Ret (JObj [])
    else Ret (JObj [])
  else Ret (JObj []).

(** [if (typeof resolveData.usedParams === 'undefined')
       resolveData.usedParams = {}] *)
Definition init_usedParams (resolveData : json) : result json :=
  usedParams ← get_prop resolveData "usedParams";
  if is_undefined usedParams
  then set_prop resolveData "usedParams" (JObj [])
  else Ret resolveData.

(** *** Default values *)

(** One round of [operation.parameters.forEach]: the arguments after it. *)
Definition fill_default (operation : Operation) (data : PreprocessingData)
    (args : obj) (param : ParameterObject) : result obj :=
  let saneParamName := sanitize (param_name param) (caseStyle data) in
  if is_undefined (obj_read saneParamName args) then
    match param_schema param with
    | Some schemaOrRef =>
        schema ← match schemaOrRef with
                 | Reference ref => resolveRef ref (oas operation)
                 | Schema s => Ret (Some s)
                 end;
        match schema with
        | Some s =>
            if truthy (schema_default s)
            then Ret (obj_set saneParamName (schema_default s) args)
            else Ret args
        | None => Ret args
        end
    | None => Ret args
    end
  else Ret args.

Fixpoint fill_defaults (operation : Operation) (data : PreprocessingData)
    (params : list ParameterObject) (args : obj) : result obj :=
  match params with
  | [] => Ret args
  | param :: rest =>
      args' ← fill_default operation data args param;
      fill_defaults operation data rest args'
  end.

(** *** Arguments provided by links *)

(** [linkParams.forEach]: each match is replaced, in the current text, by
    the value of the expression between its braces. *)
Fixpoint replace_linkParams (paramName : string) (linkParams : list string)
    (value : string) (resolveData source : json) (args : obj) : result string :=
  match linkParams with
  | [] => Ret value
  | linkParam :: rest =>
      v ← resolveRuntimeExpression paramName (Str.strip_ends linkParam)
            resolveData source args;
      replace_linkParams paramName rest
        (Str.replace value linkParam (ToString v)) resolveData source args
  end.

(** One round of [for (const paramName in argsFromLink)]. *)
Definition resolve_link (data : PreprocessingData) (resolveData source : json)
    (args : obj) (link : string * string) : result obj :=
  let paramName := fst link in
  let value := snd link in
  let saneParamName := sanitize paramName (caseStyle data) in
  if negb (Str.has_brace value) then
    v ← (if isRuntimeExpression value
         then resolveRuntimeExpression paramName value resolveData source args
         else Ret (JStr value));
    Ret (obj_set saneParamName v args)
  else
    match Str.match_braces value with
    | [] => Throw (TypeError "cannot read properties of null (reading 'forEach')")
    | linkParams =>
        value' ← replace_linkParams paramName linkParams value resolveData source args;
        Ret (obj_set saneParamName (JStr value') args)
    end.

Fixpoint resolve_links (data : PreprocessingData) (resolveData source : json)
    (links : list (string * string)) (args : obj) : result obj :=
  match links with
  | [] => Ret args
  | link :: rest =>
      args' ← resolve_link data resolveData source args link;
      resolve_links data resolveData source rest args'
  end.

(** *** Request data *)

(** One round of the loop of [extractRequestDataFromArgs] over the
    parameters: the path, the query string and the headers after it. *)
Definition extract_param (data : PreprocessingData) (args : obj)
    (st : string * obj * obj) (param : ParameterObject) : string * obj * obj :=
  let '(path, qs, headers) := st in
  let saneParamName := sanitize (param_name param) (caseStyle data) in
  if negb (String.eqb saneParamName "") && obj_has saneParamName args then
    let a := obj_read saneParamName args in
    if String.eqb (param_in param) "path" then
      (Str.replace path ("{" ++ param_name param ++ "}") (ToString a), qs, headers)
    else if String.eqb (param_in param) "query" then
      (path, obj_set (param_name param) a qs, headers)
    else if String.eqb (param_in param) "header" then
      (path, qs, obj_set (param_name param) a headers)
    else if String.eqb (param_in param) "cookie" then
      let headers1 := if obj_has "cookie" headers then headers
                      else obj_set "cookie" (JStr "") headers in
      (path, qs,
       obj_set "cookie"
         (JStr (ToString (obj_read "cookie" headers1)
                ++ param_name param ++ "=" ++ ToString a ++ "; "))
         headers1)
    else st
  else st.

(** Extracts data from the GraphQL arguments of a particular field. *)
Definition extractRequestDataFromArgs (path : string)
    (parameters : list ParameterObject) (args : obj) (data : PreprocessingData)
    : string * obj * obj :=
  fold_left (extract_param data args) parameters (path, [], []).

(** *** Authentication *)

Record AuthReqAndProtcolName := {
  authRequired : bool;
  securityRequirement : option string;
  sanitizedSecurityRequirement : option string
}.

(** The loop over [operation.securityRequirements]: the first requirement
    whose sanitized name has an object in [_openAPIToGraphQL.security]. *)
Fixpoint first_fulfilled (requirements : list string) (_openAPIToGraphQL : json)
    : result (option (string * string)) :=
  match requirements with
  | [] => Ret None
  | securityRequirement :: rest =>
      let sanitized := sanitize securityRequirement camelCase in
      sec ← get_prop _openAPIToGraphQL "security";
      entry ← get_prop sec sanitized;
      if is_object entry
      then Ret (Some (securityRequirement, sanitized))
      else first_fulfilled rest _openAPIToGraphQL
  end.

(** Determines whether a given operation requires authentication, and
    which of the authentication protocols can be used. *)
Definition getAuthReqAndProtcolName (operation : Operation) (_openAPIToGraphQL : json)
    : result AuthReqAndProtcolName :=
  match securityRequirements operation with
  | [] => Ret {| authRequired := false; securityRequirement := None;
                 sanitizedSecurityRequirement := None |}
  | requirements =>
      found ← first_fulfilled requirements _openAPIToGraphQL;
      match found with
      | Some (r, s) =>
          Ret {| authRequired := true; securityRequirement := Some r;
                 sanitizedSecurityRequirement := Some s |}
      | None =>
          Ret {| authRequired := true; securityRequirement := None;
                 sanitizedSecurityRequirement := None |}
      end
  end.

(** [authHeaders], [authQs] and [authCookie] ([null] or a text). *)
Definition AuthOptions : Type := obj * obj * json.

(** Return the headers and query strings to authenticate a request (if
    any). *)
Definition getAuthOptions (operation : Operation) (_openAPIToGraphQL : json)
    (data : PreprocessingData) : result AuthOptions :=
  r ← getAuthReqAndProtcolName operation _openAPIToGraphQL;
  if negb (authRequired r) then Ret ([], [], JNull)
  else
    match securityRequirement r, sanitizedSecurityRequirement r with
    | Some requirement, Some sanitized =>
        match obj_get requirement (security data) with
        | None => Throw (TypeError "cannot read properties of undefined (reading 'def')")
        | Some def =>
            if String.eqb (def_type def) "apiKey" then
              sec ← get_prop _openAPIToGraphQL "security";
              entry ← get_prop sec sanitized;
              apiKey ← get_prop entry "apiKey";
              match def_in def with
              | Some location =>
                  match def_name def with
                  | Some name =>
                      if String.eqb location "header" then Ret ([(name, apiKey)], [], JNull)
                      else if String.eqb location "query" then Ret ([], [(name, apiKey)], JNull)
                      else if String.eqb location "cookie"
                      then Ret ([], [], JStr (name ++ "=" ++ ToString apiKey))
                      else Ret ([], [], JNull)
                  | None =>
                      Throw (Error ("Cannot send API key in '"
                                    ++ ToString (JSON_stringify (JStr location)) ++ "'"))
                  end
              | None => Ret ([], [], JNull)
              end
            else if String.eqb (def_type def) "http" then
              match def_scheme def with
              | Some scheme =>
                  if String.eqb scheme "basic" then
                    sec ← get_prop _openAPIToGraphQL "security";
                    entry ← get_prop sec sanitized;
                    username ← get_prop entry "username";
                    sec' ← get_prop _openAPIToGraphQL "security";
                    entry' ← get_prop sec' sanitized;
                    password ← get_prop entry' "password";
                    let credentials := ToString username ++ ":" ++ ToString password in
                    Ret ([("Authorization", JStr ("Basic " ++ base64 credentials))], [], JNull)
                  else
                    Throw (Error ("Cannot recognize http security scheme '"
                                  ++ ToString (JSON_stringify (JStr scheme)) ++ "'"))
              | None =>
                  Throw (Error ("Cannot recognize http security scheme '"
                                ++ ToString (JSON_stringify JUndefined) ++ "'"))
              end
            else if String.eqb (def_type def) "oauth2" then Ret ([], [], JNull)
            else if String.eqb (def_type def) "openIdConnect" then Ret ([], [], JNull)
            else Throw (Error ("Cannot recognize security type '" ++ def_type def ++ "'"))
        end
    | _, _ => Throw (Error "Missing information to authenticate API request.")
    end.

(** [extractToken]: the first token at [tokenJSONpath] in the context. *)
Definition extractToken (data : PreprocessingData) (context : json) : result obj :=
  tokens ← JSONPath (tokenJSONpath (options data)) context;
  match first_token tokens with
  | Some token => Ret [("access_token", token)]
  | None => Ret []
  end.

(** Attempts to create an object to become an OAuth query string. *)
Definition createOAuthQS (data : PreprocessingData) (context : json) : result obj :=
  match tokenJSONpath (options data) with
  | None => Ret []
  | Some _ => extractToken data context
  end.

(** Attempts to create an OAuth authorization header. *)
Definition createOAuthHeader (data : PreprocessingData) (context : json) : result obj :=
  match tokenJSONpath (options data) with
  | None => Ret []
  | Some tokenJSONpath =>
      tokens ← JSONPath (Some tokenJSONpath) context;
      match first_token tokens with
      | Some token =>
          Ret [("Authorization", JStr ("Bearer " ++ ToString token));
               ("User-Agent", JStr "openapi-to-graphql")]
      | None => Ret []
      end
  end.

(** *** Building the request *)

(** The Content-Type and Accept property should not be changed because the
    object type has already been created: the two assignments to
    [headers] after [extractRequestDataFromArgs]. *)
Definition content_headers (operation : Operation) (headers : obj) : obj :=
  let headers1 :=
    if negb (String.eqb (method operation) HTTP_METHODS_get)
    then obj_set "content-type"
           (JStr (default "application/json" (payloadContentType operation))) headers
    else headers in
  obj_set "accept"
    (JStr (default "application/json" (responseContentType operation))) headers1.

(** [let options]: the options object with [headers] and [qs] still empty,
    then [options.headers] and [options.qs].  The two are kept beside the
    object while the resolver goes on writing to them and are stored in it
    by [with_headers_qs]. *)
Definition request_options (requestOptions : option obj) (method url : string)
    (headers qs : obj) : obj * obj * obj :=
  match requestOptions with
  | Some ro =>
      let options := obj_set "url" (JStr url) (obj_set "method" (JStr method) ro) in
      let options := obj_set "qs" (JObj []) (obj_set "headers" (JObj []) options) in
      let oheaders :=
        if truthy (obj_read "headers" ro)
        then obj_assign (obj_assign [] headers) (own_props (obj_read "headers" ro))
        else headers in
      let oqs :=
        if truthy (obj_read "qs" ro)
        then obj_assign (obj_assign [] qs) (own_props (obj_read "qs" ro))
        else qs in
      (options, oheaders, oqs)
  | None =>
      ([("method", JStr method); ("url", JStr url);
        ("headers", JObj []); ("qs", JObj [])], headers, qs)
  end.

Definition with_headers_qs (options oheaders oqs : obj) : obj :=
  obj_set "qs" (JObj oqs) (obj_set "headers" (JObj oheaders) options).

(** Determine possible payload: [rawPayload] when [payloadName] is a
    string. *)
Definition raw_payload (p : GetResolverParams) (args : obj) : result (option json) :=
  match payloadName p with
  | Some payloadName =>
      let sanePayloadName :=
        if genericPayloadArgName (options (data p)) then "requestBody"
        else sanitize payloadName camelCase in
      let arg := obj_read sanePayloadName args in
      rawPayload ←
        match payloadContentType (operation p) with
        | Some ct =>
            if String.eqb ct "application/json" then
              d ← desanitizeObjectKeys arg (saneMap (data p));
              Ret (JSON_stringify d)
            else if String.eqb ct "application/x-www-form-urlencoded" then
              d ← desanitizeObjectKeys arg (saneMap (data p));
              formurlencoded d
            else Ret arg
        | None => Ret arg
        end;
      Ret (Some rawPayload)
  | None => Ret None
  end.

(** [if (authCookie !== null)]: append to or set the [cookie] header. *)
Definition add_cookie (authCookie : json) (oheaders : obj) : obj :=
  match authCookie with
  | JNull => oheaders
  | _ =>
      if truthy (obj_read "cookie" oheaders)
      then obj_set "cookie"
             (JStr (ToString (obj_read "cookie" oheaders) ++ ToString authCookie)) oheaders
      else obj_set "cookie" authCookie oheaders
  end.

(** What the resolver holds when it calls the transport. *)
Record Prepared := {
  prep_options : obj;
  prep_resolveData : json;
  prep_args : obj
}.

(** The resolver up to the call of [httpRequest]. *)
Definition prepare (p : GetResolverParams) (baseUrl : string)
    (source : json) (args : obj) (context : json) (info : Path) : result Prepared :=
  let operation := operation p in
  let data := data p in
  resolveData ← recover source info;
  resolveData ← init_usedParams resolveData;
  args ← fill_defaults operation data (parameters operation) args;
  args ← resolve_links data resolveData source (argsFromLink p) args;
  usedParams ← get_prop resolveData "usedParams";
  usedParams ← assign usedParams (JObj args);
  resolveData ← set_prop resolveData "usedParams" usedParams;
  let '(path, qs, headers) :=
    extractRequestDataFromArgs (path operation) (parameters operation) args data in
  let url := baseUrl ++ path in
  let headers := content_headers operation headers in
  let '(options, oheaders, oqs) :=
    request_options (requestOptions p) (method operation) url headers qs in
  resolveData ← set_prop resolveData "usedPayload" JUndefined;
  rawPayload ← raw_payload p args;
  '(options, resolveData) ←
    match rawPayload with
    | Some raw =>
        resolveData ← set_prop resolveData "usedPayload" raw;
        Ret (obj_set "body" raw options, resolveData)
    | None => Ret (options, resolveData)
    end;
  let oheaders := match opt_headers (Resolver.options data) with
                  | Some h => obj_assign oheaders h
                  | None => oheaders
                  end in
  let oqs := match opt_qs (Resolver.options data) with
             | Some q => obj_assign oqs q
             | None => oqs
             end in
  hid ← has_hidden source;
  '(oheaders, oqs) ←
    (if (hid : bool) then
       hidden ← get_prop source OPENAPI_TO_GRAPHQL;
       '(authHeaders, authQs, authCookie) ← getAuthOptions operation hidden data;
       Ret (add_cookie authCookie (obj_assign oheaders authHeaders),
            obj_assign oqs authQs)
     else Ret (oheaders, oqs));
  '(oheaders, oqs) ←
    (if sendOAuthTokenInQuery (Resolver.options data) then
       oauthQueryObj ← createOAuthQS data context;
       Ret (oheaders, obj_assign oqs oauthQueryObj)
     else
       oauthHeader ← createOAuthHeader data context;
       Ret (obj_assign oheaders oauthHeader, oqs));
  let options := with_headers_qs options oheaders oqs in
  resolveData ← set_prop resolveData "usedRequestOptions" (JObj options);
  resolveData ← set_prop resolveData "usedStatusCode" (JStr (statusCode operation));
  Ret {| prep_options := options; prep_resolveData := resolveData; prep_args := args |}.

(** *** Handling the response *)

(** Pass on [_openAPIToGraphQL] to subsequent resolvers: the body of the
    [forEach] over an array result, and the branch of a single object.
    Each assignment to a nested property is followed here by putting the
    changed object back in its place. *)
Definition attach_one (source : json) (identifier : string) (resolveData : json)
    (element : json) : result json :=
  h ← get_prop element OPENAPI_TO_GRAPHQL;
  element ← (if is_undefined h
             then set_prop element OPENAPI_TO_GRAPHQL (JObj [("data", JObj [])])
             else Ret element);
  hid ← has_hidden source;
  element ← (if (hid : bool) then
               target ← get_prop element OPENAPI_TO_GRAPHQL;
               src ← get_prop source OPENAPI_TO_GRAPHQL;
               target ← assign_stmt target src;
               set_prop element OPENAPI_TO_GRAPHQL target
             else Ret element);
  h ← get_prop element OPENAPI_TO_GRAPHQL;
  d ← get_prop h "data";
  d ← set_prop d identifier resolveData;
  h ← set_prop h "data" d;
  set_prop element OPENAPI_TO_GRAPHQL h.

Fixpoint attach_all (source : json) (identifier : string) (resolveData : json)
    (elements : list json) : result (list json) :=
  match elements with
  | [] => Ret []
  | element :: rest =>
      element' ← attach_one source identifier resolveData element;
      rest' ← attach_all source identifier resolveData rest;
      Ret (element' :: rest')
  end.

Definition attach (source : json) (identifier : string) (resolveData : json)
    (saneData : json) : result json :=
  if truthy saneData && is_object saneData then
    match saneData with
    | JArr elements ps =>
        elements' ← attach_all source identifier resolveData elements;
        Ret (JArr elements' ps)
    | _ => attach_one source identifier resolveData saneData
    end
  else Ret saneData.

(** ToNumber, as [limit >= 0] and [slice(0, limit)] apply it; [None] is
    [NaN]. *)
Definition ToNumber (v : json) : option Z :=
  match v with
  | JUndefined => None
  | JNull => Some 0
  | JBool b => Some (if b then 1 else 0)
  | JNum n => Some n
  | JStr s => StringToNumber s
  | JArr _ _ | JObj _ => StringToNumber (ToString v)
  end.

Definition limit_error_negative : thrown :=
  Error "Auto-generated 'limit' argument must be greater than or equal to 0".

Definition limit_error_missing : thrown :=
  Error "Cannot get value for auto-generated 'limit' argument".

(** Apply limit argument *)
Definition apply_limit (operation : Operation) (data : PreprocessingData)
    (args : obj) (saneData : json) : result json :=
  if addLimitArgument (options data)
     && negb (existsb (fun parameter => String.eqb (param_name parameter) "limit")
                (parameters operation))
  then
    match saneData with
    | JArr elements _ =>
        if existsb is_object elements then
          if obj_has "limit" args then
            match ToNumber (obj_read "limit" args) with
            | Some limit =>
                if limit >=? 0
                then Ret (JArr (slice0 elements limit) [])
                else Throw limit_error_negative
            | None => Throw limit_error_negative
            end
          else Throw limit_error_missing
        else Ret saneData
    | _ => Ret saneData
    end
  else Ret saneData.

Definition request_failed (operation : Operation) : string :=
  "Could not invoke operation " ++ operationString operation.

Definition content_type_mismatch (operation : Operation) (received : json) : thrown :=
  Error ("Operation " ++ operationString operation
         ++ " should have a content-type '"
         ++ default "undefined" (responseContentType operation)
         ++ "' but has '" ++ ToString received ++ "' instead").

Definition cannot_parse (operation : Operation) : thrown :=
  Error ("Cannot JSON parse response body of operation "
         ++ operationString operation
         ++ " even though it has content-type 'application/json'").

Definition no_content_type : thrown :=
  Error "Response does not have a Content-Type header".

(** The inclusion test of the received content type against the declared
    one, in either direction. *)
Definition content_type_matches (operation : Operation) (received : json) : result bool :=
  a ← js_includes received
        (match responseContentType operation with
         | Some d => JStr d
         | None => JUndefined
         end);
  if (a : bool) then Ret true
  else match responseContentType operation with
       | Some d => Ret (Str.includes d (ToString received))
       | None => Throw (TypeError "cannot read properties of undefined (reading 'includes')")
       end.

(** A parsed JSON body on its way to the result: the response headers are
    recorded, the keys of the body are sanitized, and the hidden record is
    attached. *)
Definition shape (p : GetResolverParams) (resolveData source : json) (info : Path)
    (response : Response) (responseBody : json) : result json :=
  resolveData ← set_prop resolveData "responseHeaders" (JObj (resp_headers response));
  saneData ← sanitizeObjectKeys responseBody (caseStyle (data p));
  attach source (getIdentifier info) resolveData saneData.

(** The conditions under which the callback parses the body as JSON: a
    status code in [200, 299], a content-type header that matches the
    declared one and includes [application/json], and a body that
    parses. *)
Definition json_response (operation : Operation) (response : Response)
    (responseBody : json) : Prop :=
  let received := obj_read "content-type" (resp_headers response) in
  200 <= resp_statusCode response <= 299
  /\ truthy received = true
  /\ content_type_matches operation received = Ret true
  /\ js_includes received (JStr "application/json") = Ret true
  /\ JSON_parse (ToString (resp_body response)) = Some responseBody.

(** The callback given to [then]: from the response to the result of the
    field. *)
Definition handle_response (p : GetResolverParams) (resolveData : json) (args : obj)
    (source : json) (info : Path) (response : Response) : result json :=
  let operation := operation p in
  let data := data p in
  let body := resp_body response in
  if (resp_statusCode response <? 200) || (resp_statusCode response >? 299) then
    let errorString := request_failed operation in
    if provideErrorExtensions (options data) then
      let responseBody := match JSON_parse (ToString body) with
                          | Some parsed => parsed
                          | None => body
                          end in
      Throw (graphQLErrorWithExtensions errorString
               [("method", JStr (method operation));
                ("path", JStr (path operation));
                ("statusCode", JNum (resp_statusCode response));
                ("responseHeaders", JObj (resp_headers response));
                ("responseBody", responseBody)])
    else Throw (Error errorString)
  else
    let received := obj_read "content-type" (resp_headers response) in
    if truthy received then
      ok ← content_type_matches operation received;
      if negb ok then Throw (content_type_mismatch operation received)
      else
        isJson ← js_includes received (JStr "application/json");
        if (isJson : bool) then
          match JSON_parse (ToString body) with
          | None => Throw (cannot_parse operation)
          | Some responseBody =>
              saneData ← shape p resolveData source info response responseBody;
              apply_limit operation data args saneData
          end
        else Ret body
    else
      match responseContentType operation with
      | None => Ret JNull
      | Some _ => Throw no_content_type
      end.

(** The resolve function returned by [getResolver]. *)
Definition resolve (p : GetResolverParams) (baseUrl : string) : GraphQLFieldResolver :=
  fun source args context info =>
    prepared ← prepare p baseUrl source args context info;
    response ← httpRequest p (prep_options prepared) context;
    handle_response p (prep_resolveData prepared) (prep_args prepared)
      source info response.

(** If the operation type is Query or Mutation, create and return a
    resolver function that performs API requests for the given GraphQL
    query; a custom resolver registered for the title, path and method is
    returned as it is. *)
Definition getResolver (p : GetResolverParams) : GraphQLFieldResolver :=
  let baseUrl := match baseUrl p with
                 | Some b => b
                 | None => getBaseUrl (operation p)
                 end in
  let operation := operation p in
  match customResolvers (options (data p))
          (info_title (oas operation)) (path operation) (method operation) with
  | Some custom => custom
  | None => resolve p baseUrl
  end.

(** The headers of the request the resolver hands to the transport. *)
Definition dispatched_header (name : string) (prepared : result Prepared) : option json :=
  match prepared with
  | Ret pr =>
      match obj_get "headers" (prep_options pr) with
      | Some (JObj hs) => obj_get name hs
      | _ => None
      end
  | _ => None
  end.

End WithCollaborators.
End Runtime.
Export Runtime.

(** ** The store view: objects and references *)

Module Store.

(** A location names one object.  A value is a primitive or a reference;
    two references to one location are two names of the same object. *)
Abbreviation loc := positive (only parsing).

Inductive val : Type :=
| VUndefined
| VNull
| VBool (b : bool)
| VNum (n : Z)
| VStr (s : string)
| VRef (l : loc).

Definition props : Type := list (string * val).

(** An object: its own properties; an array has elements besides. *)
Inductive cell : Type :=
| Obj (ps : props)
| Arr (elems : list val) (ps : props).

Abbreviation store := (gmap loc cell) (only parsing).

Definition is_object (v : val) : bool :=
  match v with VNull | VRef _ => true | _ => false end.

Definition is_undefined (v : val) : bool :=
  match v with VUndefined => true | _ => false end.

Definition truthy (v : val) : bool :=
  match v with
  | VUndefined | VNull => false
  | VBool b => b
  | VNum n => negb (n =? 0)
  | VStr s => negb (String.eqb s "")
  | VRef _ => true
  end.

(** A tree without objects is a value as it is. *)
Definition of_prim (t : json) : val :=
  match t with
  | JNull => VNull
  | JBool b => VBool b
  | JNum n => VNum n
  | JStr s => VStr s
  | _ => VUndefined
  end.

(** *** One object *)

Definition read_props (k : string) (ps : props) : val :=
  match obj_get k ps with Some v => v | None => VUndefined end.

(** [c[k]] *)
Definition cell_read (k : string) (c : cell) : val :=
  match c with
  | Obj ps => read_props k ps
  | Arr es ps =>
      if String.eqb k "length" then VNum (Z.of_nat (length es))
      else match array_index k with
           | Some i => nth i es VUndefined
           | None => read_props k ps
           end
  end.

(** [k in c] *)
Definition cell_has (k : string) (c : cell) : bool :=
  match c with
  | Obj ps => obj_has k ps
  | Arr es ps =>
      if String.eqb k "length" then true
      else match array_index k with
           | Some i => bool_decide (i < length es)%nat
           | None => obj_has k ps
           end
  end.

(** [c[k] = v]; [None]: the length of an array, which is not modelled. *)
Definition cell_write (k : string) (v : val) (c : cell) : option cell :=
  match c with
  | Obj ps => Some (Obj (obj_set k v ps))
  | Arr es ps =>
      if String.eqb k "length" then None
      else match array_index k with
           | Some i =>
               if bool_decide (i < length es)%nat then Some (Arr (<[i:=v]> es) ps)
               else Some (Arr (es ++ replicate (i - length es) VUndefined ++ [v])%list ps)
           | None => Some (Arr es (obj_set k v ps))
           end
  end.

(** The own enumerable properties of an object. *)
Definition cell_props (c : cell) : props :=
  match c with
  | Obj ps => ps
  | Arr es ps => (imap (fun i x => (Str.of_Z (Z.of_nat i), x)) es ++ ps)%list
  end.

Definition cell_vals (c : cell) : list val :=
  match c with
  | Obj ps => map snd ps
  | Arr es ps => (es ++ map snd ps)%list
  end.

(** *** Reading and writing the store *)

(** A computation that reads the store. *)
Record R (A : Type) : Type := mkR { runR : store -> result A }.
Arguments mkR {A} _.
Arguments runR {A} _ _.

#[global] Instance R_ret : MRet R := fun A a => mkR (fun _ => Ret a).

#[global] Instance R_bind : MBind R := fun A B k m =>
  mkR (fun h =>
         match runR m h with
         | Ret a => runR (k a) h
         | Throw e => Throw e
         | Unmodelled w => Unmodelled w
         end).

(** A computation that reads and writes the store.  The store is kept when
    the computation throws: what was written before stays written. *)
Record M (A : Type) : Type := mkM { run : store -> result A * store }.
Arguments mkM {A} _.
Arguments run {A} _ _.

#[global] Instance M_ret : MRet M := fun A a => mkM (fun h => (Ret a, h)).

#[global] Instance M_bind : MBind M := fun A B k m =>
  mkM (fun h =>
         match run m h with
         | (Ret a, h1) => run (k a) h1
         | (Throw e, h1) => (Throw e, h1)
         | (Unmodelled w, h1) => (Unmodelled w, h1)
         end).

Definition read {A} (r : R A) : M A := mkM (fun h => (runR r h, h)).
Definition lift {A} (r : result A) : M A := mkM (fun h => (r, h)).
Definition liftR {A} (r : result A) : R A := mkR (fun _ => r).

(** A new object: a location the store does not have yet. *)
Definition alloc (c : cell) : M val :=
  mkM (fun h => let l := fresh (dom h) in (Ret (VRef l), <[l:=c]> h)).

(** [v[k]] *)
Definition get_prop (v : val) (k : string) : R val :=
  mkR (fun h =>
         match v with
         | VUndefined | VNull =>
             Throw (TypeError "cannot read properties of undefined or null")
         | VRef l =>
             match h !! l with
             | Some c => Ret (cell_read k c)
             | None => Unmodelled "a reference to no object"
             end
         | VStr s =>
             if String.eqb k "length" then Ret (VNum (Z.of_nat (String.length s)))
             else match array_index k with
                  | Some i =>
                      Ret (match String.get i s with
                           | Some c => VStr (String c EmptyString)
                           | None => VUndefined
                           end)
                  | None => Ret VUndefined
                  end
         | VBool _ | VNum _ => Ret VUndefined
         end).

(** [k in v] *)
Definition js_in (k : string) (v : val) : R bool :=
  mkR (fun h =>
         match v with
         | VRef l =>
             match h !! l with
             | Some c => Ret (cell_has k c)
             | None => Unmodelled "a reference to no object"
             end
         | _ => Throw (TypeError "cannot use 'in' on a value that is not an object")
         end).

(** [target[k] = v]: the one operation that changes an object. *)
Definition set_prop (target : val) (k : string) (v : val) : M unit :=
  mkM (fun h =>
         match target with
         | VRef l =>
             match h !! l with
             | Some c =>
                 match cell_write k v c with
                 | Some c' => (Ret tt, <[l:=c']> h)
                 | None => (Unmodelled "assignment to the length of an array", h)
                 end
             | None => (Unmodelled "a reference to no object", h)
             end
         | _ => (Throw (TypeError "cannot set a property of a primitive, undefined or null"), h)
         end).

Definition own_props (src : val) : R props :=
  mkR (fun h =>
         match src with
         | VRef l =>
             match h !! l with
             | Some c => Ret (cell_props c)
             | None => Unmodelled "a reference to no object"
             end
         | VStr s =>
             Ret (imap (fun i c => (Str.of_Z (Z.of_nat i), VStr (String c EmptyString)))
                    (chars s))
         | _ => Ret []
         end).

Fixpoint set_props (target : val) (ps : props) : M unit :=
  match ps with
  | [] => mret tt
  | (k, v) :: r => set_prop target k v ;; set_props target r
  end.

(** [Object.assign(target, src)], the value of the call used. *)
Definition assign (target src : val) : M val :=
  match target with
  | VUndefined | VNull =>
      lift (Throw (TypeError "cannot convert undefined or null to object"))
  | VBool _ | VNum _ | VStr _ => lift (Unmodelled "Object.assign returns a wrapper object")
  | VRef _ => ps ← read (own_props src); set_props target ps ;; mret target
  end.

(** [Object.assign(target, src)] as a statement. *)
Definition assign_stmt (target src : val) : M unit :=
  match target with
  | VUndefined | VNull =>
      lift (Throw (TypeError "cannot convert undefined or null to object"))
  | VBool _ | VNum _ => mret tt
  | VStr _ => lift (Unmodelled "Object.assign onto a string wrapper")
  | VRef _ => ps ← read (own_props src); set_props target ps
  end.

(** *** Trees in the store *)

(** The tree a value stands for, read through at most [fuel] references. *)
Fixpoint snapshot (fuel : nat) (h : store) (v : val) : option json :=
  match v with
  | VUndefined => Some JUndefined
  | VNull => Some JNull
  | VBool b => Some (JBool b)
  | VNum n => Some (JNum n)
  | VStr s => Some (JStr s)
  | VRef l =>
      match fuel with
      | O => None
      | S n =>
          let entry (kv : string * val) : option (string * json) :=
            t ← snapshot n h (snd kv); Some (fst kv, t) in
          match h !! l with
          | Some (Obj ps) => o ← mapM entry ps; Some (JObj o)
          | Some (Arr es ps) =>
              ts ← mapM (snapshot n h) es; o ← mapM entry ps; Some (JArr ts o)
          | None => None
          end
      end
  end.

(** The trees of a list, one after the other, by [f]. *)
Definition alloc_list (f : json -> store -> val * store)
    : list json -> store -> list val * store :=
  fix go (es : list json) (h : store) : list val * store :=
    match es with
    | [] => ([], h)
    | x :: r =>
        let '(v, h1) := f x h in
        let '(vs, h2) := go r h1 in
        (v :: vs, h2)
    end.

Definition alloc_props (f : json -> store -> val * store)
    : obj -> store -> props * store :=
  fix go (o : obj) (h : store) : props * store :=
    match o with
    | [] => ([], h)
    | (k, x) :: r =>
        let '(v, h1) := f x h in
        let '(ps, h2) := go r h1 in
        ((k, v) :: ps, h2)
    end.

(** The tree as new objects: one new object for each object of the tree,
    the children before their parent. *)
Fixpoint alloc_tree (t : json) (h : store) : val * store :=
  match t with
  | JObj o =>
      let '(ps, h1) := alloc_props alloc_tree o h in
      let l := fresh (dom h1) in
      (VRef l, <[l:=Obj ps]> h1)
  | JArr es o =>
      let '(vs, h1) := alloc_list alloc_tree es h in
      let '(ps, h2) := alloc_props alloc_tree o h1 in
      let l := fresh (dom h2) in
      (VRef l, <[l:=Arr vs ps]> h2)
  | _ => (of_prim t, h)
  end.

Definition new_tree (t : json) : M val :=
  mkM (fun h => let '(v, h') := alloc_tree t h in (Ret v, h')).

(** [JSON.parse(JSON.stringify(v))]: the tree of [v] is read and built
    anew.  A structure that reaches itself has no tree ([JSON.stringify]
    throws on it); reading through one reference more than the store has
    objects finds every tree there is. *)
Definition JSON_clone (v : val) : M val :=
  mkM (fun h =>
         match v with
         | VUndefined => (Throw (SyntaxError "JSON.parse(undefined)"), h)
         | _ =>
             match snapshot (S (size h)) h v with
             | Some t => let '(v', h') := alloc_tree (clone_value t) h in (Ret v', h')
             | None => (Throw (TypeError "converting circular structure to JSON"), h)
             end
         end).

End Store.

(** ** The store view: the resolver *)

(** The statements of the resolver once more, on references.  The
    control flow and every read and write of an object are those of the
    source; computations on texts are shared with the value view. *)
Module StoreView.
Import Store.

Section WithCollaborators.
Context `{Collaborators}.

(** Where an object of the static data (a default of the OAS document, a
    value of [requestOptions] or of the option headers) lives in the store;
    a primitive is itself. *)
Variable static_value : json -> val.

(** ToString of a value in a store. *)
Variable text_of : store -> val -> string.

(** jsonpath-plus on an object of the store: the matches are values of the
    store, references into the object included. *)
Variable JSONPath_in : option string -> store -> val -> result (option (list val)).

(** The payload text: [JSON.stringify] ([true]) or [formurlencoded]
    ([false]) of the desanitized argument. *)
Variable encode_payload : store -> bool -> val -> result val.

(** The transport, given the request options and the context. *)
Variable httpRequest_in : store -> val -> val -> result Response.

Definition ToString (v : val) : R string := mkR (fun h => Ret (text_of h v)).

Definition static_props (o : obj) : props :=
  map (fun kv => (fst kv, static_value (snd kv))) o.

Definition first_token (tokens : option (list val)) : option val :=
  match tokens with
  | Some (t :: _) => Some t
  | _ => None
  end.

Definition used_param (sep value : string) (resolveData : val) : R val :=
  usedParams ← get_prop resolveData "usedParams";
  match Str.split_1 sep value with
  | Some name => get_prop usedParams (sanitize name camelCase)
  | None => liftR (Unmodelled "sanitize(undefined)")
  end.

Definition header_of (value : string) (headers : val) : R val :=
  get_prop headers (default "undefined" (Str.split_1 "header." value)).

Definition pointer_in (value : string) (root : val) : R val :=
  mkR (fun h =>
         match JSONPath_in (Str.split_1 "body#/" value) h root with
         | Ret tokens =>
             match first_token tokens with
             | Some t => Ret t
             | None => Throw (invalid_expression value)
             end
         | Throw e => Throw e
         | Unmodelled w => Unmodelled w
         end).

(** [resolveRuntimeExpression]: every case reads, except [$response.body],
    which copies the parent result and clears the hidden field of the
    copy. *)
Definition resolveRuntimeExpression (paramName value : string)
    (resolveData root : val) : M val :=
  if String.eqb value "$url" then
    read (o ← get_prop resolveData "usedRequestOptions"; get_prop o "url")
  else if String.eqb value "$method" then
    read (o ← get_prop resolveData "usedRequestOptions"; get_prop o "method")
  else if String.eqb value "$statusCode" then
    read (get_prop resolveData "usedStatusCode")
  else if Str.startsWith value "$request." then
    if String.eqb value "$request.body" then
      read (get_prop resolveData "usedPayload")
    else if Str.startsWith value "$request.body#" then
      read (usedPayload ← get_prop resolveData "usedPayload";
            pointer_in value usedPayload)
    else if Str.startsWith value "$request.query" then
      read (used_param "query." value resolveData)
    else if Str.startsWith value "$request.path" then
      read (used_param "path." value resolveData)
    else if Str.startsWith value "$request.header" then
      read (o ← get_prop resolveData "usedRequestOptions";
            h ← get_prop o "headers";
            header_of value h)
    else lift (Throw (invalid_expression value))
  else if Str.startsWith value "$response." then
    if String.eqb value "$response.body" then
      result ← JSON_clone root;
      set_prop result OPENAPI_TO_GRAPHQL VUndefined ;;
      mret result
    else if Str.startsWith value "$response.body#" then
      read (pointer_in value root)
    else if Str.startsWith value "$response.query" then
      read (used_param "query." value resolveData)
    else if Str.startsWith value "$response.path" then
      read (used_param "path." value resolveData)
    else if Str.startsWith value "$response.header" then
      read (h ← get_prop resolveData "responseHeaders"; header_of value h)
    else lift (Throw (invalid_expression value))
  else lift (Throw (invalid_expression value)).

(** *** Ancestor context recovery *)

Definition has_hidden (source : val) : R bool :=
  if truthy source && is_object source then
    hidden ← get_prop source OPENAPI_TO_GRAPHQL;
    mret (is_object hidden)
  else mret false.

Definition recover (source : val) (info : Path) : M val :=
  hid ← read (has_hidden source);
  if (hid : bool) then
    hidden ← read (get_prop source OPENAPI_TO_GRAPHQL);
    d ← read (get_prop hidden "data");
    if is_object d then
      parentIdentifier ← lift (getParentIdentifier info);
      if negb (String.eqb parentIdentifier "") then
        present ← read (js_in parentIdentifier d);
        if (present : bool) then
          record ← read (get_prop d parentIdentifier);
          JSON_clone record
        else alloc (Obj [])
      else alloc (Obj [])
    else alloc (Obj [])
  else alloc (Obj []).

Definition init_usedParams (resolveData : val) : M unit :=
  usedParams ← read (get_prop resolveData "usedParams");
  if is_undefined usedParams then
    fresh_object ← alloc (Obj []);
    set_prop resolveData "usedParams" fresh_object
  else mret tt.

(** *** Default values and link arguments: writes to [args] *)

Definition fill_default (operation : Operation) (data : PreprocessingData)
    (args : val) (param : ParameterObject) : M unit :=
  let saneParamName := sanitize (param_name param) (caseStyle data) in
  a ← read (get_prop args saneParamName);
  if is_undefined a then
    match param_schema param with
    | Some schemaOrRef =>
        schema ← lift (match schemaOrRef with
                       | Reference ref => resolveRef ref (oas operation)
                       | Schema s => Ret (Some s)
                       end);
        match schema with
        | Some s =>
            if JS.truthy (schema_default s)
            then set_prop args saneParamName (static_value (schema_default s))
            else mret tt
        | None => mret tt
        end
    | None => mret tt
    end
  else mret tt.

Fixpoint fill_defaults (operation : Operation) (data : PreprocessingData)
    (params : list ParameterObject) (args : val) : M unit :=
  match params with
  | [] => mret tt
  | param :: rest =>
      fill_default operation data args param ;;
      fill_defaults operation data rest args
  end.

Fixpoint replace_linkParams (paramName : string) (linkParams : list string)
    (value : string) (resolveData source : val) : M string :=
  match linkParams with
  | [] => mret value
  | linkParam :: rest =>
      v ← resolveRuntimeExpression paramName (Str.strip_ends linkParam)
            resolveData source;
      t ← read (ToString v);
      replace_linkParams paramName rest (Str.replace value linkParam t)
        resolveData source
  end.

Definition resolve_link (data : PreprocessingData) (resolveData source args : val)
    (link : string * string) : M unit :=
  let paramName := fst link in
  let value := snd link in
  let saneParamName := sanitize paramName (caseStyle data) in
  if negb (Str.has_brace value) then
    v ← (if isRuntimeExpression value
         then resolveRuntimeExpression paramName value resolveData source
         else mret (VStr value));
    set_prop args saneParamName v
  else
    match Str.match_braces value with
    | [] => lift (Throw (TypeError "cannot read properties of null (reading 'forEach')"))
    | linkParams =>
        value' ← replace_linkParams paramName linkParams value resolveData source;
        set_prop args saneParamName (VStr value')
    end.

Fixpoint resolve_links (data : PreprocessingData) (resolveData source args : val)
    (links : list (string * string)) : M unit :=
  match links with
  | [] => mret tt
  | link :: rest =>
      resolve_link data resolveData source args link ;;
      resolve_links data resolveData source args rest
  end.

(** [resolveData.usedParams = Object.assign(resolveData.usedParams, args)] *)
Definition record_usedParams (resolveData args : val) : M unit :=
  usedParams ← read (get_prop resolveData "usedParams");
  usedParams ← assign usedParams args;
  set_prop resolveData "usedParams" usedParams.

(** *** The request: reads, then three new objects *)

Definition extract_param (data : PreprocessingData) (args : val)
    (st : string * props * props) (param : ParameterObject)
    : R (string * props * props) :=
  let '(path, qs, headers) := st in
  let saneParamName := sanitize (param_name param) (caseStyle data) in
  if negb (String.eqb saneParamName "") then
    present ← js_in saneParamName args;
    if (present : bool) then
      a ← get_prop args saneParamName;
      if String.eqb (param_in param) "path" then
        t ← ToString a;
        mret (Str.replace path ("{" ++ param_name param ++ "}") t, qs, headers)
      else if String.eqb (param_in param) "query" then
        mret (path, obj_set (param_name param) a qs, headers)
      else if String.eqb (param_in param) "header" then
        mret (path, qs, obj_set (param_name param) a headers)
      else if String.eqb (param_in param) "cookie" then
        let headers1 := if obj_has "cookie" headers then headers
                        else obj_set "cookie" (VStr "") headers in
        c ← ToString (read_props "cookie" headers1);
        t ← ToString a;
        mret (path, qs,
              obj_set "cookie" (VStr (c ++ param_name param ++ "=" ++ t ++ "; "))
                headers1)
      else mret st
    else mret st
  else mret st.

Fixpoint extract_params (data : PreprocessingData) (args : val)
    (parameters : list ParameterObject) (st : string * props * props)
    : R (string * props * props) :=
  match parameters with
  | [] => mret st
  | param :: rest =>
      st' ← extract_param data args st param;
      extract_params data args rest st'
  end.

Definition extractRequestDataFromArgs (path : string)
    (parameters : list ParameterObject) (args : val) (data : PreprocessingData)
    : R (string * props * props) :=
  extract_params data args parameters (path, [], []).

Definition content_headers (operation : Operation) (headers : props) : props :=
  let headers1 :=
    if negb (String.eqb (method operation) HTTP_METHODS_get)
    then obj_set "content-type"
           (VStr (default "application/json" (payloadContentType operation))) headers
    else headers in
  obj_set "accept"
    (VStr (default "application/json" (responseContentType operation))) headers1.

Definition request_options (requestOptions : option obj) (method url : string)
    (headers qs : props) : props * props * props :=
  match requestOptions with
  | Some ro =>
      let options := obj_set "url" (VStr url)
                       (obj_set "method" (VStr method) (static_props ro)) in
      let options := obj_set "qs" VUndefined (obj_set "headers" VUndefined options) in
      let oheaders :=
        if JS.truthy (obj_read "headers" ro)
        then obj_assign (obj_assign [] headers)
               (static_props (Ops.own_props (obj_read "headers" ro)))
        else headers in
      let oqs :=
        if JS.truthy (obj_read "qs" ro)
        then obj_assign (obj_assign [] qs)
               (static_props (Ops.own_props (obj_read "qs" ro)))
        else qs in
      (options, oheaders, oqs)
  | None =>
      ([("method", VStr method); ("url", VStr url);
        ("headers", VUndefined); ("qs", VUndefined)], headers, qs)
  end.

Definition raw_payload (p : GetResolverParams) (args : val) : R (option val) :=
  match payloadName p with
  | Some payloadName =>
      let sanePayloadName :=
        if genericPayloadArgName (options (data p)) then "requestBody"
        else sanitize payloadName camelCase in
      arg ← get_prop args sanePayloadName;
      rawPayload ←
        match payloadContentType (operation p) with
        | Some ct =>
            if String.eqb ct "application/json"
            then mkR (fun h => encode_payload h true arg)
            else if String.eqb ct "application/x-www-form-urlencoded"
            then mkR (fun h => encode_payload h false arg)
            else mret arg
        | None => mret arg
        end;
      mret (Some rawPayload)
  | None => mret None
  end.

Fixpoint first_fulfilled (requirements : list string) (_openAPIToGraphQL : val)
    : R (option (string * string)) :=
  match requirements with
  | [] => mret None
  | securityRequirement :: rest =>
      let sanitized := sanitize securityRequirement camelCase in
      sec ← get_prop _openAPIToGraphQL "security";
      entry ← get_prop sec sanitized;
      if is_object entry
      then mret (Some (securityRequirement, sanitized))
      else first_fulfilled rest _openAPIToGraphQL
  end.

Definition security_entry (_openAPIToGraphQL : val) (sanitized key : string) : R val :=
  sec ← get_prop _openAPIToGraphQL "security";
  entry ← get_prop sec sanitized;
  get_prop entry key.

(** [getAuthOptions]: [authHeaders], [authQs] and [authCookie]. *)
Definition getAuthOptions (operation : Operation) (_openAPIToGraphQL : val)
    (data : PreprocessingData) : R (props * props * val) :=
  match securityRequirements operation with
  | [] => mret ([], [], VNull)
  | requirements =>
      found ← first_fulfilled requirements _openAPIToGraphQL;
      match found with
      | None => liftR (Throw (Error "Missing information to authenticate API request."))
      | Some (requirement, sanitized) =>
          match obj_get requirement (security data) with
          | None =>
              liftR (Throw (TypeError "cannot read properties of undefined (reading 'def')"))
          | Some def =>
              if String.eqb (def_type def) "apiKey" then
                apiKey ← security_entry _openAPIToGraphQL sanitized "apiKey";
                match def_in def with
                | Some location =>
                    match def_name def with
                    | Some name =>
                        if String.eqb location "header"
                        then mret ([(name, apiKey)], [], VNull)
                        else if String.eqb location "query"
                        then mret ([], [(name, apiKey)], VNull)
                        else if String.eqb location "cookie"
                        then t ← ToString apiKey; mret ([], [], VStr (name ++ "=" ++ t))
                        else mret ([], [], VNull)
                    | None =>
                        liftR (Throw (Error ("Cannot send API key in '"
                                 ++ Ops.ToString (JSON_stringify (JStr location)) ++ "'")))
                    end
                | None => mret ([], [], VNull)
                end
              else if String.eqb (def_type def) "http" then
                match def_scheme def with
                | Some scheme =>
                    if String.eqb scheme "basic" then
                      username ← security_entry _openAPIToGraphQL sanitized "username";
                      password ← security_entry _openAPIToGraphQL sanitized "password";
                      u ← ToString username;
                      w ← ToString password;
                      mret ([("Authorization", VStr ("Basic " ++ base64 (u ++ ":" ++ w)))],
                            [], VNull)
                    else
                      liftR (Throw (Error ("Cannot recognize http security scheme '"
                               ++ Ops.ToString (JSON_stringify (JStr scheme)) ++ "'")))
                | None =>
                    liftR (Throw (Error ("Cannot recognize http security scheme '"
                             ++ Ops.ToString (JSON_stringify JUndefined) ++ "'")))
                end
              else if String.eqb (def_type def) "oauth2" then mret ([], [], VNull)
              else if String.eqb (def_type def) "openIdConnect" then mret ([], [], VNull)
              else liftR (Throw (Error ("Cannot recognize security type '"
                                        ++ def_type def ++ "'")))
          end
      end
  end.

Definition add_cookie (authCookie : val) (oheaders : props) : R props :=
  match authCookie with
  | VNull => mret oheaders
  | _ =>
      if truthy (read_props "cookie" oheaders) then
        c ← ToString (read_props "cookie" oheaders);
        t ← ToString authCookie;
        mret (obj_set "cookie" (VStr (c ++ t)) oheaders)
      else mret (obj_set "cookie" authCookie oheaders)
  end.

Definition tokens_in (path : option string) (context : val) : R (option val) :=
  mkR (fun h =>
         match JSONPath_in path h context with
         | Ret tokens => Ret (first_token tokens)
         | Throw e => Throw e
         | Unmodelled w => Unmodelled w
         end).

Definition createOAuthQS (data : PreprocessingData) (context : val) : R props :=
  match tokenJSONpath (options data) with
  | None => mret []
  | Some path =>
      token ← tokens_in (Some path) context;
      match token with
      | Some token => mret [("access_token", token)]
      | None => mret []
      end
  end.

Definition createOAuthHeader (data : PreprocessingData) (context : val) : R props :=
  match tokenJSONpath (options data) with
  | None => mret []
  | Some path =>
      token ← tokens_in (Some path) context;
      match token with
      | Some token =>
          t ← ToString token;
          mret [("Authorization", VStr ("Bearer " ++ t));
                ("User-Agent", VStr "openapi-to-graphql")]
      | None => mret []
      end
  end.

(** The headers and the query string of the request after the option
    headers, the authentication and the OAuth token. *)
Definition finish_headers_qs (p : GetResolverParams) (source context : val)
    (oheaders oqs : props) : R (props * props) :=
  let data := data p in
  let oheaders := match opt_headers (options data) with
                  | Some h => obj_assign oheaders (static_props h)
                  | None => oheaders
                  end in
  let oqs := match opt_qs (options data) with
             | Some q => obj_assign oqs (static_props q)
             | None => oqs
             end in
  hid ← has_hidden source;
  '(oheaders, oqs) ←
    (if (hid : bool) then
       hidden ← get_prop source OPENAPI_TO_GRAPHQL;
       '(authHeaders, authQs, authCookie) ← getAuthOptions (operation p) hidden data;
       oheaders' ← add_cookie authCookie (obj_assign oheaders authHeaders);
       mret (oheaders', obj_assign oqs authQs)
     else mret (oheaders, oqs));
  if sendOAuthTokenInQuery (options data) then
    oauthQueryObj ← createOAuthQS data context;
    mret (oheaders, obj_assign oqs oauthQueryObj)
  else
    oauthHeader ← createOAuthHeader data context;
    mret (obj_assign oheaders oauthHeader, oqs).

(** The resolver up to the call of the transport: the request options and
    [resolveData].  The objects of the request ([options], its [headers]
    and its [qs]) are new objects; they are made here once their
    properties are known. *)
Definition prepare (p : GetResolverParams) (baseUrl : string)
    (source args context : val) (info : Path) : M (val * val) :=
  let operation := operation p in
  let data := data p in
  resolveData ← recover source info;
  init_usedParams resolveData ;;
  fill_defaults operation data (parameters operation) args ;;
  resolve_links data resolveData source args (argsFromLink p) ;;
  record_usedParams resolveData args ;;
  '(path, qs, headers) ←
    read (extractRequestDataFromArgs (path operation) (parameters operation) args data);
  let url := baseUrl ++ path in
  let headers := content_headers operation headers in
  let '(options, oheaders, oqs) :=
    request_options (requestOptions p) (method operation) url headers qs in
  set_prop resolveData "usedPayload" VUndefined ;;
  rawPayload ← read (raw_payload p args);
  options ← match rawPayload with
            | Some raw =>
                set_prop resolveData "usedPayload" raw ;;
                mret (obj_set "body" raw options)
            | None => mret options
            end;
  '(oheaders, oqs) ← read (finish_headers_qs p source context oheaders oqs);
  headers_object ← alloc (Obj oheaders);
  qs_object ← alloc (Obj oqs);
  options_object ←
    alloc (Obj (obj_set "qs" qs_object (obj_set "headers" headers_object options)));
  set_prop resolveData "usedRequestOptions" options_object ;;
  set_prop resolveData "usedStatusCode" (VStr (statusCode operation)) ;;
  mret (options_object, resolveData).

(** *** The response *)

(** Pass on [_openAPIToGraphQL] to subsequent resolvers. *)
Definition attach_one (source : val) (identifier : string) (resolveData element : val)
    : M unit :=
  h ← read (get_prop element OPENAPI_TO_GRAPHQL);
  (if is_undefined h then
     d ← alloc (Obj []);
     hidden ← alloc (Obj [("data", d)]);
     set_prop element OPENAPI_TO_GRAPHQL hidden
   else mret tt) ;;
  hid ← read (has_hidden source);
  (if (hid : bool) then
     target ← read (get_prop element OPENAPI_TO_GRAPHQL);
     src ← read (get_prop source OPENAPI_TO_GRAPHQL);
     assign_stmt target src
   else mret tt) ;;
  h ← read (get_prop element OPENAPI_TO_GRAPHQL);
  d ← read (get_prop h "data");
  set_prop d identifier resolveData.

Fixpoint attach_all (source : val) (identifier : string) (resolveData : val)
    (elements : list val) : M unit :=
  match elements with
  | [] => mret tt
  | element :: rest =>
      attach_one source identifier resolveData element ;;
      attach_all source identifier resolveData rest
  end.

(** [Array.isArray(v)], with the elements. *)
Definition elements_of (v : val) : R (option (list val)) :=
  mkR (fun h =>
         match v with
         | VRef l =>
             match h !! l with
             | Some (Arr es _) => Ret (Some es)
             | Some (Obj _) => Ret None
             | None => Unmodelled "a reference to no object"
             end
         | _ => Ret None
         end).

Definition attach (source : val) (identifier : string) (resolveData saneData : val)
    : M unit :=
  if truthy saneData && is_object saneData then
    es ← read (elements_of saneData);
    match es with
    | Some elements => attach_all source identifier resolveData elements
    | None => attach_one source identifier resolveData saneData
    end
  else mret tt.

Definition ToNumber (v : val) : R (option Z) :=
  mkR (fun h =>
         Ret (match v with
              | VUndefined => None
              | VNull => Some 0
              | VBool b => Some (if b then 1 else 0)
              | VNum n => Some n
              | VStr s => StringToNumber s
              | VRef _ => StringToNumber (text_of h v)
              end)).

(** Apply limit argument: [slice] makes a new array. *)
Definition apply_limit (operation : Operation) (data : PreprocessingData)
    (args saneData : val) : M val :=
  if addLimitArgument (options data)
     && negb (existsb (fun parameter => String.eqb (param_name parameter) "limit")
                (parameters operation))
  then
    es ← read (elements_of saneData);
    match es with
    | Some elements =>
        if existsb is_object elements then
          present ← read (js_in "limit" args);
          if (present : bool) then
            limit ← read (get_prop args "limit");
            n ← read (ToNumber limit);
            match n with
            | Some limit =>
                if limit >=? 0
                then alloc (Arr (firstn (Z.to_nat limit) elements) [])
                else lift (Throw limit_error_negative)
            | None => lift (Throw limit_error_negative)
            end
          else lift (Throw limit_error_missing)
        else mret saneData
    | None => mret saneData
    end
  else mret saneData.

(** The callback given to [then].  The response is a new tree; what the
    callback tests on it is tested as in the value view. *)
Definition handle_response (p : GetResolverParams) (resolveData args source : val)
    (info : Path) (response : Response) : M val :=
  let operation := operation p in
  let data := data p in
  let body := resp_body response in
  if (resp_statusCode response <? 200) || (resp_statusCode response >? 299) then
    let errorString := request_failed operation in
    if provideErrorExtensions (options data) then
      let responseBody := match JSON_parse (Ops.ToString body) with
                          | Some parsed => parsed
                          | None => body
                          end in
      lift (Throw (graphQLErrorWithExtensions errorString
                     [("method", JStr (method operation));
                      ("path", JStr (path operation));
                      ("statusCode", JNum (resp_statusCode response));
                      ("responseHeaders", JObj (resp_headers response));
                      ("responseBody", responseBody)]))
    else lift (Throw (Error errorString))
  else
    let received := obj_read "content-type" (resp_headers response) in
    if JS.truthy received then
      ok ← lift (content_type_matches operation received);
      if negb ok then lift (Throw (content_type_mismatch operation received))
      else
        isJson ← lift (js_includes received (JStr "application/json"));
        if (isJson : bool) then
          match JSON_parse (Ops.ToString body) with
          | None => lift (Throw (cannot_parse operation))
          | Some responseBody =>
              headers ← new_tree (JObj (resp_headers response));
              set_prop resolveData "responseHeaders" headers ;;
              saneTree ← lift (sanitizeObjectKeys responseBody (caseStyle data));
              saneData ← new_tree saneTree;
              attach source (getIdentifier info) resolveData saneData ;;
              apply_limit operation data args saneData
          end
        else new_tree body
    else
      match responseContentType operation with
      | None => mret VNull
      | Some _ => lift (Throw no_content_type)
      end.

(** The resolve function, on the store. *)
Definition resolve (p : GetResolverParams) (baseUrl : string)
    (source args context : val) (info : Path) : M val :=
  '(options, resolveData) ← prepare p baseUrl source args context info;
  response ← read (mkR (fun h => httpRequest_in h options context));
  handle_response p resolveData args source info response.

End WithCollaborators.
End StoreView.

(** ** What a run of the resolver leaves unchanged *)

Module Frame.
Import Store.

(** Every object of [base] is still there in [h], and unchanged unless its
    location is in [W]. *)
Definition frame (W : gset loc) (base h : store) : Prop :=
  forall l c, base !! l = Some c ->
    is_Some (h !! l) /\ (l ∉ W -> h !! l = Some c).

(** [v] names no object of [base]: a primitive, or an object made since. *)
Definition newv (base : store) (v : val) : Prop :=
  forall l, v = VRef l -> base !! l = None.

(** [v] may be written to: it names no object of [base] outside [W]. *)
Definition writable (W : gset loc) (base : store) (v : val) : Prop :=
  forall l, v = VRef l -> base !! l = None \/ l ∈ W.

(** The locations a value reaches through the properties of objects. *)
Inductive reachable (h : store) : val -> loc -> Prop :=
| reach_here l : reachable h (VRef l) l
| reach_step l c v l' :
    h !! l = Some c -> In v (cell_vals c) -> reachable h v l' ->
    reachable h (VRef l) l'.

(** [h'] is [h] with new objects, all of them built from new objects, and
    the values [vs] name none of the objects of [h]: what building trees
    in the store gives. *)
Definition built (h h' : store) (vs : list val) : Prop :=
  h ⊆ h'
  /\ (forall v l, In v vs -> v = VRef l -> h !! l = None /\ is_Some (h' !! l))
  /\ (forall l c, h !! l = None -> h' !! l = Some c ->
        forall v l', In v (cell_vals c) -> v = VRef l' ->
          h !! l' = None /\ is_Some (h' !! l')).

(** The [usedParams] of [resolveData] names no object of [base]. *)
Definition usedParams_new (base h : store) (resolveData : val) : Prop :=
  forall l c, resolveData = VRef l -> h !! l = Some c ->
    newv base (cell_read "usedParams" c).

(** The location of a value, if it names an object. *)
Definition locs_of (v : val) : gset loc :=
  match v with
  | VRef l => {[l]}
  | _ => ∅
  end.

(** A property key that is neither an index nor [length]: on an array it
    names one of the named properties. *)
Definition named (k : string) : Prop :=
  array_index k = None /\ k <> "length".

(** Every object of [hr] is still there in [h]. *)
Definition live (hr h : store) : Prop :=
  forall l, is_Some (hr !! l) -> is_Some (h !! l).

(** The objects made since [hr] are ready for [attach_one]: the hidden
    field of such an object, if it holds an object, holds one made since
    [hr], and its [data], if it holds an object, holds one that may be
    written to. *)
Definition tidy (W : gset loc) (base hr h : store) : Prop :=
  forall l c, hr !! l = None -> h !! l = Some c ->
    (forall hx, cell_read OPENAPI_TO_GRAPHQL c = VRef hx -> hr !! hx = None)
    /\ writable W base (cell_read "data" c).

(** The state of the store while the hidden record is attached. *)
Definition ready (W : gset loc) (base hr h : store) : Prop :=
  frame W base h /\ live hr h /\ tidy W base hr h.

(** From [h] to [h'] the plain objects of [base] have changed under the key
    [id] at most. *)
Definition kept (id : string) (base h h' : store) : Prop :=
  forall l ps, is_Some (base !! l) -> h !! l = Some (Obj ps) ->
    exists ps', h' !! l = Some (Obj ps')
      /\ forall k, k <> id -> obj_get k ps' = obj_get k ps.

(** What [Object.assign] copies from the hidden field of [source]: no
    property named like the hidden field, and under [data] a value that may
    be written to. *)
Definition src_ok (W : gset loc) (base h : store) (source : val) : Prop :=
  forall src ps,
    runR (get_prop source OPENAPI_TO_GRAPHQL) h = Ret src ->
    runR (own_props src) h = Ret ps ->
    forall k v, In (k, v) ps ->
      k <> OPENAPI_TO_GRAPHQL /\ (k = "data" -> writable W base v).

(** The parent result [source] carries, in the store [h], the hidden
    record [record] under the identifier [parentIdentifier]: [ls] is the
    parent result, [lx] its hidden field and [ld] the [data] map of the
    hidden field, a plain object.  The hidden field has no property named like itself, and
    no [data] other than the map. *)
Record carries (h : store) (source : val) (parentIdentifier : string)
    (record : val) (ls lx ld : loc) : Prop := {
  carries_source : source = VRef ls;
  carries_hidden : exists cs, h !! ls = Some cs
                     /\ cell_read OPENAPI_TO_GRAPHQL cs = VRef lx;
  carries_data : exists cx, h !! lx = Some cx
                   /\ cell_read "data" cx = VRef ld
                   /\ forall k v, In (k, v) (cell_props cx) ->
                        k <> OPENAPI_TO_GRAPHQL /\ (k = "data" -> v = VRef ld);
  carries_record : exists pd, h !! ld = Some (Obj pd)
                     /\ obj_get parentIdentifier pd = Some record;
  carries_apart : ld <> ls /\ ld <> lx
}.

(** The objects [attach] writes the hidden field to: the result itself,
    or the elements of a list result.  Each is a plain object of its own
    with no hidden field yet, as the objects of a parsed response are. *)
Definition result_objects (h : store) (saneData : val) (targets : list loc) : Prop :=
  NoDup targets
  /\ (forall l, In l targets ->
        exists ps, h !! l = Some (Obj ps) /\ obj_get OPENAPI_TO_GRAPHQL ps = None)
  /\ ((exists l, saneData = VRef l /\ targets = [l])
      \/ (exists la ps, saneData = VRef la
                        /\ h !! la = Some (Arr (map VRef targets) ps))).

(** The parent result as [attach] reads it.  [None]: it has no hidden field
    that is an object, as at a root field.  [Some ld]: its hidden field is
    a plain object whose [data] is the plain object at [ld], the map of
    records that [Object.assign] hands down to the result.  The parent, its
    hidden field and the map are other objects than those of the result. *)
Definition parent_map (h : store) (source : val) (shared : option loc)
    (targets : list loc) : Prop :=
  (forall l, In l targets -> source <> VRef l)
  /\ match shared with
     | None => runR (StoreView.has_hidden source) h = Ret false
     | Some ld =>
         exists ls lx cs px pd,
           source = VRef ls /\ h !! ls = Some cs
           /\ cell_read OPENAPI_TO_GRAPHQL cs = VRef lx
           /\ h !! lx = Some (Obj px)
           /\ obj_has "data" px = true
           /\ (forall v, In ("data", v) px -> v = VRef ld)
           /\ h !! ld = Some (Obj pd)
           /\ ld <> ls /\ ld <> lx
           /\ ~ In lx targets /\ ~ In ld targets
     end.

(** In [h'] the object at [l] carries the record [record] under [id]: its
    hidden field is a plain object made since [h], whose [data] is a plain
    object, made since [h] or the map handed down, with the record. *)
Definition attached (h h' : store) (shared : option loc) (id : string)
    (record : val) (l : loc) : Prop :=
  exists ps l2 p2 ld pd,
    h' !! l = Some (Obj ps) /\ read_props OPENAPI_TO_GRAPHQL ps = VRef l2
    /\ h !! l2 = None /\ h' !! l2 = Some (Obj p2)
    /\ read_props "data" p2 = VRef ld
    /\ h' !! ld = Some (Obj pd) /\ obj_get id pd = Some record
    /\ match shared with
       | Some handed => ld = handed
       | None => h !! ld = None
       end.

End Frame.

(** ** A small API to run the resolver on *)

Module Example.

(** Collaborators for names that are already sane: the sanitizers are the
    identity, a JSONPath is one property name, and the parser knows the
    bodies the sample transport sends. *)
#[local] Instance toy : Collaborators := {|
  sanitize := fun s _ => s;
  resolveRef := fun _ _ => Ret None;
  getBaseUrl := fun _ => "http://localhost:3000";
  desanitizeObjectKeys := fun v _ => Ret v;
  sanitizeObjectKeys := fun v _ => Ret v;
  JSONPath := fun path root =>
    match path, root with
    | Some k, JObj o =>
        Ret (Some (match obj_get k o with Some v => [v] | None => [] end))
    | Some _, _ => Ret (Some [])
    | None, _ => Ret None
    end;
  formurlencoded := fun v => Ret (JStr (ToString v));
  JSON_parse := fun s =>
    if String.eqb s "[{},{},{},{},{}]" then Some (JArr (replicate 5 (JObj [])) [])
    else if String.eqb s "{}" then Some (JObj [])
    else None;
  JSON_stringify := fun v =>
    match v with
    | JUndefined => JUndefined
    | _ => JStr (ToString v)
    end;
  base64 := fun s => s;
  StringToNumber := fun _ => None
|}.

Definition sample_options : Options := {|
  simpleNames := false;
  customResolvers := fun _ _ _ => None;
  genericPayloadArgName := false;
  opt_headers := None;
  opt_qs := None;
  sendOAuthTokenInQuery := false;
  tokenJSONpath := None;
  provideErrorExtensions := true;
  addLimitArgument := true
|}.

Definition sample_data : PreprocessingData :=
  {| options := sample_options; saneMap := []; security := [] |}.

(** [GET /users/{id}] with two query parameters that declare a default,
    one of them the falsy default 0. *)
Definition sample_operation : Operation := {|
  operationString := "GET /users/{id}";
  path := "/users/{id}";
  method := "get";
  parameters :=
    [ {| param_name := "id"; param_in := "path"; param_schema := None |};
      {| param_name := "page"; param_in := "query";
         param_schema := Some (Schema {| schema_default := JNum 0 |}) |};
      {| param_name := "size"; param_in := "query";
         param_schema := Some (Schema {| schema_default := JNum 10 |}) |} ];
  payloadContentType := None;
  responseContentType := Some "application/json";
  statusCode := "200";
  securityRequirements := [];
  oas := {| info_title := "Example"; document := JNull |}
|}.

(** The same operation declaring no response content type. *)
Definition sample_operation_no_content : Operation := {|
  operationString := "GET /users/{id}";
  path := "/users/{id}";
  method := "get";
  parameters := [ {| param_name := "id"; param_in := "path"; param_schema := None |} ];
  payloadContentType := None;
  responseContentType := None;
  statusCode := "204";
  securityRequirements := [];
  oas := {| info_title := "Example"; document := JNull |}
|}.

(** A transport that answers every request with one response. *)
Definition sample_transport (status : Z) (contentType : option string) (body : string)
    : HTTPRequest :=
  fun _ _ =>
    Ret {| resp_statusCode := status;
           resp_headers := match contentType with
                           | Some c => [("content-type", JStr c)]
                           | None => []
                           end;
           resp_body := JStr body |}.

Definition sample_params (op : Operation) (links : list (string * string))
    (ro : option obj) (t : HTTPRequest) : GetResolverParams := {|
  operation := op;
  argsFromLink := links;
  payloadName := None;
  data := sample_data;
  baseUrl := Some "http://api";
  requestOptions := ro;
  httpRequest := t
|}.

(** [POST /users] with a JSON payload, and options with a static
    [content-type] header. *)
Definition sample_post_operation : Operation := {|
  operationString := "POST /users";
  path := "/users";
  method := "post";
  parameters := [];
  payloadContentType := Some "application/json";
  responseContentType := Some "application/json";
  statusCode := "201";
  securityRequirements := [];
  oas := {| info_title := "Example"; document := JNull |}
|}.

Definition static_headers_data : PreprocessingData := {|
  options := {|
    simpleNames := false;
    customResolvers := fun _ _ _ => None;
    genericPayloadArgName := false;
    opt_headers := Some [("content-type", JStr "text/plain")];
    opt_qs := None;
    sendOAuthTokenInQuery := false;
    tokenJSONpath := None;
    provideErrorExtensions := false;
    addLimitArgument := false
  |};
  saneMap := [];
  security := []
|}.

Definition static_headers_params (t : HTTPRequest) : GetResolverParams := {|
  operation := sample_post_operation;
  argsFromLink := [];
  payloadName := None;
  data := static_headers_data;
  baseUrl := Some "http://api";
  requestOptions := None;
  httpRequest := t
|}.

Definition root_info : Path := PathNode None (Field "users").
Definition child_info : Path := PathNode (Some root_info) (Field "friend").

(** *** The sample on the store *)

(** The text of a value: of the tree it stands for. *)
Definition sample_text_of (h : gmap positive Store.cell) (v : Store.val) : string :=
  match Store.snapshot (S (size h)) h v with
  | Some t => ToString t
  | None => "[object Object]"
  end.

(** The transport of the store view: every request is answered by an
    empty JSON object. *)
Definition store_transport (h : gmap positive Store.cell) (options context : Store.val)
    : result Response :=
  Ret {| resp_statusCode := 200;
         resp_headers := [("content-type", JStr "application/json")];
         resp_body := JStr "{}" |}.

(** A parent result (at 1) with its hidden field (at 2), whose [data] (at
    3) holds the record of the field [users] (at 4); the arguments of the
    child field are the object at 5. *)
Definition parent_store : gmap positive Store.cell :=
  <[1%positive := Store.Obj [("id", Store.VNum 7);
                             (OPENAPI_TO_GRAPHQL, Store.VRef 2)]]>
  (<[2%positive := Store.Obj [("data", Store.VRef 3)]]>
  (<[3%positive := Store.Obj [("users", Store.VRef 4)]]>
  (<[4%positive := Store.Obj [("usedStatusCode", Store.VStr "200")]]>
  (<[5%positive := Store.Obj [("id", Store.VNum 7)]]> ∅)))).

(** The tree the parent result stands for. *)
Definition parent_tree : json :=
  JObj [("id", JNum 7);
        (OPENAPI_TO_GRAPHQL,
         JObj [("data", JObj [("users", JObj [("usedStatusCode", JStr "200")])])])].

(** The resolver of the child field [friend], run on the parent store. *)
Definition child_run : result Store.val * gmap positive Store.cell :=
  Store.run
    (StoreView.resolve Store.of_prim sample_text_of (fun _ _ _ => Ret None)
       (fun _ _ v => Ret v) store_transport
       (sample_params sample_operation [] None (sample_transport 200 None "{}"))
       "http://api" (Store.VRef 1) (Store.VRef 5) Store.VUndefined child_info)
    parent_store.

(** The parent store with a list result (at 6) of two objects (at 7 and
    8), as a response is built before the hidden record is attached. *)
Definition list_store : gmap positive Store.cell :=
  <[6%positive := Store.Arr [Store.VRef 7; Store.VRef 8] []]>
  (<[7%positive := Store.Obj [("name", Store.VStr "ann")]]>
  (<[8%positive := Store.Obj [("name", Store.VStr "bob")]]> parent_store)).

(** The list store with a second parent result (at 9) whose hidden field
    (at 10) holds the same map of records (at 3) as the first: two elements
    of one list. *)
Definition siblings_store : gmap positive Store.cell :=
  <[9%positive := Store.Obj [("id", Store.VNum 8);
                             (OPENAPI_TO_GRAPHQL, Store.VRef 10)]]>
  (<[10%positive := Store.Obj [("data", Store.VRef 3)]]> list_store).

(** *** More of the sample: other bodies, security *)

(** Collaborators as [toy], with a parser that knows two more bodies: an
    array that holds a number, and the empty array. *)
#[local] Instance lab : Collaborators := {|
  sanitize := @sanitize toy;
  resolveRef := @resolveRef toy;
  getBaseUrl := @getBaseUrl toy;
  desanitizeObjectKeys := @desanitizeObjectKeys toy;
  sanitizeObjectKeys := @sanitizeObjectKeys toy;
  JSONPath := @JSONPath toy;
  formurlencoded := @formurlencoded toy;
  JSON_parse := fun s =>
    if String.eqb s "[1,{}]" then Some (JArr [JNum 1; JObj []] [])
    else if String.eqb s "[]" then Some (JArr [] [])
    else @JSON_parse toy s;
  JSON_stringify := @JSON_stringify toy;
  base64 := @base64 toy;
  StringToNumber := @StringToNumber toy
|}.

(** [GET /motd], which answers with a plain text. *)
Definition text_operation : Operation := {|
  operationString := "GET /motd";
  path := "/motd";
  method := "get";
  parameters := [];
  payloadContentType := None;
  responseContentType := Some "text/plain";
  statusCode := "200";
  securityRequirements := [];
  oas := {| info_title := "Example"; document := JNull |}
|}.

(** [GET /me], which asks for one of two security schemes; the data know
    the scheme [key], an API key sent in a header. *)
Definition secured_operation : Operation := {|
  operationString := "GET /me";
  path := "/me";
  method := "get";
  parameters := [];
  payloadContentType := None;
  responseContentType := Some "application/json";
  statusCode := "200";
  securityRequirements := ["token"; "key"];
  oas := {| info_title := "Example"; document := JNull |}
|}.

Definition secured_data : PreprocessingData := {|
  options := sample_options;
  saneMap := [];
  security := [("key", {| def_type := "apiKey"; def_name := Some "X-API-KEY";
                          def_in := Some "header"; def_scheme := None |})]
|}.

(** The hidden field of a parent result that holds the API key. *)
Definition credentials : json :=
  JObj [("data", JObj []); ("security", JObj [("key", JObj [("apiKey", JStr "secret")])])].

(** Options with the path of the OAuth token in the context. *)
Definition oauth_data : PreprocessingData := {|
  options := {|
    simpleNames := false;
    customResolvers := fun _ _ _ => None;
    genericPayloadArgName := false;
    opt_headers := None;
    opt_qs := None;
    sendOAuthTokenInQuery := false;
    tokenJSONpath := Some "token";
    provideErrorExtensions := false;
    addLimitArgument := false
  |};
  saneMap := [];
  security := []
|}.

End Example.

(** * Properties *)

(** ** Results *)

Section ResultLemmas.
Context {A B : Type}.

Lemma bind_Ret (a : A) (k : A -> result B) : (Ret a ≫= k) = k a.
Proof. reflexivity. Qed.

Lemma bind_Ret_inv (m : result A) (k : A -> result B) (b : B) :
  (m ≫= k) = Ret b -> exists a, m = Ret a /\ k a = Ret b.
Proof. destruct m as [a| |]; simpl; intros E; try discriminate. eauto. Qed.

Lemma bind_Throw (m : result A) (k : A -> result B) (e : thrown) :
  m = Throw e -> (m ≫= k) = Throw e.
Proof. intros ->. reflexivity. Qed.

End ResultLemmas.

(** [bind_inv H as x E]: from [H : (m ≫= k) = Ret b], the value [x] of [m]
    with [E : m = Ret x], and [H : k x = Ret b]. *)
Ltac bind_inv H x E :=
  apply bind_Ret_inv in H; destruct H as (x & E & H); simpl in H.

(** ** Own properties *)

Section ObjLemmas.
Context {A : Type}.
Implicit Types (o : list (string * A)) (v : A).

Lemma obj_get_set_eq k v o : obj_get k (obj_set k v o) = Some v.
Proof.
  induction o as [|[k' v'] r IH]; simpl.
  - rewrite String.eqb_refl. reflexivity.
  - destruct (String.eqb k k') eqn:E; simpl; rewrite ?String.eqb_refl, ?E; auto.
Qed.

Lemma obj_get_set_ne k k' v o : k <> k' -> obj_get k' (obj_set k v o) = obj_get k' o.
Proof.
  intros Hne. induction o as [|[k0 v0] r IH]; simpl.
  - destruct (String.eqb k' k) eqn:E; auto.
    apply String.eqb_eq in E. congruence.
  - destruct (String.eqb k k0) eqn:E; simpl.
    + apply String.eqb_eq in E. subst k0.
      destruct (String.eqb k' k) eqn:E'; auto.
      apply String.eqb_eq in E'. congruence.
    + rewrite IH. reflexivity.
Qed.

Lemma obj_has_set_ne k k' v o : k <> k' -> obj_has k' (obj_set k v o) = obj_has k' o.
Proof. intros. unfold obj_has. rewrite obj_get_set_ne; auto. Qed.

Lemma obj_has_set_eq k v o : obj_has k (obj_set k v o) = true.
Proof. unfold obj_has. rewrite obj_get_set_eq. reflexivity. Qed.

End ObjLemmas.

Lemma obj_read_set_eq k v (o : obj) : obj_read k (obj_set k v o) = v.
Proof. unfold obj_read. rewrite obj_get_set_eq. reflexivity. Qed.

Lemma obj_read_set_ne k k' v (o : obj) :
  k <> k' -> obj_read k' (obj_set k v o) = obj_read k' o.
Proof. intros. unfold obj_read. rewrite obj_get_set_ne; auto. Qed.

(** ** Strings *)

Section StrLemmas.

Lemma prefix_empty s : String.prefix "" s = true.
Proof. destruct s; reflexivity. Qed.

(** Every string includes the empty string. *)
Lemma includes_empty s : Str.includes s "" = true.
Proof. unfold Str.includes. destruct s; simpl; reflexivity. Qed.

End StrLemmas.

(** ** The resolver after the dispatch *)

Section Dispatch.
Context `{Collaborators}.

Lemma resolve_after_dispatch p baseUrl source args context info prepared response :
  prepare p baseUrl source args context info = Ret prepared ->
  httpRequest p (prep_options prepared) context = Ret response ->
  resolve p baseUrl source args context info =
    handle_response p (prep_resolveData prepared) (prep_args prepared)
      source info response.
Proof. intros Hp Hr. unfold resolve. rewrite Hp. simpl. rewrite Hr. reflexivity. Qed.

Lemma status_out_of_range (n : Z) :
  n < 200 \/ n > 299 -> (n <? 200) || (n >? 299) = true.
Proof.
  intros [Hlt|Hgt]; apply orb_true_iff; [left|right].
  - apply Z.ltb_lt; assumption.
  - apply Z.gtb_lt. lia.
Qed.

Lemma status_in_range (n : Z) :
  200 <= n <= 299 -> (n <? 200) || (n >? 299) = false.
Proof.
  intros [Hlo Hhi]. apply orb_false_iff. split.
  - apply Z.ltb_ge; assumption.
  - rewrite Z.gtb_ltb. apply Z.ltb_ge. assumption.
Qed.

End Dispatch.

(** ** Response handling *)

(** C4.  When the transport answers with a status code outside [200, 299],
    the resolver throws.  With [provideErrorExtensions] the error is a
    [GraphQLError] whose extensions hold the operation's method and path,
    the status code received, the response headers and the response body,
    parsed as JSON when it parses and as received otherwise; without the
    option it is a plain [Error] with the generic message only. *)
Theorem request_failure_error `{Collaborators}
    p baseUrl source args context info prepared response :
  prepare p baseUrl source args context info = Ret prepared ->
  httpRequest p (prep_options prepared) context = Ret response ->
  resp_statusCode response < 200 \/ resp_statusCode response > 299 ->
  resolve p baseUrl source args context info =
    Throw
      (if provideErrorExtensions (options (data p))
       then GraphQLError (request_failed (operation p))
              [("method", JStr (method (operation p)));
               ("path", JStr (path (operation p)));
               ("statusCode", JNum (resp_statusCode response));
               ("responseHeaders", JObj (resp_headers response));
               ("responseBody",
                match JSON_parse (ToString (resp_body response)) with
                | Some parsed => parsed
                | None => resp_body response
                end)]
       else Error (request_failed (operation p))).
Proof.
  intros Hp Hr Hs.
  rewrite (resolve_after_dispatch _ _ _ _ _ _ _ _ Hp Hr).
  unfold handle_response.
  rewrite (status_out_of_range _ Hs).
  destruct (provideErrorExtensions (options (data p))); reflexivity.
Qed.

Lemma request_failure_error_witness :
  resolve (H:=Example.toy)
    (Example.sample_params Example.sample_operation [] None
       (Example.sample_transport 404 (Some "text/plain") "not found"))
    "http://api" JUndefined [("id", JNum 7)] JNull Example.root_info =
  Throw (GraphQLError "Could not invoke operation GET /users/{id}"
           [("method", JStr "get"); ("path", JStr "/users/{id}");
            ("statusCode", JNum 404);
            ("responseHeaders", JObj [("content-type", JStr "text/plain")]);
            ("responseBody", JStr "not found")]).
Proof.
  eapply eq_trans.
  - eapply (request_failure_error (H:=Example.toy));
      [reflexivity | reflexivity | right; reflexivity].
  - reflexivity.
Defined.

(** C6.  A 2xx response carries the content type [received]; the operation
    declares the response content type [declared].  When [received] does
    not include [declared] and [declared] does not include [received], the
    resolver throws the content-type error (the specification's
    ProtocolError); the body is neither parsed nor returned. *)
Theorem content_type_mismatch_error `{Collaborators}
    p baseUrl source args context info prepared response received declared :
  prepare p baseUrl source args context info = Ret prepared ->
  httpRequest p (prep_options prepared) context = Ret response ->
  200 <= resp_statusCode response <= 299 ->
  obj_get "content-type" (resp_headers response) = Some (JStr received) ->
  responseContentType (operation p) = Some declared ->
  Str.includes received declared = false ->
  Str.includes declared received = false ->
  resolve p baseUrl source args context info =
    Throw (Error ("Operation " ++ operationString (operation p)
                  ++ " should have a content-type '" ++ declared
                  ++ "' but has '" ++ received ++ "' instead")).
Proof.
  intros Hp Hr Hs Hct Hd Hrd Hdr.
  rewrite (resolve_after_dispatch _ _ _ _ _ _ _ _ Hp Hr).
  unfold handle_response.
  rewrite (status_in_range _ Hs).
  unfold obj_read. rewrite Hct.
  assert (Hne : truthy (JStr received) = true).
  { simpl. destruct (String.eqb received "") eqn:E; [|reflexivity].
    apply String.eqb_eq in E. subst received.
    rewrite includes_empty in Hdr. discriminate. }
  rewrite Hne.
  unfold content_type_matches, content_type_mismatch. rewrite Hd. simpl.
  rewrite Hrd. simpl. rewrite Hdr. reflexivity.
Qed.

Lemma content_type_mismatch_error_witness :
  resolve (H:=Example.toy)
    (Example.sample_params Example.sample_operation [] None
       (Example.sample_transport 200 (Some "text/plain") "hello"))
    "http://api" JUndefined [("id", JNum 7)] JNull Example.root_info =
  Throw (Error ("Operation GET /users/{id} should have a content-type "
                ++ "'application/json' but has 'text/plain' instead")).
Proof.
  eapply eq_trans.
  - eapply (content_type_mismatch_error (H:=Example.toy));
      [reflexivity | reflexivity | simpl; lia | reflexivity | reflexivity
      | reflexivity | reflexivity].
  - reflexivity.
Defined.

(** C7.  A 2xx response has no content-type header (the header reads as a
    falsy value).  Then the resolver returns [null] exactly when the
    operation declares no response content type, and throws the
    missing-content-type error (the specification's ProtocolError) when it
    declares one. *)
Theorem missing_content_type `{Collaborators}
    p baseUrl source args context info prepared response :
  prepare p baseUrl source args context info = Ret prepared ->
  httpRequest p (prep_options prepared) context = Ret response ->
  200 <= resp_statusCode response <= 299 ->
  truthy (obj_read "content-type" (resp_headers response)) = false ->
  (resolve p baseUrl source args context info = Ret JNull
     <-> responseContentType (operation p) = None)
  /\ (responseContentType (operation p) <> None ->
      resolve p baseUrl source args context info =
        Throw (Error "Response does not have a Content-Type header")).
Proof.
  intros Hp Hr Hs Hct.
  rewrite (resolve_after_dispatch _ _ _ _ _ _ _ _ Hp Hr).
  unfold handle_response.
  rewrite (status_in_range _ Hs), Hct.
  destruct (responseContentType (operation p)) as [d|]; split.
  - split; discriminate.
  - reflexivity.
  - split; reflexivity.
  - intros Hn. contradiction.
Qed.

Lemma missing_content_type_witness :
  (resolve (H:=Example.toy)
     (Example.sample_params Example.sample_operation_no_content [] None
        (Example.sample_transport 204 None ""))
     "http://api" JUndefined [("id", JNum 7)] JNull Example.root_info = Ret JNull
   <-> responseContentType Example.sample_operation_no_content = None)
  /\ (responseContentType Example.sample_operation_no_content <> None ->
      resolve (H:=Example.toy)
        (Example.sample_params Example.sample_operation_no_content [] None
           (Example.sample_transport 204 None ""))
        "http://api" JUndefined [("id", JNum 7)] JNull Example.root_info =
      Throw (Error "Response does not have a Content-Type header")).
Proof.
  eapply (missing_content_type (H:=Example.toy));
    [reflexivity | reflexivity | simpl; lia | reflexivity].
Defined.

(** ** What default filling and link resolution do to the arguments *)

Section Arguments.
Context `{Collaborators}.

(** A round of default filling leaves the arguments alone or sets the one
    argument of the parameter, which was undefined. *)
Lemma fill_default_keeps operation data args param args' k v :
  fill_default operation data args param = Ret args' ->
  obj_get k args = Some v -> is_undefined v = false ->
  obj_get k args' = Some v.
Proof.
  unfold fill_default. intros Hf Hk Hv.
  destruct (is_undefined (obj_read _ args)) eqn:Hu.
  2:{ inversion Hf; subst; assumption. }
  destruct (param_schema param) as [sr|].
  2:{ inversion Hf; subst; assumption. }
  bind_inv Hf schema Es.
  destruct schema as [s|].
  2:{ inversion Hf; subst; assumption. }
  destruct (truthy (schema_default s)).
  2:{ inversion Hf; subst; assumption. }
  inversion Hf; subst.
  destruct (string_dec (sanitize (param_name param) (caseStyle data)) k) as [Heq|Hne].
  - rewrite Heq in Hu. unfold obj_read in Hu. rewrite Hk in Hu. congruence.
  - rewrite obj_get_set_ne; assumption.
Qed.

Lemma fill_defaults_keeps operation data params args args' k v :
  fill_defaults operation data params args = Ret args' ->
  obj_get k args = Some v -> is_undefined v = false ->
  obj_get k args' = Some v.
Proof.
  revert args. induction params as [|param rest IH]; simpl; intros args Hf Hk Hv.
  - inversion Hf; subst; assumption.
  - bind_inv Hf args1 E1.
    eapply IH; eauto using fill_default_keeps.
Qed.

(** A round of link resolution sets the argument named after the link. *)
Lemma resolve_link_sets data resolveData source args link args' :
  resolve_link data resolveData source args link = Ret args' ->
  exists v, args' = obj_set (sanitize (fst link) (caseStyle data)) v args.
Proof.
  unfold resolve_link. intros Hl.
  destruct (negb (Str.has_brace (snd link))).
  - bind_inv Hl v Ev. inversion Hl. eauto.
  - destruct (Str.match_braces (snd link)) as [|m ms]; [discriminate|].
    bind_inv Hl v Ev. inversion Hl. eauto.
Qed.

Lemma resolve_links_keeps data resolveData source links args args' k :
  (forall link, In link links -> sanitize (fst link) (caseStyle data) <> k) ->
  resolve_links data resolveData source links args = Ret args' ->
  obj_get k args' = obj_get k args.
Proof.
  revert args. induction links as [|link rest IH]; simpl; intros args Hn Hl.
  - inversion Hl; reflexivity.
  - bind_inv Hl args1 E1.
    destruct (resolve_link_sets _ _ _ _ _ _ E1) as [v ->].
    rewrite (IH _ (fun l Hin => Hn l (or_intror Hin)) Hl).
    apply obj_get_set_ne. apply Hn. left; reflexivity.
Qed.

(** The arguments the resolver holds at the dispatch are the caller's after
    default filling and link resolution. *)
Lemma prepare_args p baseUrl source args context info prepared :
  prepare p baseUrl source args context info = Ret prepared ->
  exists args1 resolveData,
    fill_defaults (operation p) (data p) (parameters (operation p)) args = Ret args1
    /\ resolve_links (data p) resolveData source (argsFromLink p) args1
       = Ret (prep_args prepared).
Proof.
  unfold prepare. intros Hp.
  bind_inv Hp rd0 E0. bind_inv Hp rd1 E1.
  bind_inv Hp args1 Ea. bind_inv Hp args2 El.
  exists args1, rd1. split; [assumption|].
  rewrite El. f_equal.
  bind_inv Hp up Eu. bind_inv Hp up' Eu'. bind_inv Hp rd2 E2.
  destruct (extractRequestDataFromArgs _ _ _ _) as [[pth qs] hs].
  destruct (request_options _ _ _ _ _) as [[o oh] oq].
  bind_inv Hp rd3 E3. bind_inv Hp raw Er. bind_inv Hp x Ex. destruct x as [o' rd4].
  bind_inv Hp hid Eh. bind_inv Hp y Ey. destruct y as [oh1 oq1].
  bind_inv Hp z Ez. destruct z as [oh2 oq2].
  bind_inv Hp rd5 E5. bind_inv Hp rd6 E6.
  inversion Hp. reflexivity.
Qed.

End Arguments.

(** ** The auto-generated limit argument *)

Section Limit.
Context `{Collaborators}.

Lemma handle_json_response p resolveData args source info response responseBody :
  json_response (operation p) response responseBody ->
  handle_response p resolveData args source info response =
    (shape p resolveData source info response responseBody
       ≫= apply_limit (operation p) (data p) args).
Proof.
  intros (Hs & Ht & Hm & Hj & Hb).
  unfold handle_response.
  rewrite (status_in_range _ Hs), Ht, Hm. simpl.
  rewrite Hj. simpl. rewrite Hb. reflexivity.
Qed.

Lemma no_limit_parameter (params : list ParameterObject) :
  (forall param, In param params -> param_name param <> "limit") ->
  existsb (fun parameter => String.eqb (param_name parameter) "limit") params = false.
Proof.
  intros Hn. induction params as [|q r IH]; simpl; [reflexivity|].
  rewrite IH by (intros; apply Hn; right; assumption).
  destruct (String.eqb (param_name q) "limit") eqn:E; [|reflexivity].
  apply String.eqb_eq in E. exfalso. apply (Hn q); [left; reflexivity|assumption].
Qed.

(** With auto-pagination on, no declared [limit] parameter and an array
    result holding an object, the result is decided by the [limit]
    argument alone. *)
Lemma apply_limit_array operation data args elements ps :
  addLimitArgument (options data) = true ->
  (forall param, In param (parameters operation) -> param_name param <> "limit") ->
  existsb is_object elements = true ->
  apply_limit operation data args (JArr elements ps) =
    if obj_has "limit" args then
      match ToNumber (obj_read "limit" args) with
      | Some limit =>
          if limit >=? 0 then Ret (JArr (slice0 elements limit) [])
          else Throw limit_error_negative
      | None => Throw limit_error_negative
      end
    else Throw limit_error_missing.
Proof.
  intros Ha Hn He. unfold apply_limit.
  rewrite Ha, (no_limit_parameter _ Hn), He. reflexivity.
Qed.

End Limit.

(** C3.  Auto-pagination is enabled, the operation declares no parameter
    named [limit] (and no link supplies one), and the JSON response shapes
    to an array that holds at least one object.  If the caller supplied
    [limit = n] with [0 <= n], the resolver returns exactly the first [n]
    elements of the shaped array; if [n] is negative it throws the limit
    error (the specification's ValidationError) and returns nothing. *)
Theorem limit_truncates `{Collaborators}
    p baseUrl source args context info prepared response responseBody
    elements ps n :
  addLimitArgument (options (data p)) = true ->
  (forall param, In param (parameters (operation p)) -> param_name param <> "limit") ->
  (forall link, In link (argsFromLink p) ->
     sanitize (fst link) (caseStyle (data p)) <> "limit") ->
  obj_get "limit" args = Some (JNum n) ->
  prepare p baseUrl source args context info = Ret prepared ->
  httpRequest p (prep_options prepared) context = Ret response ->
  json_response (operation p) response responseBody ->
  shape p (prep_resolveData prepared) source info response responseBody
    = Ret (JArr elements ps) ->
  existsb is_object elements = true ->
  (0 <= n ->
   resolve p baseUrl source args context info
     = Ret (JArr (firstn (Z.to_nat n) elements) []))
  /\ (n < 0 ->
      resolve p baseUrl source args context info
        = Throw (Error "Auto-generated 'limit' argument must be greater than or equal to 0")).
Proof.
  intros Ha Hn Hl Hk Hp Hr Hj Hsh He.
  rewrite (resolve_after_dispatch _ _ _ _ _ _ _ _ Hp Hr).
  rewrite (handle_json_response _ _ _ _ _ _ _ Hj), Hsh. simpl.
  rewrite (apply_limit_array _ _ _ _ _ Ha Hn He).
  destruct (prepare_args _ _ _ _ _ _ _ Hp) as (args1 & rd & Hf & Hrl).
  assert (Hk' : obj_get "limit" (prep_args prepared) = Some (JNum n)).
  { rewrite (resolve_links_keeps _ _ _ _ _ _ _ Hl Hrl).
    eapply fill_defaults_keeps; eauto. }
  unfold obj_has, obj_read. rewrite Hk'. simpl.
  split; intros Hn0.
  - destruct (Z.geb_spec n 0) as [_|Hc]; [reflexivity|lia].
  - destruct (Z.geb_spec n 0) as [Hc|_]; [lia|reflexivity].
Qed.

Lemma limit_truncates_witness :
  exists kept,
    resolve (H:=Example.toy)
      (Example.sample_params Example.sample_operation [] None
         (Example.sample_transport 200 (Some "application/json") "[{},{},{},{},{}]"))
      "http://api" JUndefined [("id", JNum 7); ("limit", JNum 2)] JNull
      Example.root_info = Ret (JArr kept [])
    /\ length kept = 2%nat.
Proof.
  eexists. split.
  - eapply eq_trans.
    + refine (proj1 (limit_truncates (H:=Example.toy)
                (Example.sample_params Example.sample_operation [] None
                   (Example.sample_transport 200 (Some "application/json")
                      "[{},{},{},{},{}]"))
                "http://api" JUndefined [("id", JNum 7); ("limit", JNum 2)] JNull
                Example.root_info _ _ _ _ _ 2 _ _ _ _ _ _ _ _ _) _);
        [ reflexivity
        | intros param [<-|[<-|[<-|[]]]]; discriminate
        | intros link []
        | reflexivity
        | reflexivity
        | reflexivity
        | repeat split; try reflexivity; simpl; lia
        | reflexivity
        | reflexivity
        | lia ].
    + reflexivity.
  - reflexivity.
Defined.

(** C9.  Auto-pagination is enabled, the operation declares no parameter
    named [limit], the JSON response shapes to an array that holds at least
    one object, and the arguments hold no [limit] after default filling
    (the caller supplied none and no default filled one in; no link
    supplies one either).  Then the resolver throws the error "Cannot get
    value for auto-generated 'limit' argument" and does not return the
    array. *)
Theorem limit_missing `{Collaborators}
    p baseUrl source args args1 context info prepared response responseBody
    elements ps :
  addLimitArgument (options (data p)) = true ->
  (forall param, In param (parameters (operation p)) -> param_name param <> "limit") ->
  (forall link, In link (argsFromLink p) ->
     sanitize (fst link) (caseStyle (data p)) <> "limit") ->
  fill_defaults (operation p) (data p) (parameters (operation p)) args = Ret args1 ->
  obj_has "limit" args1 = false ->
  prepare p baseUrl source args context info = Ret prepared ->
  httpRequest p (prep_options prepared) context = Ret response ->
  json_response (operation p) response responseBody ->
  shape p (prep_resolveData prepared) source info response responseBody
    = Ret (JArr elements ps) ->
  existsb is_object elements = true ->
  resolve p baseUrl source args context info
    = Throw (Error "Cannot get value for auto-generated 'limit' argument").
Proof.
  intros Ha Hn Hl Hf Hk Hp Hr Hj Hsh He.
  rewrite (resolve_after_dispatch _ _ _ _ _ _ _ _ Hp Hr).
  rewrite (handle_json_response _ _ _ _ _ _ _ Hj), Hsh. simpl.
  rewrite (apply_limit_array _ _ _ _ _ Ha Hn He).
  destruct (prepare_args _ _ _ _ _ _ _ Hp) as (args1' & rd & Hf' & Hrl).
  rewrite Hf in Hf'. inversion Hf'; subst args1'.
  unfold obj_has in *.
  rewrite (resolve_links_keeps _ _ _ _ _ _ _ Hl Hrl).
  destruct (obj_get "limit" args1); [discriminate|reflexivity].
Qed.

Lemma limit_missing_witness :
  resolve (H:=Example.toy)
    (Example.sample_params Example.sample_operation [] None
       (Example.sample_transport 200 (Some "application/json") "[{},{},{},{},{}]"))
    "http://api" JUndefined [("id", JNum 7)] JNull Example.root_info
  = Throw (Error "Cannot get value for auto-generated 'limit' argument").
Proof.
  refine (limit_missing (H:=Example.toy)
            (Example.sample_params Example.sample_operation [] None
               (Example.sample_transport 200 (Some "application/json")
                  "[{},{},{},{},{}]"))
            "http://api" JUndefined [("id", JNum 7)] _ JNull
            Example.root_info _ _ _ _ _ _ _ _ _ _ _ _ _ _ _);
    [ reflexivity
    | intros param [<-|[<-|[<-|[]]]]; discriminate
    | intros link []
    | reflexivity
    | reflexivity
    | reflexivity
    | reflexivity
    | repeat split; try reflexivity; simpl; lia
    | reflexivity
    | reflexivity ].
Defined.

(** ** Where the code departs from the specification *)

(** C1 (the code departs from the claim).  The claim fixes [accept] to the
    declared response content type and, for an operation that is not a
    GET, [content-type] to the declared payload content type, whatever
    [requestOptions] or the static option headers hold.  The code merges
    [requestOptions.headers] and [data.options.headers] over the two
    headers it has just fixed: a GET operation declaring
    [application/json] is dispatched with the [accept] of
    [requestOptions], and a POST operation declaring an
    [application/json] payload with the [content-type] of the option
    headers. *)
Theorem fixed_headers_overridden :
  (responseContentType Example.sample_operation = Some "application/json"
   /\ dispatched_header "accept"
        (prepare (H:=Example.toy)
           (Example.sample_params Example.sample_operation []
              (Some [("headers", JObj [("accept", JStr "text/plain")])])
              (Example.sample_transport 200 None ""))
           "http://api" JUndefined [("id", JNum 7)] JNull Example.root_info)
      = Some (JStr "text/plain"))
  /\ (payloadContentType Example.sample_post_operation = Some "application/json"
      /\ method Example.sample_post_operation <> HTTP_METHODS_get
      /\ dispatched_header "content-type"
           (prepare (H:=Example.toy)
              (Example.static_headers_params (Example.sample_transport 200 None ""))
              "http://api" JUndefined [] JNull Example.root_info)
         = Some (JStr "text/plain")).
Proof.
  repeat split; try reflexivity. discriminate.
Qed.

(** C2 (the code departs from the claim).  The claim has every declared
    default injected for an absent argument, the falsy ones included.  The
    code tests [schema.default] for truth before it assigns: for a
    parameter whose schema declares the default [0], [false] or the empty
    string, default filling returns the arguments as they were, whatever
    they are. *)
Theorem falsy_default_not_injected `{Collaborators}
    (operation : Operation) (data : PreprocessingData) (args : obj)
    (name location : string) :
  Forall
    (fun d =>
       fill_default operation data args
         {| param_name := name; param_in := location;
            param_schema := Some (Schema {| schema_default := d |}) |}
       = Ret args)
    [JNum 0; JBool false; JStr ""].
Proof.
  repeat constructor; unfold fill_default; simpl;
    destruct (is_undefined _); reflexivity.
Qed.

(** The same on the sample operation: [page], whose default is 0, is
    neither in the arguments nor in the query string of the request, while
    [size], whose default is 10, is in both. *)
Example falsy_default_end_to_end :
  match prepare (H:=Example.toy)
          (Example.sample_params Example.sample_operation [] None
             (Example.sample_transport 200 None ""))
          "http://api" JUndefined [("id", JNum 7)] JNull Example.root_info with
  | Ret pr =>
      prep_args pr = [("id", JNum 7); ("size", JNum 10)]
      /\ obj_get "qs" (prep_options pr) = Some (JObj [("size", JNum 10)])
  | _ => False
  end.
Proof. split; reflexivity. Qed.

(** The expression [$response.body#/id] is looked up by JSONPath, at the
    path [id], in the parent result. *)
Lemma response_pointer_id `{Collaborators} paramName resolveData root args :
  resolveRuntimeExpression paramName "$response.body#/id" resolveData root args
  = (JSONPath (Some "id") root ≫= fun tokens =>
       match first_token tokens with
       | Some t => Ret t
       | None => Throw (invalid_expression "$response.body#/id")
       end).
Proof. reflexivity. Qed.

(** C5 (the code departs from the claim on its second part).  The claim
    has each braced expression replaced by its value.  The code calls
    [value.replace(linkParam, v)], and [replace] expands the dollar
    patterns of a replacement text: when the parent result holds the text
    [$&] at [/id], the link value [user_{$response.body#/id}] resolves to
    itself, not to [user_$&]. *)
Theorem braced_value_expands_dollar `{Collaborators}
    data resolveData source args paramName :
  JSONPath (Some "id") source = Ret (Some [JStr "$&"]) ->
  resolve_link data resolveData source args (paramName, "user_{$response.body#/id}")
  = Ret (obj_set (sanitize paramName (caseStyle data))
           (JStr "user_{$response.body#/id}") args).
Proof.
  intros Hj. unfold resolve_link, fst, snd.
  change (negb (Str.has_brace "user_{$response.body#/id}")) with false. cbv iota.
  change (Str.match_braces "user_{$response.body#/id}") with ["{$response.body#/id}"].
  cbv iota. unfold replace_linkParams.
  change (Str.strip_ends "{$response.body#/id}") with "$response.body#/id".
  rewrite response_pointer_id, Hj. reflexivity.
Qed.

Lemma braced_value_expands_dollar_witness :
  resolve_link (H:=Example.toy) Example.sample_data (JObj [])
    (JObj [("id", JStr "$&")]) [] ("id", "user_{$response.body#/id}")
  = Ret [("id", JStr "user_{$response.body#/id}")].
Proof.
  exact (braced_value_expands_dollar (H:=Example.toy) Example.sample_data (JObj [])
           (JObj [("id", JStr "$&")]) [] "id" eq_refl).
Defined.

(** ** Trees *)

(** Induction on a tree, with the property for the children of an object
    or an array. *)
Lemma json_tree_ind (P : json -> Prop) :
  P JUndefined -> P JNull -> (forall b, P (JBool b)) -> (forall n, P (JNum n)) ->
  (forall s, P (JStr s)) ->
  (forall es ps, Forall P es -> Forall (fun kv => P (snd kv)) ps -> P (JArr es ps)) ->
  (forall ps, Forall (fun kv => P (snd kv)) ps -> P (JObj ps)) ->
  forall t, P t.
Proof.
  intros Hu Hn Hb Hz Hs Ha Ho.
  fix IH 1. intros [| |b|n|s|es ps|ps].
  - exact Hu.
  - exact Hn.
  - apply Hb.
  - apply Hz.
  - apply Hs.
  - apply Ha.
    + induction es as [|x r IHr]; constructor; [apply IH|exact IHr].
    + induction ps as [|[k x] r IHr]; constructor; [apply IH|exact IHr].
  - apply Ho.
    induction ps as [|[k x] r IHr]; constructor; [apply IH|exact IHr].
Qed.

(** ** The store *)

Section StoreLemmas.
Import Store Frame.
Implicit Types (h base : store) (W : gset loc) (l : loc) (c : cell) (v : val).

Lemma run_bind {A B} (m : M A) (k : A -> M B) h :
  run (m ≫= k) h =
    match run m h with
    | (Ret a, h1) => run (k a) h1
    | (Throw e, h1) => (Throw e, h1)
    | (Unmodelled w, h1) => (Unmodelled w, h1)
    end.
Proof. reflexivity. Qed.

Lemma runR_bind {A B} (m : R A) (k : A -> R B) h :
  runR (m ≫= k) h =
    match runR m h with
    | Ret a => runR (k a) h
    | Throw e => Throw e
    | Unmodelled w => Unmodelled w
    end.
Proof. reflexivity. Qed.

Lemma frame_refl W h : frame W h h.
Proof. intros l c Hl. split; [rewrite Hl; eauto|auto]. Qed.

Lemma frame_write W base h l c :
  frame W base h -> base !! l = None \/ l ∈ W -> frame W base (<[l:=c]> h).
Proof.
  intros Hf Hl l' c' Hb. destruct (Hf l' c' Hb) as [Hs Hu].
  destruct (decide (l = l')) as [->|Hne].
  - rewrite lookup_insert_eq. split; [eauto|].
    intros Hn. destruct Hl as [Hl|Hl]; [congruence|contradiction].
  - rewrite lookup_insert_ne by assumption. auto.
Qed.

Lemma frame_fresh W base h : frame W base h -> base !! fresh (dom h) = None.
Proof.
  intros Hf. destruct (base !! fresh (dom h)) as [c|] eqn:E; [|reflexivity].
  destruct (Hf _ _ E) as [Hs _]. apply elem_of_dom in Hs.
  exfalso. exact (is_fresh (dom h) Hs).
Qed.

Lemma frame_trans W base h h' : frame W base h -> frame W h h' -> frame W base h'.
Proof.
  intros H1 H2 l c Hb. destruct (H1 l c Hb) as [[c1 Hs] Hu]. split.
  - exact (proj1 (H2 l c1 Hs)).
  - intros Hn. apply (H2 l c (Hu Hn)). assumption.
Qed.

Lemma fresh_lookup h : h !! fresh (dom h) = None.
Proof. apply not_elem_of_dom. apply is_fresh. Qed.

(** *** The primitive computations *)

Lemma set_prop_run t k v h r h' :
  run (set_prop t k v) h = (r, h') ->
  (exists l c c', t = VRef l /\ h !! l = Some c /\ cell_write k v c = Some c'
                  /\ r = Ret tt /\ h' = <[l:=c']> h)
  \/ (h' = h /\ forall a, r <> Ret a).
Proof.
  unfold set_prop; simpl. intros E.
  destruct t; try (inversion E; subst; right; split; [reflexivity|discriminate]).
  destruct (h !! l) as [c|] eqn:El.
  2:{ inversion E; subst; right; split; [reflexivity|discriminate]. }
  destruct (cell_write k v c) as [c'|] eqn:Ew.
  2:{ inversion E; subst; right; split; [reflexivity|discriminate]. }
  inversion E; subst. left. eauto 10.
Qed.

Lemma set_prop_frame W base t k v h r h' :
  run (set_prop t k v) h = (r, h') ->
  frame W base h -> writable W base t -> frame W base h'.
Proof.
  intros E Hf Hw.
  destruct (set_prop_run _ _ _ _ _ _ E) as [(l & c & c' & -> & _ & _ & _ & ->)|[-> _]].
  - apply frame_write; auto.
  - assumption.
Qed.

(** A write to one object leaves the others alone. *)
Lemma set_prop_other t k v h r h' l :
  run (set_prop t k v) h = (r, h') -> t <> VRef l -> h' !! l = h !! l.
Proof.
  intros E Hne.
  destruct (set_prop_run _ _ _ _ _ _ E) as [(l0 & c & c' & -> & _ & _ & _ & ->)|[-> _]].
  - apply lookup_insert_ne. congruence.
  - reflexivity.
Qed.

Lemma set_prop_dom t k v h r h' l :
  run (set_prop t k v) h = (r, h') -> is_Some (h !! l) -> is_Some (h' !! l).
Proof.
  intros E Hs.
  destruct (set_prop_run _ _ _ _ _ _ E) as [(l0 & c & c' & -> & _ & _ & _ & ->)|[-> _]].
  - destruct (decide (l0 = l)) as [->|Hne].
    + rewrite lookup_insert_eq. eauto.
    + rewrite lookup_insert_ne; assumption.
  - assumption.
Qed.

Lemma set_props_cons t k v ps :
  set_props t ((k, v) :: ps) = (set_prop t k v ;; set_props t ps).
Proof. reflexivity. Qed.

Lemma set_props_frame W base t ps h r h' :
  run (set_props t ps) h = (r, h') ->
  frame W base h -> writable W base t -> frame W base h'.
Proof.
  revert h. induction ps as [|[k v] rest IH]; intros h E Hf Hw.
  - inversion E; subst. assumption.
  - rewrite set_props_cons, run_bind in E.
    destruct (run (set_prop t k v) h) as [[[]|e|w] h1] eqn:E1.
    + eapply IH; eauto using set_prop_frame.
    + inversion E; subst. eauto using set_prop_frame.
    + inversion E; subst. eauto using set_prop_frame.
Qed.

Lemma set_props_other t ps h r h' l :
  run (set_props t ps) h = (r, h') -> t <> VRef l -> h' !! l = h !! l.
Proof.
  revert h. induction ps as [|[k v] rest IH]; intros h E Hne.
  - inversion E; subst. reflexivity.
  - rewrite set_props_cons, run_bind in E.
    destruct (run (set_prop t k v) h) as [[[]|e|w] h1] eqn:E1.
    + rewrite (IH _ E Hne). eauto using set_prop_other.
    + inversion E; subst. eauto using set_prop_other.
    + inversion E; subst. eauto using set_prop_other.
Qed.

Lemma set_props_dom t ps h r h' l :
  run (set_props t ps) h = (r, h') -> is_Some (h !! l) -> is_Some (h' !! l).
Proof.
  revert h. induction ps as [|[k v] rest IH]; intros h E Hs.
  - inversion E; subst. assumption.
  - rewrite set_props_cons, run_bind in E.
    destruct (run (set_prop t k v) h) as [[[]|e|w] h1] eqn:E1.
    + eapply IH; eauto using set_prop_dom.
    + inversion E; subst. eauto using set_prop_dom.
    + inversion E; subst. eauto using set_prop_dom.
Qed.

Lemma run_read {A} (r : R A) h : run (read r) h = (runR r h, h).
Proof. reflexivity. Qed.

Lemma run_lift {A} (r : result A) h : run (lift r) h = (r, h).
Proof. reflexivity. Qed.

Lemma run_alloc c h :
  run (alloc c) h = (Ret (VRef (fresh (dom h))), <[fresh (dom h):=c]> h).
Proof. reflexivity. Qed.

Lemma assign_frame W base target src h r h' :
  run (assign target src) h = (r, h') ->
  frame W base h -> writable W base target -> frame W base h'.
Proof.
  unfold assign. intros E Hf Hw.
  destruct target; try (inversion E; subst; assumption).
  rewrite run_bind, run_read in E.
  destruct (runR (own_props src) h) as [ps|e|w]; try (inversion E; subst; assumption).
  rewrite run_bind in E.
  destruct (run (set_props (VRef l) ps) h) as [[[]|e|w] h1] eqn:E1;
    inversion E; subst; eauto using set_props_frame.
Qed.

Lemma assign_stmt_frame W base target src h r h' :
  run (assign_stmt target src) h = (r, h') ->
  frame W base h -> writable W base target -> frame W base h'.
Proof.
  unfold assign_stmt. intros E Hf Hw.
  destruct target; try (inversion E; subst; assumption).
  rewrite run_bind, run_read in E.
  destruct (runR (own_props src) h) as [ps|e|w]; try (inversion E; subst; assumption).
  eauto using set_props_frame.
Qed.

(** [Object.assign] returns its target. *)
Lemma assign_returns target src h a h' :
  run (assign target src) h = (Ret a, h') -> a = target.
Proof.
  unfold assign. intros E.
  destruct target; try discriminate.
  rewrite run_bind, run_read in E.
  destruct (runR (own_props src) h) as [ps|e|w]; try discriminate.
  rewrite run_bind in E.
  destruct (run (set_props (VRef l) ps) h) as [[[]|e|w] h1] eqn:E1;
    inversion E; reflexivity.
Qed.

Lemma assign_other target src h r h' l :
  run (assign target src) h = (r, h') -> target <> VRef l -> h' !! l = h !! l.
Proof.
  unfold assign. intros E Hne.
  destruct target; try (inversion E; subst; reflexivity).
  rewrite run_bind, run_read in E.
  destruct (runR (own_props src) h) as [ps|e|w]; try (inversion E; subst; reflexivity).
  rewrite run_bind in E.
  destruct (run (set_props (VRef l0) ps) h) as [[[]|e|w] h1] eqn:E1;
    inversion E; subst; eauto using set_props_other.
Qed.

End StoreLemmas.

(** ** Trees built in the store *)

Section Built.
Import Store Frame.
Implicit Types (h : store) (l : loc) (c : cell) (v : val).

Lemma subseteq_None h h' l : h ⊆ h' -> h' !! l = None -> h !! l = None.
Proof.
  intros Hs Hn. destruct (h !! l) as [c|] eqn:E; [|reflexivity].
  rewrite (lookup_weaken _ _ _ _ E Hs) in Hn. discriminate.
Qed.

Lemma subseteq_is_Some h h' l : h ⊆ h' -> is_Some (h !! l) -> is_Some (h' !! l).
Proof. intros Hs [c E]. exists c. exact (lookup_weaken _ _ _ _ E Hs). Qed.

Lemma built_nil h : built h h [].
Proof.
  split; [reflexivity|]. split.
  - intros v l [].
  - intros l c Hn Hs. congruence.
Qed.

(** One tree, then more trees. *)
Lemma built_cons h h1 h2 v vs :
  built h h1 [v] -> built h1 h2 vs -> built h h2 (v :: vs).
Proof.
  intros (S1 & V1 & C1) (S2 & V2 & C2). split; [etrans; eassumption|]. split.
  - intros v0 l [<-|Hin] ->.
    + destruct (V1 (VRef l) l (or_introl eq_refl) eq_refl) as [Hn Hs].
      eauto using subseteq_is_Some.
    + destruct (V2 (VRef l) l Hin eq_refl) as [Hn Hs].
      eauto using subseteq_None.
  - intros l c Hn Hc v0 l' Hin ->.
    destruct (h1 !! l) as [c1|] eqn:E1.
    + rewrite (lookup_weaken _ _ _ _ E1 S2) in Hc. inversion Hc; subst c1.
      destruct (C1 l c Hn E1 _ l' Hin eq_refl) as [Hn' Hs'].
      eauto using subseteq_is_Some.
    + destruct (C2 l c E1 Hc _ l' Hin eq_refl) as [Hn' Hs'].
      eauto using subseteq_None.
Qed.

Lemma built_app h h1 h2 vs ws :
  built h h1 vs -> built h1 h2 ws -> built h h2 (vs ++ ws)%list.
Proof.
  intros (S1 & V1 & C1) (S2 & V2 & C2). split; [etrans; eassumption|]. split.
  - intros v0 l Hin ->. apply in_app_or in Hin. destruct Hin as [Hin|Hin].
    + destruct (V1 (VRef l) l Hin eq_refl) as [Hn Hs].
      eauto using subseteq_is_Some.
    + destruct (V2 (VRef l) l Hin eq_refl) as [Hn Hs].
      eauto using subseteq_None.
  - intros l c Hn Hc v0 l' Hin ->.
    destruct (h1 !! l) as [c1|] eqn:E1.
    + rewrite (lookup_weaken _ _ _ _ E1 S2) in Hc. inversion Hc; subst c1.
      destruct (C1 l c Hn E1 _ l' Hin eq_refl) as [Hn' Hs'].
      eauto using subseteq_is_Some.
    + destruct (C2 l c E1 Hc _ l' Hin eq_refl) as [Hn' Hs'].
      eauto using subseteq_None.
Qed.

(** A new object holding values that were built. *)
Lemma built_object h h1 c :
  built h h1 (cell_vals c) ->
  built h (<[fresh (dom h1):=c]> h1) [VRef (fresh (dom h1))].
Proof.
  intros (S1 & V1 & C1).
  pose proof (fresh_lookup h1) as Hfresh.
  assert (S2 : h1 ⊆ <[fresh (dom h1):=c]> h1) by (apply insert_subseteq; assumption).
  split; [etrans; eassumption|]. split.
  - intros v l [<-|[]] E. inversion E; subst l. split.
    + eauto using subseteq_None.
    + rewrite lookup_insert_eq. eauto.
  - intros l c0 Hn Hc v l' Hin ->.
    destruct (decide (fresh (dom h1) = l)) as [<-|Hne].
    + rewrite lookup_insert_eq in Hc. inversion Hc; subst c0.
      destruct (V1 _ l' Hin eq_refl) as [Hn' Hs'].
      eauto using subseteq_is_Some.
    + rewrite lookup_insert_ne in Hc by assumption.
      destruct (C1 l c0 Hn Hc _ l' Hin eq_refl) as [Hn' Hs'].
      eauto using subseteq_is_Some.
Qed.

Lemma built_prim h t :
  match t with JObj _ | JArr _ _ => False | _ => True end ->
  built h h [of_prim t].
Proof.
  intros Ht. split; [reflexivity|]. split.
  - intros v l [<-|[]] E. destruct t; simpl in E; try discriminate; contradiction.
  - intros l c Hn Hs. congruence.
Qed.

Lemma alloc_list_built (f : json -> store -> val * store) es :
  Forall (fun t => forall h, built h (f t h).2 [(f t h).1]) es ->
  forall h, built h (alloc_list f es h).2 (alloc_list f es h).1.
Proof.
  induction 1 as [|t r Ht Hr IH]; intros h; simpl.
  - apply built_nil.
  - specialize (Ht h). destruct (f t h) as [v h1]. simpl in Ht.
    specialize (IH h1). destruct (alloc_list f r h1) as [vs h2]. simpl in *.
    eapply built_cons; eassumption.
Qed.

Lemma alloc_props_built (f : json -> store -> val * store) o :
  Forall (fun kv => forall h, built h (f (snd kv) h).2 [(f (snd kv) h).1]) o ->
  forall h, built h (alloc_props f o h).2 (map snd (alloc_props f o h).1).
Proof.
  induction 1 as [|[k t] r Ht Hr IH]; intros h; simpl.
  - apply built_nil.
  - simpl in Ht. specialize (Ht h). destruct (f t h) as [v h1]. simpl in Ht.
    specialize (IH h1). destruct (alloc_props f r h1) as [ps h2]. simpl in *.
    eapply built_cons; eassumption.
Qed.

(** A tree is built of new objects only. *)
Lemma alloc_tree_built t :
  forall h, built h (alloc_tree t h).2 [(alloc_tree t h).1].
Proof.
  induction t as [| |b|n|s|es ps IHe IHp|ps IHp] using json_tree_ind; intros h;
    try (apply built_prim; exact I).
  - simpl.
    pose proof (alloc_list_built alloc_tree es IHe h) as He.
    destruct (alloc_list alloc_tree es h) as [vs h1]. simpl in He.
    pose proof (alloc_props_built alloc_tree ps IHp h1) as Hp.
    destruct (alloc_props alloc_tree ps h1) as [qs h2]. simpl in Hp. simpl.
    apply (built_object h h2 (Arr vs qs)). simpl.
    eapply built_app; eassumption.
  - simpl.
    pose proof (alloc_props_built alloc_tree ps IHp h) as Hp.
    destruct (alloc_props alloc_tree ps h) as [qs h1]. simpl in Hp. simpl.
    apply (built_object h h1 (Obj qs)). simpl. assumption.
Qed.

Lemma built_frame W base h h' vs :
  built h h' vs -> frame W base h -> frame W base h'.
Proof.
  intros (S1 & _ & _) Hf l c Hb. destruct (Hf l c Hb) as [[c1 Hs] Hu]. split.
  - exists c1. exact (lookup_weaken _ _ _ _ Hs S1).
  - intros Hn. exact (lookup_weaken _ _ _ _ (Hu Hn) S1).
Qed.

(** What was built names no object of an earlier store either. *)
Lemma built_newv base W h h' v :
  built h h' [v] -> frame W base h -> newv base v.
Proof.
  intros (_ & V1 & _) Hf l ->.
  destruct (V1 (VRef l) l (or_introl eq_refl) eq_refl) as [Hn _].
  destruct (base !! l) as [c|] eqn:E; [|reflexivity].
  destruct (Hf l c E) as [[c1 Hs] _]. congruence.
Qed.

End Built.

(** ** One object *)

Section Cells.
Import Store Frame.
Implicit Types (c : cell) (v : val) (k : string).

Lemma named_hidden : named OPENAPI_TO_GRAPHQL.
Proof. split; [reflexivity|discriminate]. Qed.

Lemma named_data : named "data".
Proof. split; [reflexivity|discriminate]. Qed.

Lemma named_usedParams : named "usedParams".
Proof. split; [reflexivity|discriminate]. Qed.

Lemma read_props_set_eq k v (ps : props) : read_props k (obj_set k v ps) = v.
Proof. unfold read_props. rewrite obj_get_set_eq. reflexivity. Qed.

Lemma read_props_set_ne k k' v (ps : props) :
  k <> k' -> read_props k' (obj_set k v ps) = read_props k' ps.
Proof. intros. unfold read_props. rewrite obj_get_set_ne; auto. Qed.

Lemma cell_read_named k es ps :
  named k -> cell_read k (Arr es ps) = read_props k ps.
Proof.
  intros [Hi Hl]. simpl.
  destruct (String.eqb k "length") eqn:E.
  - apply String.eqb_eq in E. contradiction.
  - rewrite Hi. reflexivity.
Qed.

(** What was written under a named key is read back. *)
Lemma cell_read_write_eq k v c c' :
  named k -> cell_write k v c = Some c' -> cell_read k c' = v.
Proof.
  intros Hk Hw. destruct c as [ps|es ps]; simpl in Hw.
  - inversion Hw; subst. simpl. apply read_props_set_eq.
  - destruct Hk as [Hi Hl].
    destruct (String.eqb k "length") eqn:E; [discriminate|].
    rewrite Hi in Hw. inversion Hw; subst.
    rewrite cell_read_named by (split; assumption). apply read_props_set_eq.
Qed.

(** A write under another key does not change what a named key reads. *)
Lemma cell_read_write_ne k k' v c c' :
  named k' -> k <> k' -> cell_write k v c = Some c' ->
  cell_read k' c' = cell_read k' c.
Proof.
  intros Hk Hne Hw. destruct c as [ps|es ps]; simpl in Hw.
  - inversion Hw; subst. simpl. apply read_props_set_ne. assumption.
  - destruct (String.eqb k "length") eqn:E; [discriminate|].
    destruct (array_index k) as [i|].
    + destruct (bool_decide (i < length es)%nat); inversion Hw; subst;
        rewrite !cell_read_named by assumption; reflexivity.
    + inversion Hw; subst. rewrite !cell_read_named by assumption.
      apply read_props_set_ne. assumption.
Qed.

Lemma obj_get_In {A} k (o : list (string * A)) a : obj_get k o = Some a -> In (k, a) o.
Proof.
  induction o as [|[k' a'] r IH]; simpl; [discriminate|].
  destruct (String.eqb k k') eqn:E.
  - apply String.eqb_eq in E. intros Hs. inversion Hs; subst. left; reflexivity.
  - intros Hs. right. auto.
Qed.

(** A reference read from an object is one of its values. *)
Lemma cell_read_in_vals k c l : cell_read k c = VRef l -> In (VRef l) (cell_vals c).
Proof.
  assert (Hp : forall ps : props, read_props k ps = VRef l -> In (VRef l) (map snd ps)).
  { intros ps. unfold read_props. destruct (obj_get k ps) as [v|] eqn:E; [|discriminate].
    intros ->. apply obj_get_In in E. apply (in_map snd) in E. exact E. }
  destruct c as [ps|es ps]; simpl.
  - apply Hp.
  - destruct (String.eqb k "length"); [discriminate|].
    destruct (array_index k) as [i|].
    + intros Hn. apply in_or_app. left.
      destruct (Nat.lt_ge_cases i (length es)) as [Hlt|Hge].
      * rewrite <- Hn. apply nth_In. assumption.
      * rewrite nth_overflow in Hn by assumption. discriminate.
    + intros Hr. apply in_or_app. right. auto.
Qed.

End Cells.

(** ** The statements of the resolver, one by one *)

(** [mstep E a h1 E1]: [E] is about the run of a sequence; the run of its
    first computation becomes [E1], with its value [a] and store [h1]. *)
Tactic Notation "mstep" hyp(E) "as" ident(a) ident(h1) ident(E1) :=
  rewrite run_bind in E;
  match type of E with
  | (match Store.run ?m ?h with _ => _ end) = _ =>
      destruct (Store.run m h) as [[a|?|?] h1] eqn:E1
  end.

(** The run ended where it is: the result and the store are known. *)
Ltac mstop E := inversion E; subst; clear E.

(** The next statement reads the store. *)
Tactic Notation "rstep" hyp(E) "as" ident(a) ident(Ea) :=
  rewrite run_bind, run_read in E;
  match type of E with
  | context [Store.runR ?m ?h] => destruct (Store.runR m h) as [a|?e|?w] eqn:Ea
  end.

Section Statements.
Import Store Frame StoreView.
Context `{Collaborators}.
Variable static_value : json -> val.
Variable text_of : store -> val -> string.
Variable JSONPath_in : option string -> store -> val -> result (option (list val)).
Variable encode_payload : store -> bool -> val -> result val.
Variable httpRequest_in : store -> val -> val -> result Response.
Implicit Types (h base : store) (W : gset loc) (l : loc) (c : cell) (v : val).

Lemma JSON_clone_run v h r h' :
  run (JSON_clone v) h = (r, h') ->
  (exists a, r = Ret a /\ built h h' [a]) \/ (h' = h /\ forall a, r <> Ret a).
Proof.
  unfold JSON_clone, run. intros E.
  assert (Hs : forall t,
    (let '(v', h1) := alloc_tree (clone_value t) h in (Ret v', h1)) = (r, h') ->
    exists a, r = Ret a /\ built h h' [a]).
  { intros t Et. pose proof (alloc_tree_built (clone_value t) h) as Hb.
    destruct (alloc_tree (clone_value t) h) as [v' h1]. inversion Et; subst. eauto. }
  destruct v;
    [ inversion E; subst; right; (split; [reflexivity|intros ?; discriminate])
    | destruct (snapshot (S (size h)) h _) as [t|];
      [ left; eauto
      | inversion E; subst; right; (split; [reflexivity|intros ?; discriminate]) ] .. ].
Qed.

Lemma JSON_clone_frame W base v h r h' :
  run (JSON_clone v) h = (r, h') -> frame W base h -> frame W base h'.
Proof.
  intros E Hf. destruct (JSON_clone_run _ _ _ _ E) as [(a & _ & Hb)|[-> _]].
  - eauto using built_frame.
  - assumption.
Qed.

Lemma new_tree_run t h r h' :
  run (new_tree t) h = (r, h') -> exists a, r = Ret a /\ built h h' [a].
Proof.
  unfold new_tree. simpl. intros E.
  pose proof (alloc_tree_built t h) as Hb.
  destruct (alloc_tree t h) as [v h1]. inversion E; subst. eauto.
Qed.

Lemma alloc_empty_built h :
  built h (<[fresh (dom h):=Obj []]> h) [VRef (fresh (dom h))].
Proof. apply (built_object h h (Obj [])). apply built_nil. Qed.

(** Every case of a runtime expression reads; [$response.body] builds a
    copy and writes to the copy. *)
Lemma resolveRuntimeExpression_frame W base paramName value resolveData root h r h' :
  run (resolveRuntimeExpression JSONPath_in paramName value resolveData root) h = (r, h') ->
  frame W base h -> frame W base h'.
Proof.
  unfold resolveRuntimeExpression. intros E Hf.
  repeat match type of E with
         | context [if ?b then _ else _] => destruct b
         end;
    try (rewrite run_read in E; mstop E; assumption);
    try (rewrite run_lift in E; mstop E; assumption).
  mstep E as res h1 E1; [|mstop E; eauto using JSON_clone_frame..].
  destruct (JSON_clone_run _ _ _ _ E1) as [(a & Ha & Hb)|[_ Hn]];
    [inversion Ha; subst a|exfalso; eapply Hn; reflexivity].
  mstep E as u h2 E2; mstop E;
    (eapply set_prop_frame; [eassumption|eauto using built_frame|]);
    intros l ->; left; eapply (built_newv base W); eauto.
Qed.

(** *** Recovery *)

Lemma recover_run source info h r h' :
  run (recover source info) h = (r, h') ->
  (exists a, r = Ret a /\ built h h' [a]) \/ (h' = h /\ forall a, r <> Ret a).
Proof.
  unfold recover. intros E.
  assert (Ha : forall r h', run (alloc (Obj [])) h = (r, h') ->
            (exists a, r = Ret a /\ built h h' [a]) \/ (h' = h /\ forall a, r <> Ret a)).
  { intros r0 h0 E0. rewrite run_alloc in E0. inversion E0; subst.
    left. eauto using alloc_empty_built. }
  assert (Hstop : forall (e : result val), (forall a, e <> Ret a) ->
            (exists a, e = Ret a /\ built h h [a]) \/ (h = h /\ forall a, e <> Ret a)).
  { intros e He. right. auto. }
  rewrite run_bind, run_read in E.
  destruct (runR (has_hidden source) h) as [[|]|e|w]; [|auto|mstop E; apply Hstop; intros ?; discriminate..].
  rewrite run_bind, run_read in E.
  destruct (runR (get_prop source OPENAPI_TO_GRAPHQL) h) as [hidden|e|w];
    [|mstop E; apply Hstop; intros ?; discriminate..].
  rewrite run_bind, run_read in E.
  destruct (runR (get_prop hidden "data") h) as [d|e|w];
    [|mstop E; apply Hstop; intros ?; discriminate..].
  destruct (is_object d); [|auto].
  rewrite run_bind, run_lift in E.
  destruct (getParentIdentifier info) as [pid|e|w];
    [|mstop E; apply Hstop; intros ?; discriminate..].
  destruct (negb (String.eqb pid "")); [|auto].
  rewrite run_bind, run_read in E.
  destruct (runR (js_in pid d) h) as [[|]|e|w]; [|auto|mstop E; apply Hstop; intros ?; discriminate..].
  rewrite run_bind, run_read in E.
  destruct (runR (get_prop d pid) h) as [record|e|w];
    [|mstop E; apply Hstop; intros ?; discriminate..].
  eauto using JSON_clone_run.
Qed.

Lemma get_prop_ref v k h l' :
  runR (get_prop v k) h = Ret (VRef l') ->
  exists l c, v = VRef l /\ h !! l = Some c /\ cell_read k c = VRef l'.
Proof.
  unfold get_prop, runR. destruct v; try discriminate.
  - destruct (String.eqb k "length"); [discriminate|].
    destruct (array_index k) as [i|]; [|discriminate].
    destruct (String.get i s); discriminate.
  - destruct (h !! l) as [c|] eqn:E; [|discriminate].
    intros Hr. inversion Hr. eauto.
Qed.

Lemma locs_of_writable v h : writable (locs_of v) h v.
Proof. intros l ->. right. simpl. set_solver. Qed.

Lemma newv_writable W base v : newv base v -> writable W base v.
Proof. intros Hn l E. left. auto. Qed.

Lemma frame_dom W base h l : frame W base h -> is_Some (base !! l) -> is_Some (h !! l).
Proof. intros Hf [c Hc]. exact (proj1 (Hf l c Hc)). Qed.

Lemma frame_newv W base h v : frame W base h -> newv h v -> newv base v.
Proof.
  intros Hf Hn l E. destruct (base !! l) as [c|] eqn:Eb; [|reflexivity].
  destruct (Hf l c Eb) as [[c1 Hs] _]. rewrite (Hn l E) in Hs. discriminate.
Qed.

(** What a built value reads as [usedParams] is new as well. *)
Lemma built_usedParams_new W base h h' a :
  built h h' [a] -> frame W base h -> usedParams_new base h' a.
Proof.
  intros (S1 & V1 & C1) Hf l c -> Hc l' Hr.
  destruct (V1 (VRef l) l (or_introl eq_refl) eq_refl) as [Hn _].
  apply cell_read_in_vals in Hr.
  destruct (C1 l c Hn Hc _ l' Hr eq_refl) as [Hn' _].
  apply (frame_newv W base h (VRef l') Hf); [|reflexivity].
  intros l0 E0. inversion E0; subst. assumption.
Qed.

Lemma usedParams_new_same base h h' rd :
  usedParams_new base h rd ->
  (forall l, rd = VRef l -> h' !! l = h !! l) ->
  usedParams_new base h' rd.
Proof. intros Hu Hs l c E Hc. apply (Hu l c E). rewrite <- (Hs l E). assumption. Qed.

Lemma init_usedParams_run W base rd h r h' :
  run (init_usedParams rd) h = (r, h') ->
  frame W base h -> newv base rd -> usedParams_new base h rd ->
  frame W base h' /\ usedParams_new base h' rd.
Proof.
  unfold init_usedParams. intros E Hf Hn Hu.
  rewrite run_bind, run_read in E.
  destruct (runR (get_prop rd "usedParams") h) as [up|e|w]; [|mstop E; auto..].
  destruct (is_undefined up); [|mstop E; auto].
  rewrite run_bind, run_alloc in E.
  pose proof (frame_fresh _ _ _ Hf) as Hnew.
  assert (Hf1 : frame W base (<[fresh (dom h):=Obj []]> h)) by (apply frame_write; auto).
  destruct (set_prop_run _ _ _ _ _ _ E) as [(l & c & c' & -> & Hl & Hw & _ & ->)|[-> _]].
  - split; [apply frame_write; auto|].
    intros l0 c0 E0 Hc0. inversion E0; subst l0.
    rewrite lookup_insert_eq in Hc0. inversion Hc0; subst c0.
    rewrite (cell_read_write_eq _ _ _ _ named_usedParams Hw).
    intros l1 E1. inversion E1; subst. assumption.
  - split; [assumption|].
    intros l0 c0 E0 Hc0.
    destruct (decide (fresh (dom h) = l0)) as [<-|Hne].
    + rewrite lookup_insert_eq in Hc0. inversion Hc0; subst. simpl. intros ? ?; discriminate.
    + rewrite lookup_insert_ne in Hc0 by assumption. eauto.
Qed.

Lemma fill_default_frame W base operation data args param h r h' :
  run (fill_default static_value operation data args param) h = (r, h') ->
  frame W base h -> writable W base args -> frame W base h'.
Proof.
  unfold fill_default. intros E Hf Hw.
  rewrite run_bind, run_read in E.
  destruct (runR (get_prop args _) h) as [a|e|w]; [|mstop E; auto..].
  destruct (Store.is_undefined a); [|mstop E; auto].
  destruct (param_schema param) as [sr|]; [|mstop E; auto].
  rewrite run_bind, run_lift in E.
  match type of E with
  | context [match ?x with Ret _ => _ | Throw _ => _ | Unmodelled _ => _ end] =>
      destruct x as [[s|]|e|w]
  end; try (mstop E; assumption).
  destruct (JS.truthy (schema_default s)); [|mstop E; assumption].
  eauto using set_prop_frame.
Qed.

Lemma fill_defaults_frame W base operation data params args h r h' :
  run (fill_defaults static_value operation data params args) h = (r, h') ->
  frame W base h -> writable W base args -> frame W base h'.
Proof.
  revert h. induction params as [|param rest IH]; intros h E Hf Hw.
  - mstop E. assumption.
  - change (fill_defaults static_value operation data (param :: rest) args)
      with (fill_default static_value operation data args param ;;
            fill_defaults static_value operation data rest args) in E.
    mstep E as u h1 E1; [|mstop E; eauto using fill_default_frame..].
    eauto using fill_default_frame.
Qed.

Lemma replace_linkParams_frame W base paramName linkParams value rd source h r h' :
  run (replace_linkParams text_of JSONPath_in paramName linkParams value rd source) h
    = (r, h') ->
  frame W base h -> frame W base h'.
Proof.
  revert value h. induction linkParams as [|lp rest IH]; intros value h E Hf.
  - mstop E. assumption.
  - cbn [replace_linkParams] in E.
    mstep E as v h1 E1; [|mstop E; eauto using resolveRuntimeExpression_frame..].
    assert (Hf1 : frame W base h1) by eauto using resolveRuntimeExpression_frame.
    rewrite run_bind, run_read in E.
    destruct (runR (ToString text_of v) h1) as [t|e|w]; [|mstop E; assumption..].
    eauto.
Qed.

Lemma resolve_link_frame W base data rd source args link h r h' :
  run (resolve_link text_of JSONPath_in data rd source args link) h = (r, h') ->
  frame W base h -> writable W base args -> frame W base h'.
Proof.
  unfold resolve_link. intros E Hf Hw.
  destruct (negb (Str.has_brace (snd link))).
  - mstep E as v h1 E1.
    + assert (Hf1 : frame W base h1).
      { destruct (isRuntimeExpression (snd link));
          [eauto using resolveRuntimeExpression_frame|mstop E1; assumption]. }
      eauto using set_prop_frame.
    + mstop E. destruct (isRuntimeExpression (snd link));
        [eauto using resolveRuntimeExpression_frame|mstop E1; assumption].
    + mstop E. destruct (isRuntimeExpression (snd link));
        [eauto using resolveRuntimeExpression_frame|mstop E1; assumption].
  - destruct (Str.match_braces (snd link)) as [|lp lps]; [mstop E; assumption|].
    mstep E as v h1 E1; [|mstop E; eauto using replace_linkParams_frame..].
    eauto using set_prop_frame, replace_linkParams_frame.
Qed.

Lemma resolve_links_frame W base data rd source args links h r h' :
  run (resolve_links text_of JSONPath_in data rd source args links) h = (r, h') ->
  frame W base h -> writable W base args -> frame W base h'.
Proof.
  revert h. induction links as [|link rest IH]; intros h E Hf Hw.
  - mstop E. assumption.
  - cbn [resolve_links] in E.
    mstep E as u h1 E1; [|mstop E; eauto using resolve_link_frame..].
    eauto using resolve_link_frame.
Qed.

Lemma record_usedParams_frame W base rd args h r h' :
  run (record_usedParams rd args) h = (r, h') ->
  frame W base h -> newv base rd -> usedParams_new base h rd ->
  frame W base h'.
Proof.
  unfold record_usedParams. intros E Hf Hn Hu.
  rewrite run_bind, run_read in E.
  destruct (runR (get_prop rd "usedParams") h) as [up|e|w] eqn:Eg; [|mstop E; auto..].
  assert (Hup : writable W base up).
  { intros l' ->. left.
    destruct (get_prop_ref _ _ _ _ Eg) as (l & c & -> & Hc & Hr).
    exact (Hu l c eq_refl Hc l' Hr). }
  mstep E as up' h1 E1; [|mstop E; eauto using assign_frame..].
  eauto using set_prop_frame, assign_frame, newv_writable.
Qed.

End Statements.

(** ** Attaching the hidden record *)

Section Attach.
Import Store Frame StoreView.

Variables (W : gset loc) (base hr : store).
Hypothesis base_hr : frame W base hr.

Lemma hr_new_base v : newv hr v -> newv base v.
Proof.
  intros Hn l E. destruct (base !! l) as [c|] eqn:Eb; [|reflexivity].
  destruct (base_hr l c Eb) as [[c1 Hs] _]. rewrite (Hn l E) in Hs. discriminate.
Qed.

Lemma live_fresh h : live hr h -> hr !! fresh (dom h) = None.
Proof.
  intros Hl. destruct (hr !! fresh (dom h)) as [c|] eqn:E; [|reflexivity].
  destruct (Hl (fresh (dom h)) (ex_intro _ c E)) as [c1 Hs].
  rewrite fresh_lookup in Hs. discriminate.
Qed.

Lemma live_insert h l c : live hr h -> live hr (<[l:=c]> h).
Proof.
  intros Hl l0 Hs. destruct (decide (l = l0)) as [->|Hne].
  - rewrite lookup_insert_eq. eauto.
  - rewrite lookup_insert_ne by assumption. auto.
Qed.

Lemma ready_alloc h c :
  ready W base hr h ->
  (forall hx, cell_read OPENAPI_TO_GRAPHQL c = VRef hx -> hr !! hx = None) ->
  writable W base (cell_read "data" c) ->
  ready W base hr (<[fresh (dom h):=c]> h).
Proof.
  intros (Hf & Hl & Ht) Hx Hd. split; [|split].
  - apply frame_write; [assumption|]. left. apply frame_fresh with (W := W). assumption.
  - apply live_insert. assumption.
  - intros l0 c0 Hn Hc. destruct (decide (fresh (dom h) = l0)) as [<-|Hne].
    + rewrite lookup_insert_eq in Hc. inversion Hc; subst. auto.
    + rewrite lookup_insert_ne in Hc by assumption. eauto.
Qed.

Lemma ready_write h l c k v c' :
  ready W base hr h ->
  h !! l = Some c -> cell_write k v c = Some c' ->
  base !! l = None \/ l ∈ W ->
  (k = OPENAPI_TO_GRAPHQL -> forall hx, v = VRef hx -> hr !! hx = None) ->
  (k = "data" -> writable W base v) ->
  ready W base hr (<[l:=c']> h).
Proof.
  intros (Hf & Hl & Ht) Hc Hw Hlw Hx Hd. split; [|split].
  - apply frame_write; assumption.
  - apply live_insert. assumption.
  - intros l0 c0 Hn Hc0. destruct (decide (l = l0)) as [<-|Hne].
    + rewrite lookup_insert_eq in Hc0. inversion Hc0; subst c0.
      destruct (Ht l c Hn Hc) as [Tx Td]. split.
      * destruct (string_dec k OPENAPI_TO_GRAPHQL) as [Ek|Ek].
        -- rewrite Ek in Hw. rewrite (cell_read_write_eq _ _ _ _ named_hidden Hw). auto.
        -- rewrite (cell_read_write_ne _ _ _ _ _ named_hidden Ek Hw). assumption.
      * destruct (string_dec k "data") as [Ek|Ek].
        -- pose proof (Hd Ek) as Hv. rewrite Ek in Hw.
           rewrite (cell_read_write_eq _ _ _ _ named_data Hw). assumption.
        -- rewrite (cell_read_write_ne _ _ _ _ _ named_data Ek Hw). assumption.
    + rewrite lookup_insert_ne in Hc0 by assumption. eauto.
Qed.

Lemma kept_refl id h : kept id base h h.
Proof. intros l ps _ Hc. eauto. Qed.

Lemma kept_trans id h h1 h2 :
  kept id base h h1 -> kept id base h1 h2 -> kept id base h h2.
Proof.
  intros K1 K2 l ps Hs Hc.
  destruct (K1 l ps Hs Hc) as (ps1 & Hc1 & E1).
  destruct (K2 l ps1 Hs Hc1) as (ps2 & Hc2 & E2).
  exists ps2. split; [assumption|]. intros k Hk. rewrite E2, E1; auto.
Qed.

Lemma kept_new id h l c : base !! l = None -> kept id base h (<[l:=c]> h).
Proof.
  intros Hn l0 ps [c0 Hs] Hc. exists ps. split; [|auto].
  rewrite lookup_insert_ne; [assumption|]. intros ->. congruence.
Qed.

Lemma kept_write id h l c v c' :
  h !! l = Some c -> cell_write id v c = Some c' -> kept id base h (<[l:=c']> h).
Proof.
  intros Hc Hw l0 ps _ Hc0. destruct (decide (l = l0)) as [<-|Hne].
  - rewrite Hc in Hc0. inversion Hc0; subst c. simpl in Hw. inversion Hw; subst c'.
    exists (obj_set id v ps). rewrite lookup_insert_eq. split; [reflexivity|].
    intros k Hk. apply obj_get_set_ne. congruence.
  - exists ps. rewrite lookup_insert_ne by assumption. auto.
Qed.

Lemma set_prop_ready t k v h r h' :
  run (set_prop t k v) h = (r, h') ->
  ready W base hr h -> writable W base t ->
  (k = OPENAPI_TO_GRAPHQL -> forall hx, v = VRef hx -> hr !! hx = None) ->
  (k = "data" -> writable W base v) ->
  ready W base hr h'.
Proof.
  intros E Hr Hw Hx Hd.
  destruct (set_prop_run _ _ _ _ _ _ E) as [(l & c & c' & -> & Hl & Hc & _ & ->)|[-> _]];
    [|assumption].
  eapply ready_write; eauto.
Qed.

Lemma set_prop_kept_new id t k v h r h' :
  run (set_prop t k v) h = (r, h') -> newv base t -> kept id base h h'.
Proof.
  intros E Hn.
  destruct (set_prop_run _ _ _ _ _ _ E) as [(l & c & c' & -> & Hl & Hc & _ & ->)|[-> _]];
    [|apply kept_refl].
  apply kept_new. auto.
Qed.

Lemma set_prop_kept_id id t v h r h' :
  run (set_prop t id v) h = (r, h') -> kept id base h h'.
Proof.
  intros E.
  destruct (set_prop_run _ _ _ _ _ _ E) as [(l & c & c' & -> & Hl & Hc & _ & ->)|[-> _]];
    [|apply kept_refl].
  eapply kept_write; eauto.
Qed.

Lemma set_props_ready t ps h r h' :
  run (set_props t ps) h = (r, h') ->
  ready W base hr h -> writable W base t ->
  (forall k v, In (k, v) ps ->
     k <> OPENAPI_TO_GRAPHQL /\ (k = "data" -> writable W base v)) ->
  ready W base hr h'.
Proof.
  revert h. induction ps as [|[k v] rest IH]; intros h E Hr Hw Hps.
  - mstop E. assumption.
  - rewrite set_props_cons in E.
    destruct (Hps k v (or_introl eq_refl)) as [Hk Hd].
    assert (Hstep : forall r1 h1, run (set_prop t k v) h = (r1, h1) -> ready W base hr h1).
    { intros r1 h1 E1. eapply set_prop_ready; eauto. intros Ek. contradiction. }
    mstep E as u h1 E1; [|mstop E; eauto..].
    eapply IH; eauto. intros k0 v0 Hin. apply Hps. right. assumption.
Qed.

Lemma set_props_kept_new id t ps h r h' :
  run (set_props t ps) h = (r, h') -> newv base t -> kept id base h h'.
Proof.
  revert h. induction ps as [|[k v] rest IH]; intros h E Hn.
  - mstop E. apply kept_refl.
  - rewrite set_props_cons in E.
    mstep E as u h1 E1; [|mstop E; eauto using set_prop_kept_new..].
    eapply kept_trans; eauto using set_prop_kept_new.
Qed.

Lemma assign_stmt_ready target src h r h' :
  run (assign_stmt target src) h = (r, h') ->
  ready W base hr h -> writable W base target ->
  (forall ps, runR (own_props src) h = Ret ps ->
     forall k v, In (k, v) ps ->
       k <> OPENAPI_TO_GRAPHQL /\ (k = "data" -> writable W base v)) ->
  ready W base hr h'.
Proof.
  unfold assign_stmt. intros E Hr Hw Hps.
  destruct target; try (mstop E; assumption).
  rewrite run_bind, run_read in E.
  destruct (runR (own_props src) h) as [ps|e|w] eqn:Eo; [|mstop E; assumption..].
  eapply set_props_ready; eauto.
Qed.

Lemma assign_stmt_kept_new id target src h r h' :
  run (assign_stmt target src) h = (r, h') -> newv base target -> kept id base h h'.
Proof.
  unfold assign_stmt. intros E Hn.
  destruct target; try (mstop E; apply kept_refl).
  rewrite run_bind, run_read in E.
  destruct (runR (own_props src) h) as [ps|e|w] eqn:Eo; [|mstop E; apply kept_refl..].
  eapply set_props_kept_new; eauto.
Qed.

(** The hidden field of an object made since [hr] was made since [hr]. *)
Lemma get_hidden_new h v a :
  ready W base hr h -> newv hr v ->
  runR (get_prop v OPENAPI_TO_GRAPHQL) h = Ret a -> newv hr a.
Proof.
  intros (_ & _ & Ht) Hn Eg l' ->.
  destruct (get_prop_ref _ _ _ _ Eg) as (l & c & -> & Hc & Hr).
  exact (proj1 (Ht l c (Hn l eq_refl) Hc) l' Hr).
Qed.

(** The [data] of an object made since [hr] may be written to. *)
Lemma get_data_writable h v a :
  ready W base hr h -> newv hr v ->
  runR (get_prop v "data") h = Ret a -> writable W base a.
Proof.
  intros (_ & _ & Ht) Hn Eg l' ->.
  destruct (get_prop_ref _ _ _ _ Eg) as (l & c & -> & Hc & Hr).
  exact (proj2 (Ht l c (Hn l eq_refl) Hc) l' Hr).
Qed.

Lemma cell_read_single k v : cell_read k (Obj [(k, v)]) = v.
Proof. apply (read_props_set_eq k v []). Qed.

Lemma cell_read_single_ne k k' v : k <> k' -> cell_read k' (Obj [(k, v)]) = VUndefined.
Proof. intros Hne. exact (read_props_set_ne k k' v [] Hne). Qed.

Lemma attach_one_ready source id rd element h r h' :
  run (attach_one source id rd element) h = (r, h') ->
  ready W base hr h -> newv hr element -> newv base rd ->
  id <> OPENAPI_TO_GRAPHQL ->
  (forall h, frame W base h -> src_ok W base h source) ->
  ready W base hr h' /\ kept id base h h'.
Proof.
  unfold attach_one. intros E R0 He Hrd Hid Hsrc.
  assert (K0 : kept id base h h) by apply kept_refl.
  rstep E as hv Eg; [|mstop E; auto..].
  assert (A1 : forall r1 h1,
            run (if is_undefined hv
                 then d ← alloc (Obj []);
                      hidden ← alloc (Obj [("data", d)]);
                      set_prop element OPENAPI_TO_GRAPHQL hidden
                 else mret tt) h = (r1, h1) ->
            ready W base hr h1 /\ kept id base h h1).
  { intros r1 h1 E1. destruct (is_undefined hv); [|mstop E1; auto].
    rewrite run_bind, run_alloc in E1. rewrite run_bind, run_alloc in E1.
    pose proof R0 as (F0 & L0 & _).
    assert (Ra : ready W base hr (<[fresh (dom h):=Obj []]> h)).
    { apply ready_alloc; [assumption|intros hx Hc; discriminate|intros l Hc; discriminate]. }
    pose proof Ra as (Fa & La & _).
    set (ha := <[fresh (dom h):=Obj []]> h) in *.
    assert (Rb : ready W base hr (<[fresh (dom ha):=Obj [("data", VRef (fresh (dom h)))]]> ha)).
    { apply ready_alloc; [assumption| |].
      - rewrite cell_read_single_ne by discriminate. intros hx Hc; discriminate.
      - rewrite cell_read_single. intros l Hc. inversion Hc; subst. left.
        apply frame_fresh with (W := W). assumption. }
    split.
    - eapply set_prop_ready; eauto.
      + apply newv_writable. apply hr_new_base. assumption.
      + intros _ hx Hc. inversion Hc; subst. apply live_fresh. assumption.
      + intros Hc; discriminate.
    - eapply kept_trans; [apply kept_new, frame_fresh with (W := W); exact F0|].
      eapply kept_trans; [apply kept_new, frame_fresh with (W := W); exact Fa|].
      eapply set_prop_kept_new; eauto using hr_new_base. }
  mstep E as u h1 E1; destruct (A1 _ _ eq_refl) as [R1 K1]; [|mstop E; auto..].
  clear A1.
  rstep E as hid Eh; [|mstop E; auto..].
  assert (A2 : forall r2 h2,
            run (if (hid : bool)
                 then target ← read (get_prop element OPENAPI_TO_GRAPHQL);
                      src ← read (get_prop source OPENAPI_TO_GRAPHQL);
                      assign_stmt target src
                 else mret tt) h1 = (r2, h2) ->
            ready W base hr h2 /\ kept id base h1 h2).
  { intros r2 h2 E2. pose proof (kept_refl id h1) as K.
    destruct hid; [|mstop E2; auto].
    rstep E2 as target Et; [|mstop E2; auto..].
    rstep E2 as src Es; [|mstop E2; auto..].
    assert (Ht : newv hr target) by eauto using get_hidden_new.
    split.
    - eapply assign_stmt_ready; eauto using newv_writable, hr_new_base.
      intros ps Eo. apply (Hsrc h1 (proj1 R1) src ps Es Eo).
    - eapply assign_stmt_kept_new; eauto using hr_new_base. }
  mstep E as u2 h2 E2; destruct (A2 _ _ eq_refl) as [R2 K2];
    [|mstop E; eauto using kept_trans..].
  clear A2.
  assert (K02 : kept id base h h2) by eauto using kept_trans.
  rstep E as hv2 Eg2; [|mstop E; auto..].
  rstep E as d Ed; [|mstop E; auto..].
  split.
  - eapply set_prop_ready; eauto.
    + apply (get_data_writable h2 hv2 d R2); [|exact Ed].
      exact (get_hidden_new h2 element hv2 R2 He Eg2).
    + intros Ek. contradiction.
    + intros _. apply newv_writable. assumption.
  - eapply kept_trans; [exact K02|]. eapply set_prop_kept_id; eauto.
Qed.

Lemma attach_all_ready source id rd elements h r h' :
  run (attach_all source id rd elements) h = (r, h') ->
  ready W base hr h -> Forall (newv hr) elements -> newv base rd ->
  id <> OPENAPI_TO_GRAPHQL ->
  (forall h, frame W base h -> src_ok W base h source) ->
  ready W base hr h' /\ kept id base h h'.
Proof.
  revert h. induction elements as [|element rest IH]; intros h E R0 Hes Hrd Hid Hsrc.
  - mstop E. split; [assumption|apply kept_refl].
  - inversion Hes as [|x xs He Hrest]; subst.
    change (attach_all source id rd (element :: rest))
      with (attach_one source id rd element ;; attach_all source id rd rest) in E.
    mstep E as u h1 E1;
      destruct (attach_one_ready _ _ _ _ _ _ _ E1 R0 He Hrd Hid Hsrc) as [R1 K1];
      [|mstop E; auto..].
    destruct (IH h1 E R1 Hrest Hrd Hid Hsrc) as [R2 K2].
    eauto using kept_trans.
Qed.

(** The tree of the response is ready. *)
Lemma built_ready h vs : built hr h vs -> ready W base hr h.
Proof.
  intros Hb. pose proof Hb as (S1 & V1 & C1). split; [|split].
  - eapply built_frame; eauto.
  - intros l Hs. eapply subseteq_is_Some; eauto.
  - intros l c Hn Hc. split.
    + intros hx Hr. apply cell_read_in_vals in Hr.
      exact (proj1 (C1 l c Hn Hc _ hx Hr eq_refl)).
    + intros d Hr. left. apply cell_read_in_vals in Hr.
      apply (hr_new_base (VRef d)); [|reflexivity].
      intros l0 E0. inversion E0; subst.
      exact (proj1 (C1 l c Hn Hc _ l0 Hr eq_refl)).
Qed.

Lemma attach_ready source id rd saneData h r h' :
  run (attach source id rd saneData) h = (r, h') ->
  built hr h [saneData] -> newv base rd ->
  id <> OPENAPI_TO_GRAPHQL ->
  (forall h, frame W base h -> src_ok W base h source) ->
  ready W base hr h' /\ kept id base h h'.
Proof.
  unfold attach. intros E Hb Hrd Hid Hsrc.
  pose proof (built_ready _ _ Hb) as R0.
  pose proof (kept_refl id h) as K0.
  destruct Hb as (S1 & V1 & C1).
  assert (Hs : newv hr saneData).
  { intros l ->. exact (proj1 (V1 (VRef l) l (or_introl eq_refl) eq_refl)). }
  destruct (truthy saneData && is_object saneData); [|mstop E; auto].
  rstep E as es Ee; [|mstop E; auto..].
  destruct es as [elements|]; [|eauto using attach_one_ready].
  eapply attach_all_ready; eauto.
  unfold elements_of in Ee. simpl in Ee.
  destruct saneData as [| | | | |l]; try discriminate.
  destruct (h !! l) as [[ps|es ps]|] eqn:El; try discriminate.
  inversion Ee; subst es. apply Forall_forall. intros v Hin l' ->.
  apply list_elem_of_In in Hin.
  apply (proj1 (C1 l (Arr elements ps) (Hs l eq_refl) El (VRef l') l'
                 (in_or_app _ _ _ (or_introl Hin)) eq_refl)).
Qed.

End Attach.

(** ** The resolver on the store *)

(** The next statement is a computation that does not touch the store. *)
Tactic Notation "lstep" hyp(E) "as" ident(a) ident(Ea) :=
  match type of E with
  | context [Store.lift ?x ≫= _] =>
      rewrite run_bind, run_lift in E; destruct x as [a|?e|?w] eqn:Ea
  end.

Section Run.
Import Store Frame StoreView.
Context `{Collaborators}.
Variables (static_value : json -> val) (text_of : store -> val -> string)
  (JSONPath_in : option string -> store -> val -> result (option (list val)))
  (encode_payload : store -> bool -> val -> result val)
  (httpRequest_in : store -> val -> val -> result Response).

Implicit Types (h base : store) (W : gset loc) (l : loc) (c : cell) (v : val).

Lemma frame_subseteq W base h h' : frame W base h -> h ⊆ h' -> frame W base h'.
Proof.
  intros Hf Hs l c Hc. destruct (Hf l c Hc) as [[c1 H1] Hu]. split.
  - exists c1. exact (lookup_weaken _ _ _ _ H1 Hs).
  - intros Hn. exact (lookup_weaken _ _ _ _ (Hu Hn) Hs).
Qed.

Lemma kept_subseteq id base h h' : h ⊆ h' -> kept id base h h'.
Proof.
  intros Hs l ps _ Hc. exists ps. split; [|auto]. exact (lookup_weaken _ _ _ _ Hc Hs).
Qed.

Lemma alloc_subseteq h c : h ⊆ <[fresh (dom h):=c]> h.
Proof. apply insert_subseteq, fresh_lookup. Qed.

Lemma apply_limit_run operation data args saneData h r h' :
  run (apply_limit text_of operation data args saneData) h = (r, h') -> h ⊆ h'.
Proof.
  unfold apply_limit. intros E.
  destruct (_ && _); [|mstop E; reflexivity].
  rstep E as es Ee; [|mstop E; reflexivity..].
  destruct es as [elements|]; [|mstop E; reflexivity].
  destruct (existsb is_object elements); [|mstop E; reflexivity].
  rstep E as present Ep; [|mstop E; reflexivity..].
  destruct present; [|mstop E; reflexivity].
  rstep E as limit El; [|mstop E; reflexivity..].
  rstep E as n En; [|mstop E; reflexivity..].
  destruct n as [n|]; [|mstop E; reflexivity].
  destruct (n >=? 0)%Z; [|mstop E; reflexivity].
  rewrite run_alloc in E. mstop E. apply alloc_subseteq.
Qed.

Lemma handle_response_frame W base p rd args source info response h r h' :
  run (handle_response text_of p rd args source info response) h = (r, h') ->
  frame W base h -> newv base rd ->
  getIdentifier info <> OPENAPI_TO_GRAPHQL ->
  (forall h, frame W base h -> src_ok W base h source) ->
  frame W base h' /\ kept (getIdentifier info) base h h'.
Proof.
  unfold handle_response. intros E Hf Hrd Hid Hsrc.
  pose proof (kept_refl base (getIdentifier info) h) as K0.
  destruct (_ || _).
  { destruct (provideErrorExtensions _); mstop E; auto. }
  destruct (JS.truthy _).
  2:{ destruct (responseContentType _); mstop E; auto. }
  lstep E as ok Eok; [|mstop E; auto..].
  destruct (negb ok); [mstop E; auto|].
  lstep E as isJson Ej; [|mstop E; auto..].
  destruct isJson.
  2:{ destruct (new_tree_run _ _ _ _ E) as (a & _ & Hb).
      split; [eapply built_frame; eauto|apply kept_subseteq, Hb]. }
  destruct (JSON_parse _) as [responseBody|]; [|mstop E; auto].
  mstep E as headers h1 E1; destruct (new_tree_run _ _ _ _ E1) as (a1 & Ea1 & Hb1);
    try discriminate.
  assert (F1 : frame W base h1) by (eapply built_frame; eauto).
  assert (K1 : kept (getIdentifier info) base h h1) by apply kept_subseteq, Hb1.
  assert (A2 : forall r2 h2, run (set_prop rd "responseHeaders" headers) h1 = (r2, h2) ->
            frame W base h2 /\ kept (getIdentifier info) base h h2).
  { intros r2 h2 E2. split.
    - eapply set_prop_frame; eauto using newv_writable.
    - eapply kept_trans; [exact K1|]. eapply set_prop_kept_new; eauto. }
  mstep E as u h2 E2; destruct (A2 _ _ eq_refl) as [F2 K2]; [|mstop E; auto..].
  lstep E as saneTree Es; [|mstop E; auto..].
  mstep E as saneData h3 E3; destruct (new_tree_run _ _ _ _ E3) as (a3 & Ea3 & Hb3);
    try discriminate.
  inversion Ea3; subst a3.
  assert (A4 : forall r4 h4,
            run (attach source (getIdentifier info) rd saneData) h3 = (r4, h4) ->
            frame W base h4 /\ kept (getIdentifier info) base h h4).
  { intros r4 h4 E4.
    destruct (attach_ready W base h2 F2 _ _ _ _ _ _ _ E4 Hb3 Hrd Hid Hsrc) as [R4 K4].
    split; [exact (proj1 R4)|].
    eapply kept_trans; [exact K2|]. eapply kept_trans; [|exact K4].
    apply kept_subseteq, Hb3. }
  mstep E as u4 h4 E4; destruct (A4 _ _ eq_refl) as [F4 K4]; [|mstop E; auto..].
  pose proof (apply_limit_run _ _ _ _ _ _ _ E) as S5.
  split; [eapply frame_subseteq; eauto|].
  eapply kept_trans; [exact K4|]. apply kept_subseteq, S5.
Qed.

Lemma init_usedParams_live rd h r h' l :
  run (init_usedParams rd) h = (r, h') -> is_Some (h !! l) -> is_Some (h' !! l).
Proof.
  unfold init_usedParams. intros E Hs.
  rstep E as up Eu; [|mstop E; assumption..].
  destruct (is_undefined up); [|mstop E; assumption].
  rewrite run_bind, run_alloc in E.
  eapply set_prop_dom; [exact E|].
  eapply subseteq_is_Some; [apply alloc_subseteq|assumption].
Qed.

(** A statement that writes to [args] only leaves [resolveData] as it is. *)
Lemma args_step W base args rd h h' :
  (forall W base, frame W base h -> writable W base args -> frame W base h') ->
  (forall l, rd = VRef l -> l ∉ locs_of args) ->
  frame W base h -> writable W base args ->
  usedParams_new base h rd -> (forall l, rd = VRef l -> is_Some (h !! l)) ->
  frame W base h' /\ usedParams_new base h' rd
  /\ forall l, rd = VRef l -> is_Some (h' !! l).
Proof.
  intros Hstep Hne Hf Hw Hu Hl.
  pose proof (Hstep (locs_of args) h (frame_refl _ _) (locs_of_writable _ _)) as F.
  assert (Same : forall l, rd = VRef l -> h' !! l = h !! l).
  { intros l El. destruct (Hl l El) as [c Hc]. rewrite Hc.
    exact (proj2 (F l c Hc) (Hne l El)). }
  split; [auto|]. split.
  - apply usedParams_new_same with (h := h); assumption.
  - intros l El. rewrite (Same l El). auto.
Qed.

(** Up to the call of the transport the resolver writes to [args] and to
    objects of its own. *)
Lemma prepare_frame W base p baseUrl source args context info h r h' :
  run (prepare static_value text_of JSONPath_in encode_payload
         p baseUrl source args context info) h = (r, h') ->
  frame W base h -> writable W base args ->
  (forall la, args = VRef la -> is_Some (h !! la)) ->
  frame W base h' /\ forall options rd, r = Ret (options, rd) -> newv base rd.
Proof.
  unfold prepare. intros E Hf Hw Ha.
  assert (Stop : forall h0 (e : result (val * val)),
            frame W base h0 -> (forall a, e <> Ret a) ->
            frame W base h0 /\ forall options rd, e = Ret (options, rd) -> newv base rd).
  { intros h0 e F0 He. split; [assumption|]. intros o rd0 ->. destruct (He _ eq_refl). }
  mstep E as rd h1 E1; destruct (recover_run _ _ _ _ _ E1) as [(a & Ea & Hb)|[-> Hr]];
    try discriminate; try (mstop E; apply Stop; [assumption|intros ?; discriminate]);
    try (destruct (Hr _ eq_refl)).
  inversion Ea; subst a. clear Ea.
  assert (F1 : frame W base h1) by (eapply built_frame; eauto).
  assert (Hrd : newv base rd) by (eapply built_newv; eauto).
  assert (U1 : usedParams_new base h1 rd) by (eapply built_usedParams_new; eauto).
  assert (Hne : forall l, rd = VRef l -> l ∉ locs_of args).
  { intros l -> Hin. destruct args; simpl in Hin; try (exfalso; exact (not_elem_of_empty _ Hin)).
    apply elem_of_singleton in Hin. subst.
    destruct Hb as (_ & V1 & _).
    destruct (V1 (VRef l0) l0 (or_introl eq_refl) eq_refl) as [Hn _].
    destruct (Ha l0 eq_refl) as [c Hc]. congruence. }
  assert (L1 : forall l, rd = VRef l -> is_Some (h1 !! l)).
  { intros l ->. destruct Hb as (_ & V1 & _).
    exact (proj2 (V1 (VRef l) l (or_introl eq_refl) eq_refl)). }
  assert (A2 : forall r2 h2, run (init_usedParams rd) h1 = (r2, h2) ->
            frame W base h2 /\ usedParams_new base h2 rd
            /\ forall l, rd = VRef l -> is_Some (h2 !! l)).
  { intros r2 h2 E2.
    destruct (init_usedParams_run _ _ _ _ _ _ E2 F1 Hrd U1) as [F2 U2].
    split; [assumption|]. split; [assumption|].
    intros l El. eapply init_usedParams_live; eauto. }
  mstep E as u2 h2 E2; destruct (A2 _ _ eq_refl) as (F2 & U2 & L2);
    [|mstop E; apply Stop; [assumption|intros ?; discriminate]..].
  clear A2.
  assert (A3 : forall r3 h3,
            run (fill_defaults static_value (operation p) (data p)
                   (parameters (operation p)) args) h2 = (r3, h3) ->
            frame W base h3 /\ usedParams_new base h3 rd
            /\ forall l, rd = VRef l -> is_Some (h3 !! l)).
  { intros r3 h3 E3. apply args_step with (args := args) (h := h2); auto.
    intros W0 base0. eapply fill_defaults_frame; eauto. }
  mstep E as u3 h3 E3; destruct (A3 _ _ eq_refl) as (F3 & U3 & L3);
    [|mstop E; apply Stop; [assumption|intros ?; discriminate]..].
  clear A3.
  assert (A4 : forall r4 h4,
            run (resolve_links text_of JSONPath_in (data p) rd source args
                   (argsFromLink p)) h3 = (r4, h4) ->
            frame W base h4 /\ usedParams_new base h4 rd
            /\ forall l, rd = VRef l -> is_Some (h4 !! l)).
  { intros r4 h4 E4. apply args_step with (args := args) (h := h3); auto.
    intros W0 base0. eapply resolve_links_frame; eauto. }
  mstep E as u4 h4 E4; destruct (A4 _ _ eq_refl) as (F4 & U4 & L4);
    [|mstop E; apply Stop; [assumption|intros ?; discriminate]..].
  clear A4.
  assert (A5 : forall r5 h5, run (record_usedParams rd args) h4 = (r5, h5) ->
            frame W base h5).
  { intros r5 h5 E5. eapply record_usedParams_frame; eauto. }
  mstep E as u5 h5 E5; pose proof (A5 _ _ eq_refl) as F5;
    [|mstop E; apply Stop; [assumption|intros ?; discriminate]..].
  clear A5.
  assert (Set_rd : forall k v h0 r0 h0', run (set_prop rd k v) h0 = (r0, h0') ->
            frame W base h0 -> frame W base h0').
  { intros k v h0 r0 h0' E0 F0. eapply set_prop_frame; eauto using newv_writable. }
  rstep E as request Er; [|mstop E; apply Stop; [assumption|intros ?; discriminate]..].
  destruct request as [[path1 qs1] headers1].
  destruct (request_options _ _ _ _ _) as [[options1 oheaders1] oqs1].
  mstep E as u6 h6 E6; pose proof (Set_rd _ _ _ _ _ E6 F5) as F6;
    [|mstop E; apply Stop; [assumption|intros ?; discriminate]..].
  rstep E as rawPayload Ep; [|mstop E; apply Stop; [assumption|intros ?; discriminate]..].
  assert (A7 : forall r7 h7,
            run (match rawPayload with
                 | Some raw =>
                     set_prop rd "usedPayload" raw ;; mret (obj_set "body" raw options1)
                 | None => mret options1
                 end) h6 = (r7, h7) -> frame W base h7).
  { intros r7 h7 E7. destruct rawPayload as [raw|]; [|mstop E7; assumption].
    mstep E7 as u7 h7' E7'; pose proof (Set_rd _ _ _ _ _ E7' F6); mstop E7; assumption. }
  mstep E as options2 h7 E7; pose proof (A7 _ _ eq_refl) as F7;
    [|mstop E; apply Stop; [assumption|intros ?; discriminate]..].
  clear A7.
  rstep E as finished Ef; [|mstop E; apply Stop; [assumption|intros ?; discriminate]..].
  destruct finished as [oheaders2 oqs2].
  rewrite run_bind, run_alloc in E. rewrite run_bind, run_alloc in E.
  rewrite run_bind, run_alloc in E.
  match type of E with
  | context [run _ ?hh] =>
      assert (F8 : frame W base hh)
        by (repeat (eapply frame_subseteq; [|apply alloc_subseteq]); exact F7)
  end.
  mstep E as u9 h9 E9; pose proof (Set_rd _ _ _ _ _ E9 F8) as F9;
    [|mstop E; apply Stop; [assumption|intros ?; discriminate]..].
  mstep E as u10 h10 E10; pose proof (Set_rd _ _ _ _ _ E10 F9) as F10;
    [|mstop E; apply Stop; [assumption|intros ?; discriminate]..].
  mstop E. split; [assumption|]. intros o rd0 Eo. inversion Eo; subst. assumption.
Qed.

End Run.

(** ** The record on the parent result *)

Section Identifiers.

Lemma length_append (a b : string) :
  String.length (a ++ b) = (String.length a + String.length b)%nat.
Proof. induction a as [|c a IH]; simpl; [reflexivity|]. rewrite IH. reflexivity. Qed.

Lemma slash_in (a b : string) : In "/"%char (list_ascii_of_string (a ++ "/" ++ b)).
Proof. induction a as [|c a IH]; simpl; [left; reflexivity|right; exact IH]. Qed.

(** The identifier of a field is not the identifier of its parent, and is
    not the name of the hidden field. *)
Lemma identifier_apart info parentIdentifier :
  getParentIdentifier info = Ret parentIdentifier ->
  key_isNaN (key info) = true ->
  getIdentifier info <> parentIdentifier
  /\ getIdentifier info <> OPENAPI_TO_GRAPHQL.
Proof.
  destruct info as [[q|] k]; simpl; [|discriminate].
  intros Hp Hk. inversion Hp; subst. unfold getIdentifier. simpl. rewrite Hk. split.
  - intros E. apply (f_equal String.length) in E.
    rewrite !length_append in E. simpl in E. lia.
  - intros E. pose proof (slash_in (key_text k) (getIdentifierRecursive q)) as Hin.
    rewrite E in Hin. simpl in Hin. intuition discriminate.
Qed.

End Identifiers.

Section Snapshot.
Import Store Frame.

Lemma mapM_weaken {A B} (f g : A -> option B) (l : list A) (k : list B) :
  (forall x y, In x l -> f x = Some y -> g x = Some y) ->
  mapM f l = Some k -> mapM g l = Some k.
Proof.
  intros Hfg Hm. apply mapM_Some. apply mapM_Some in Hm.
  induction Hm as [|x y l k Hxy Hm IH]; constructor.
  - apply Hfg; [left; reflexivity|assumption].
  - apply IH. intros x0 y0 Hin. apply Hfg. right. assumption.
Qed.

(** Reading a tree finds the same tree in a store that has the objects of
    the tree unchanged. *)
Lemma snapshot_same (h h' : store) fuel : forall v t,
  (forall l c, reachable h v l -> h !! l = Some c -> h' !! l = Some c) ->
  snapshot fuel h v = Some t -> snapshot fuel h' v = Some t.
Proof.
  induction fuel as [|n IH]; intros v t Hsame Hs;
    destruct v as [| | | | |l]; simpl in *; try assumption.
  destruct (h !! l) as [c|] eqn:El; [|discriminate].
  rewrite (Hsame l c (reach_here h l) El).
  assert (Hentry : forall (ps : props) (kv : string * val) y,
            In kv ps -> In (snd kv) (cell_vals c) ->
            (t0 ← snapshot n h kv.2; Some (kv.1, t0)) = Some y ->
            (t0 ← snapshot n h' kv.2; Some (kv.1, t0)) = Some y).
  { intros ps kv y _ Hin Hy.
    destruct (snapshot n h kv.2) as [t0|] eqn:E0; [|discriminate].
    rewrite (IH kv.2 t0); [assumption| |assumption].
    intros l' c' Hr. apply Hsame. eapply reach_step; eauto. }
  destruct c as [ps|es ps].
  - destruct (mapM _ ps) as [o|] eqn:Em; [|discriminate].
    erewrite mapM_weaken; [exact Hs| |exact Em].
    intros kv y Hin. apply (Hentry ps); [assumption|].
    simpl. apply in_map. assumption.
  - destruct (mapM (snapshot n h) es) as [ts|] eqn:Ee; [|discriminate].
    simpl in Hs.
    destruct (mapM _ ps) as [o|] eqn:Em; [|discriminate].
    erewrite (mapM_weaken (snapshot n h) (snapshot n h')); [| |exact Ee].
    + simpl. erewrite mapM_weaken; [exact Hs| |exact Em].
      intros kv y Hin. apply (Hentry ps); [assumption|].
      simpl. apply in_or_app. right. apply in_map. assumption.
    + intros x y Hin Hx. apply IH; [|assumption].
      intros l' c' Hr. apply Hsame. eapply reach_step; eauto.
      simpl. apply in_or_app. left. assumption.
Qed.

End Snapshot.

Section Parent.
Import Store Frame StoreView.
Context `{Collaborators}.
Variables (static_value : json -> val) (text_of : store -> val -> string)
  (JSONPath_in : option string -> store -> val -> result (option (list val)))
  (encode_payload : store -> bool -> val -> result val)
  (httpRequest_in : store -> val -> val -> result Response).

(** What [Object.assign] copies from the hidden field of the parent
    result, while the parent result is as it was. *)
Lemma carries_src_ok W base source parentIdentifier record ls lx ld :
  carries base source parentIdentifier record ls lx ld ->
  ls ∉ W -> lx ∉ W -> ld ∈ W ->
  forall h, frame W base h -> src_ok W base h source.
Proof.
  intros [-> (cs & Hcs & Hx) (cx & Hcx & Hd & Hps) _ _] Hls Hlx Hld h Hf src ps Eg Eo.
  unfold get_prop, runR in Eg.
  rewrite (proj2 (Hf ls cs Hcs) Hls) in Eg. inversion Eg; subst src. clear Eg.
  rewrite Hx in Eo. unfold own_props, runR in Eo.
  rewrite (proj2 (Hf lx cx Hcx) Hlx) in Eo. inversion Eo; subst ps. clear Eo.
  intros k v Hin. destruct (Hps k v Hin) as [Hk Hv]. split; [assumption|].
  intros Ek l El. right. rewrite (Hv Ek) in El. inversion El; subst. assumption.
Qed.

(** One run of the resolver: the objects there were before change only if
    they are [args] or written to by [attach]; up to the call of the
    transport only [args] changes, and after it the objects there were
    change under the identifier of the field at most. *)
Lemma resolve_frame W base p baseUrl source args context info h r h' :
  run (resolve static_value text_of JSONPath_in encode_payload httpRequest_in
         p baseUrl source args context info) h = (r, h') ->
  frame W base h -> writable W base args ->
  (forall la, args = VRef la -> is_Some (h !! la)) ->
  getIdentifier info <> OPENAPI_TO_GRAPHQL ->
  (forall h, frame W base h -> src_ok W base h source) ->
  frame W base h'
  /\ exists h1, frame (locs_of args) h h1 /\ kept (getIdentifier info) base h1 h'.
Proof.
  unfold resolve. intros E Hf Hw Ha Hid Hsrc.
  mstep E as prepared h1 E1;
    pose proof (fun W base => prepare_frame _ _ _ _ W base _ _ _ _ _ _ _ _ _ E1) as P1;
    destruct (P1 W base Hf Hw Ha) as [F1 Hrd];
    pose proof (proj1 (P1 (locs_of args) h (frame_refl (locs_of args) h)
                          (locs_of_writable args h) Ha)) as F1';
    [|mstop E; split; [assumption|exists h'; split; [assumption|apply kept_refl]]..].
  destruct prepared as [options rd]. specialize (Hrd options rd eq_refl).
  rstep E as response Er;
    [|mstop E; split; [assumption|exists h'; split; [assumption|apply kept_refl]]..].
  destruct (handle_response_frame _ _ _ _ _ _ _ _ _ _ _ _ E F1 Hrd Hid Hsrc) as [F2 K2].
  split; [assumption|]. exists h1. split; assumption.
Qed.

End Parent.

(** ** The copy of the parent result *)

Section Copy.
Import Store Frame.

Implicit Types (h : store) (v : val) (t : json).

Lemma alloc_list_grows es h : h ⊆ (alloc_list alloc_tree es h).2.
Proof.
  apply (alloc_list_built alloc_tree es).
  apply Forall_true. intros t. apply alloc_tree_built.
Qed.

Lemma alloc_props_grows (o : obj) h : h ⊆ (alloc_props alloc_tree o h).2.
Proof.
  apply (alloc_props_built alloc_tree o).
  apply Forall_true. intros kv. apply alloc_tree_built.
Qed.

Lemma alloc_tree_grows t h : h ⊆ (alloc_tree t h).2.
Proof. apply (alloc_tree_built t h). Qed.

(** The properties of an object read as the properties of a tree. *)
Lemma entries_Some m h (ps : props) (o : obj) :
  Forall2 (fun kv kt => kv.1 = kt.1 /\ snapshot m h kv.2 = Some kt.2) ps o ->
  mapM (fun kv : string * val => t ← snapshot m h kv.2; Some (kv.1, t)) ps = Some o.
Proof.
  intros Hf. apply mapM_Some_2. eapply Forall2_impl; [exact Hf|].
  intros [k v] [k' t'] [E1 E2]. simpl in *. rewrite E2. simpl. subst. reflexivity.
Qed.

Lemma alloc_list_snapshot es :
  Forall (fun t => forall h, exists n : nat, forall (m : nat) h', (n <= m)%nat -> (alloc_tree t h).2 ⊆ h' ->
            snapshot m h' (alloc_tree t h).1 = Some t) es ->
  forall h, exists n : nat, forall (m : nat) h', (n <= m)%nat -> (alloc_list alloc_tree es h).2 ⊆ h' ->
    Forall2 (fun v t => snapshot m h' v = Some t) (alloc_list alloc_tree es h).1 es.
Proof.
  induction 1 as [|x r Hx Hr IH]; intros h; simpl.
  - exists 0%nat. constructor.
  - destruct (Hx h) as [n1 H1]. destruct (alloc_tree x h) as [v h1]. simpl in H1.
    destruct (IH h1) as [n2 H2]. pose proof (alloc_list_grows r h1) as Hg.
    destruct (alloc_list alloc_tree r h1) as [vs h2]. simpl in *.
    exists (Nat.max n1 n2). intros m h' Hm Hs. constructor.
    + apply H1; [lia|]. transitivity h2; assumption.
    + apply H2; [lia|assumption].
Qed.

Lemma alloc_props_snapshot (o : obj) :
  Forall (fun kv => forall h, exists n : nat, forall (m : nat) h', (n <= m)%nat ->
            (alloc_tree kv.2 h).2 ⊆ h' ->
            snapshot m h' (alloc_tree kv.2 h).1 = Some kv.2) o ->
  forall h, exists n : nat, forall (m : nat) h', (n <= m)%nat -> (alloc_props alloc_tree o h).2 ⊆ h' ->
    Forall2 (fun kv kt => kv.1 = kt.1 /\ snapshot m h' kv.2 = Some kt.2)
      (alloc_props alloc_tree o h).1 o.
Proof.
  induction 1 as [|[k x] r Hx Hr IH]; intros h; simpl.
  - exists 0%nat. constructor.
  - simpl in Hx. destruct (Hx h) as [n1 H1]. destruct (alloc_tree x h) as [v h1].
    simpl in H1. destruct (IH h1) as [n2 H2]. pose proof (alloc_props_grows r h1) as Hg.
    destruct (alloc_props alloc_tree r h1) as [ps h2]. simpl in *.
    exists (Nat.max n1 n2). intros m h' Hm Hs. constructor.
    + split; [reflexivity|]. simpl. apply H1; [lia|]. transitivity h2; assumption.
    + apply H2; [lia|assumption].
Qed.

(** A tree built in the store reads as the tree, in every later store
    that has its objects. *)
Lemma alloc_tree_snapshot t : forall h, exists n : nat, forall (m : nat) h', (n <= m)%nat ->
  (alloc_tree t h).2 ⊆ h' -> snapshot m h' (alloc_tree t h).1 = Some t.
Proof.
  induction t as [| |b|z|s|es ps IHe IHp|ps IHp] using json_tree_ind; intros h;
    try (exists 0%nat; intros [|m] h' _ _; reflexivity).
  - simpl.
    destruct (alloc_list_snapshot es IHe h) as [n1 H1].
    pose proof (alloc_list_grows es h) as G1.
    destruct (alloc_list alloc_tree es h) as [vs h1]. simpl in H1, G1.
    destruct (alloc_props_snapshot ps IHp h1) as [n2 H2].
    pose proof (alloc_props_grows ps h1) as G2.
    destruct (alloc_props alloc_tree ps h1) as [qs h2]. simpl in H2, G2. simpl.
    exists (S (Nat.max n1 n2)). intros m h' Hm Hs. destruct m as [|m]; [lia|].
    assert (S2 : h2 ⊆ h') by (transitivity (<[fresh (dom h2):=Arr vs qs]> h2);
                              [apply alloc_subseteq|assumption]).
    simpl. rewrite (lookup_weaken _ _ _ _ (lookup_insert_eq h2 _ _) Hs).
    rewrite (mapM_Some_2 _ _ _ (H1 m h' ltac:(lia) ltac:(transitivity h2; assumption))).
    simpl. rewrite (entries_Some _ _ _ _ (H2 m h' ltac:(lia) S2)). reflexivity.
  - simpl.
    destruct (alloc_props_snapshot ps IHp h) as [n2 H2].
    destruct (alloc_props alloc_tree ps h) as [qs h2]. simpl in H2. simpl.
    exists (S n2). intros m h' Hm Hs. destruct m as [|m]; [lia|].
    assert (S2 : h2 ⊆ h') by (transitivity (<[fresh (dom h2):=Obj qs]> h2);
                              [apply alloc_subseteq|assumption]).
    simpl. rewrite (lookup_weaken _ _ _ _ (lookup_insert_eq h2 _ _) Hs).
    rewrite (entries_Some _ _ _ _ (H2 m h' ltac:(lia) S2)). reflexivity.
Qed.

Lemma obj_set_vals {A} k (x : A) (ps : list (string * A)) y :
  In y (map snd (obj_set k x ps)) -> y = x \/ In y (map snd ps).
Proof.
  induction ps as [|[k' x'] r IH]; simpl.
  - intros [<-|[]]. left. reflexivity.
  - destruct (String.eqb k k'); simpl.
    + intros [<-|Hin]; auto.
    + intros [<-|Hin]; auto. destruct (IH Hin); auto.
Qed.

(** A write under a named key adds the written value to the values of an
    object, and nothing else. *)
Lemma cell_write_vals k x c c' y :
  named k -> cell_write k x c = Some c' ->
  In y (cell_vals c') -> y = x \/ In y (cell_vals c).
Proof.
  intros [Hi Hl] Hw Hin. destruct c as [ps|es ps]; simpl in Hw.
  - inversion Hw; subst. simpl in *. apply obj_set_vals in Hin. assumption.
  - destruct (String.eqb k "length") eqn:El; [discriminate|].
    rewrite Hi in Hw. inversion Hw; subst. simpl in *.
    apply in_app_or in Hin. destruct Hin as [Hin|Hin].
    + right. apply in_or_app. left. assumption.
    + apply obj_set_vals in Hin. destruct Hin as [->|Hin]; [left; reflexivity|].
      right. apply in_or_app. right. assumption.
Qed.

(** A write of a value that is no object, to one of the new objects. *)
Lemma built_write h h2 vs l c c' :
  built h h2 vs -> h !! l = None -> h2 !! l = Some c ->
  (forall y, In y (cell_vals c') -> (forall l', y <> VRef l') \/ In y (cell_vals c)) ->
  built h (<[l:=c']> h2) vs.
Proof.
  intros (S1 & V1 & C1) Hn Hc Hvals. split; [|split].
  - apply map_subseteq_spec. intros i x Hi.
    rewrite lookup_insert_ne by congruence. exact (lookup_weaken _ _ _ _ Hi S1).
  - intros v l0 Hin ->. destruct (V1 _ l0 Hin eq_refl) as [Hn0 Hs0]. split; [assumption|].
    destruct (decide (l = l0)) as [->|Hne].
    + rewrite lookup_insert_eq. eauto.
    + rewrite lookup_insert_ne by assumption. assumption.
  - assert (Hlive : forall l', is_Some (h2 !! l') -> is_Some (<[l:=c']> h2 !! l')).
    { intros l' Hs. destruct (decide (l = l')) as [->|Hne].
      - rewrite lookup_insert_eq. eauto.
      - rewrite lookup_insert_ne by assumption. assumption. }
    intros l0 c0 Hn0 Hc0 v l' Hin ->.
    destruct (decide (l = l0)) as [<-|Hne].
    + rewrite lookup_insert_eq in Hc0. inversion Hc0; subst c0.
      destruct (Hvals _ Hin) as [Hno|Hold]; [destruct (Hno l' eq_refl)|].
      destruct (C1 l c Hn Hc _ l' Hold eq_refl) as [Hn' Hs']. auto.
    + rewrite lookup_insert_ne in Hc0 by assumption.
      destruct (C1 l0 c0 Hn0 Hc0 _ l' Hin eq_refl) as [Hn' Hs']. auto.
Qed.

(** What is reached from a new object is new. *)
Lemma built_reachable h h' vs v l :
  built h h' vs -> reachable h' v l -> newv h v -> h !! l = None.
Proof.
  intros (S1 & V1 & C1) Hr. induction Hr as [l|l c v l' Hc Hin Hr IH]; intros Hn.
  - apply Hn. reflexivity.
  - apply IH. intros l0 ->.
    exact (proj1 (C1 l c (Hn l eq_refl) Hc _ l0 Hin eq_refl)).
Qed.

Lemma obj_set_entries m h k (ps : props) (o : obj) :
  Forall2 (fun kv kt => kv.1 = kt.1 /\ snapshot m h kv.2 = Some kt.2) ps o ->
  Forall2 (fun kv kt => kv.1 = kt.1 /\ snapshot m h kv.2 = Some kt.2)
    (obj_set k VUndefined ps) (obj_set k JUndefined o).
Proof.
  assert (Hu : snapshot m h VUndefined = Some JUndefined) by (destruct m; reflexivity).
  induction 1 as [|[k1 v1] [k2 t2] ps o [E1 E2] Hf IH]; simpl.
  - constructor; [|constructor]. split; [reflexivity|exact Hu].
  - simpl in E1. subst k2. destruct (String.eqb k k1).
    + constructor; [|assumption]. split; [reflexivity|exact Hu].
    + constructor; [|assumption]. split; [reflexivity|exact E2].
Qed.

End Copy.

(** ** The copy of the record *)

Section Recover.
Import Store Frame StoreView.

(** [JSON.parse(JSON.stringify(v))] of a value that has a tree: a new
    value that reads as the JSON copy of the tree. *)
Lemma JSON_clone_copy v t h :
  v <> VUndefined -> snapshot (S (size h)) h v = Some t ->
  exists v' h' fuel,
    run (JSON_clone v) h = (Ret v', h')
    /\ snapshot fuel h' v' = Some (clone_value t)
    /\ built h h' [v'].
Proof.
  intros Hv Hs.
  pose proof (alloc_tree_built (clone_value t) h) as Hb.
  destruct (alloc_tree_snapshot (clone_value t) h) as [n Hn].
  assert (E : run (JSON_clone v) h
              = (Ret (alloc_tree (clone_value t) h).1, (alloc_tree (clone_value t) h).2)).
  { unfold JSON_clone, run. destruct v; try contradiction; rewrite Hs;
      destruct (alloc_tree (clone_value t) h); reflexivity. }
  exists (alloc_tree (clone_value t) h).1, (alloc_tree (clone_value t) h).2, n.
  split; [exact E|]. split; [|exact Hb]. apply Hn; [lia|reflexivity].
Qed.

(** On a parent result that carries a record, the first statement of the
    resolver copies the record. *)
Lemma recover_carries source info parentIdentifier record ls lx ld h :
  carries h source parentIdentifier record ls lx ld ->
  getParentIdentifier info = Ret parentIdentifier ->
  parentIdentifier <> "" ->
  run (recover source info) h = run (JSON_clone record) h.
Proof.
  intros [-> (cs & Hcs & Hx) (cx & Hcx & Hd & _) (pd & Hpd & Hrec) _] Hp Hne.
  assert (G1 : runR (get_prop (VRef ls) OPENAPI_TO_GRAPHQL) h = Ret (VRef lx)).
  { unfold get_prop, runR. rewrite Hcs, Hx. reflexivity. }
  assert (G2 : runR (get_prop (VRef lx) "data") h = Ret (VRef ld)).
  { unfold get_prop, runR. rewrite Hcx, Hd. reflexivity. }
  assert (G3 : runR (js_in parentIdentifier (VRef ld)) h = Ret true).
  { unfold js_in, runR. rewrite Hpd. simpl. unfold obj_has. rewrite Hrec. reflexivity. }
  assert (G4 : runR (get_prop (VRef ld) parentIdentifier) h = Ret record).
  { unfold get_prop, runR. rewrite Hpd. simpl. unfold read_props. rewrite Hrec.
    reflexivity. }
  assert (G0 : runR (has_hidden (VRef ls)) h = Ret true).
  { unfold has_hidden. simpl (truthy _ && _). cbv iota. rewrite runR_bind, G1.
    reflexivity. }
  unfold recover.
  rewrite run_bind, run_read, G0. cbv iota beta.
  rewrite run_bind, run_read, G1. cbv iota beta.
  rewrite run_bind, run_read, G2. cbv iota beta.
  change (is_object (VRef ld)) with true. cbv iota.
  rewrite run_bind, run_lift, Hp. cbv iota beta.
  destruct (String.eqb_spec parentIdentifier "") as [->|_]; [contradiction|].
  simpl negb. cbv iota.
  rewrite run_bind, run_read, G3. cbv iota beta.
  rewrite run_bind, run_read, G4. reflexivity.
Qed.

End Recover.

(** C8.  The parent result [source] carries the record [record] under the
    identifier of the parent path, and [args] is an object of its own: not
    the parent result, its hidden field or the map of records, and not part
    of the record; the record is not part of a cycle through the map that
    holds it.  Then after a run of the resolver, whatever its outcome, the
    parent result still carries the same record under the same identifier,
    every object of the record is as it was, and reading the record gives
    the tree it gave before: default filling and link arguments are written
    to [args], the used parameters, payload and request options to the copy
    [JSON.parse(JSON.stringify(..))] made of the record, and the map of
    records gains the entry of the field only.  The copy is a deep one:
    when the record has a tree, the first statement of the resolver returns
    a value that reads as the JSON copy of that tree and reaches no object
    the store had.  (A run the model stops at, with the result
    [Unmodelled], is covered as far as the model follows it.) *)
Theorem parent_record_unchanged `{Collaborators}
    (static_value : json -> Store.val)
    (text_of : gmap positive Store.cell -> Store.val -> string)
    (JSONPath_in : option string -> gmap positive Store.cell -> Store.val
                   -> result (option (list Store.val)))
    (encode_payload : gmap positive Store.cell -> bool -> Store.val -> result Store.val)
    (httpRequest_in : gmap positive Store.cell -> Store.val -> Store.val
                      -> result Response)
    (p : GetResolverParams) (baseUrl : string) (source args context : Store.val)
    (info : Path) (parentIdentifier : string) (record : Store.val)
    (ls lx ld : positive) (h h' : gmap positive Store.cell) (r : result Store.val) :
  Frame.carries h source parentIdentifier record ls lx ld ->
  getParentIdentifier info = Ret parentIdentifier ->
  key_isNaN (key info) = true ->
  (forall la, args = Store.VRef la ->
     is_Some (h !! la) /\ la <> ls /\ la <> lx /\ la <> ld
     /\ ~ Frame.reachable h record la) ->
  ~ Frame.reachable h record ld ->
  Store.run (StoreView.resolve static_value text_of JSONPath_in encode_payload
               httpRequest_in p baseUrl source args context info) h = (r, h') ->
  Frame.carries h' source parentIdentifier record ls lx ld
  /\ (forall l c, Frame.reachable h record l -> h !! l = Some c -> h' !! l = Some c)
  /\ (forall fuel t, Store.snapshot fuel h record = Some t ->
                     Store.snapshot fuel h' record = Some t)
  /\ (parentIdentifier <> "" -> record <> Store.VUndefined ->
      forall t, Store.snapshot (S (size h)) h record = Some t ->
      exists resolveData h1 fuel,
        Store.run (StoreView.recover source info) h = (Ret resolveData, h1)
        /\ Store.snapshot fuel h1 resolveData = Some (clone_value t)
        /\ h ⊆ h1
        /\ forall l, Frame.reachable h1 resolveData l -> h !! l = None).
Proof.
  intros Hc Hp Hk Hargs Hld E.
  destruct (identifier_apart _ _ Hp Hk) as [Hne Hid].
  set (W := Frame.locs_of args ∪ {[ld]}).
  pose proof Hc as [Es (cs & Hcs & Hx) (cx & Hcx & Hd & Hps) (pd & Hpd & Hrec) [A1 A2]].
  assert (Wargs : forall l, l ∈ Frame.locs_of args -> args = Store.VRef l).
  { intros l Hin. destruct args; simpl in Hin;
      try (exfalso; exact (not_elem_of_empty _ Hin)).
    apply elem_of_singleton in Hin. subst. reflexivity. }
  assert (Wls : ls ∉ W).
  { intros Hin. apply elem_of_union in Hin. destruct Hin as [Hin|Hin].
    - destruct (Hargs ls (Wargs ls Hin)) as (_ & Hn & _). congruence.
    - apply elem_of_singleton in Hin. congruence. }
  assert (Wlx : lx ∉ W).
  { intros Hin. apply elem_of_union in Hin. destruct Hin as [Hin|Hin].
    - destruct (Hargs lx (Wargs lx Hin)) as (_ & _ & Hn & _). congruence.
    - apply elem_of_singleton in Hin. congruence. }
  assert (Wld : ld ∈ W) by (apply elem_of_union; right; apply elem_of_singleton; reflexivity).
  assert (Hw : Frame.writable W h args).
  { intros l ->. right. apply elem_of_union. left. simpl. apply elem_of_singleton.
    reflexivity. }
  destruct (resolve_frame _ _ _ _ _ W h _ _ _ _ _ _ _ _ _ E (frame_refl W h) Hw
              (fun la Ea => proj1 (Hargs la Ea)) Hid
              (carries_src_ok W h _ _ _ _ _ _ Hc Wls Wlx Wld))
    as (F & h1 & F1 & K).
  assert (Hsame : forall l c, Frame.reachable h record l -> h !! l = Some c ->
            h' !! l = Some c).
  { intros l c Hr Hl. apply (proj2 (F l c Hl)). intros Hin.
    apply elem_of_union in Hin. destruct Hin as [Hin|Hin].
    - destruct (Hargs l (Wargs l Hin)) as (_ & _ & _ & _ & Hn). contradiction.
    - apply elem_of_singleton in Hin. subst. contradiction. }
  split; [|split; [exact Hsame|split]].
  - assert (Hld1 : h1 !! ld = Some (Store.Obj pd)).
    { apply (proj2 (F1 ld _ Hpd)). intros Hin.
      destruct (Hargs ld (Wargs ld Hin)) as (_ & _ & _ & Hn & _). congruence. }
    destruct (K ld pd (ex_intro _ _ Hpd) Hld1) as (pd' & Hpd' & Hkeep).
    split.
    + assumption.
    + exists cs. split; [exact (proj2 (F ls cs Hcs) Wls)|assumption].
    + exists cx. split; [exact (proj2 (F lx cx Hcx) Wlx)|]. split; assumption.
    + exists pd'. split; [assumption|]. rewrite Hkeep; [assumption|congruence].
    + split; assumption.
  - intros fuel t. apply snapshot_same. exact Hsame.
  - intros Hpid Hrecord t Ht.
    destruct (JSON_clone_copy record t h Hrecord Ht) as (rd & h0 & fuel & Er & Hs & Hb).
    exists rd, h0, fuel.
    rewrite (recover_carries _ _ _ _ _ _ _ _ Hc Hp Hpid).
    split; [exact Er|]. split; [exact Hs|]. split; [exact (proj1 Hb)|].
    intros l Hr. apply (built_reachable h h0 _ _ l Hb Hr).
    intros l0 ->. destruct Hb as (_ & V1 & _).
    exact (proj1 (V1 (Store.VRef l0) l0 (or_introl eq_refl) eq_refl)).
Qed.

(** C8 on the sample: the resolver of [friend] run on the parent store. *)
Lemma parent_record_unchanged_witness :
  Frame.carries (snd Example.child_run) (Store.VRef 1) "users" (Store.VRef 4) 1 2 3
  /\ (forall l c, Frame.reachable Example.parent_store (Store.VRef 4) l ->
        Example.parent_store !! l = Some c -> snd Example.child_run !! l = Some c)
  /\ (forall fuel t,
        Store.snapshot fuel Example.parent_store (Store.VRef 4) = Some t ->
        Store.snapshot fuel (snd Example.child_run) (Store.VRef 4) = Some t)
  /\ ("users" <> "" -> Store.VRef 4 <> Store.VUndefined ->
      forall t,
        Store.snapshot (S (size Example.parent_store)) Example.parent_store
          (Store.VRef 4) = Some t ->
        exists resolveData h1 fuel,
          Store.run (StoreView.recover (Store.VRef 1) Example.child_info)
            Example.parent_store = (Ret resolveData, h1)
          /\ Store.snapshot fuel h1 resolveData = Some (clone_value t)
          /\ Example.parent_store ⊆ h1
          /\ forall l, Frame.reachable h1 resolveData l ->
               Example.parent_store !! l = None).
Proof.
  assert (Hreach : forall l, Frame.reachable Example.parent_store (Store.VRef 4) l ->
            l = 4%positive).
  { intros l Hr. inversion Hr as [|l0 c v l' Hc Hin Hv]; subst; [reflexivity|].
    vm_compute in Hc. inversion Hc; subst c. simpl in Hin.
    destruct Hin as [<-|[]]. inversion Hv. }
  refine (parent_record_unchanged (H:=Example.toy) _ _ _ _ _ _ _ _ (Store.VRef 5) _
            Example.child_info "users" (Store.VRef 4) 1 2 3
            Example.parent_store (snd Example.child_run) (fst Example.child_run)
            _ _ _ _ _ _).
  - split.
    + reflexivity.
    + eexists. split; reflexivity.
    + eexists. split; [reflexivity|]. split; [reflexivity|].
      intros k v [E|[]]. inversion E; subst. split; [discriminate|reflexivity].
    + eexists. split; reflexivity.
    + split; discriminate.
  - reflexivity.
  - reflexivity.
  - intros la E. inversion E; subst la.
    split; [eexists; reflexivity|]. repeat (split; [discriminate|]).
    intros Hr. apply Hreach in Hr. discriminate.
  - intros Hr. apply Hreach in Hr. discriminate.
  - apply surjective_pairing.
Defined.

(** The run on the sample returns the shaped result; the map of records
    has gained the entry of the field, next to the record of the parent. *)
Example child_run_attaches :
  fst Example.child_run = Ret (Store.VRef 12)
  /\ snd Example.child_run !! 3%positive
     = Some (Store.Obj [("users", Store.VRef 4); ("friend/users", Store.VRef 6)])
  /\ snd Example.child_run !! 12%positive
     = Some (Store.Obj [(OPENAPI_TO_GRAPHQL, Store.VRef 14)])
  /\ snd Example.child_run !! 14%positive = Some (Store.Obj [("data", Store.VRef 3)]).
Proof. vm_compute. repeat split; reflexivity. Qed.

(** ** What the copy of the parent result holds *)

Section CopyContent.

Lemma clone_object (o : obj) : exists o', clone_value (JObj o) = JObj o'.
Proof. simpl. eauto. Qed.

Lemma clone_props_cons k y (r : obj) :
  clone_value (JObj ((k, y) :: r))
  = match clone_value (JObj r) with
    | JObj r' => JObj (if is_undefined y then r' else (k, clone_value y) :: r')
    | other => other
    end.
Proof. destruct y; reflexivity. Qed.

(** A property of an object that holds a value is a property of the copy,
    and holds the copy of the value. *)
Lemma clone_value_get k x (o o' : obj) :
  clone_value (JObj o) = JObj o' -> obj_get k o = Some x -> x <> JUndefined ->
  obj_get k o' = Some (clone_value x).
Proof.
  revert o'. induction o as [|[k0 y] r IH]; intros o' Hc Hg Hx; [discriminate|].
  rewrite clone_props_cons in Hc. destruct (clone_object r) as [r' Hr].
  rewrite Hr in Hc. simpl in Hg.
  destruct (String.eqb_spec k k0) as [->|Hne].
  - inversion Hg; subst y. destruct x; try contradiction;
      inversion Hc; subst; simpl; rewrite String.eqb_refl; reflexivity.
  - pose proof (IH r' Hr Hg Hx) as Hi.
    destruct (is_undefined y); inversion Hc; subst; [assumption|].
    simpl. destruct (String.eqb_spec k k0); [contradiction|assumption].
Qed.

(** A name under which the object holds no value (no property, or
    [undefined]) is no property of the copy. *)
Lemma clone_value_absent k (o o' : obj) :
  clone_value (JObj o) = JObj o' -> (forall x, In (k, x) o -> x = JUndefined) ->
  obj_has k o' = false.
Proof.
  unfold obj_has.
  revert o'. induction o as [|[k0 y] r IH]; intros o' Hc Hg.
  - inversion Hc; subst. reflexivity.
  - rewrite clone_props_cons in Hc. destruct (clone_object r) as [r' Hr].
    rewrite Hr in Hc.
    pose proof (IH r' Hr (fun x Hx => Hg x (or_intror Hx))) as Hi.
    destruct (String.eqb_spec k k0) as [->|Hne].
    + rewrite (Hg y (or_introl eq_refl)) in Hc. inversion Hc; subst. assumption.
    + destruct (is_undefined y); inversion Hc; subst; [assumption|].
      simpl. destruct (String.eqb_spec k k0); [contradiction|assumption].
Qed.

(** What [JSON.parse] produces is its own copy. *)
Lemma clone_value_JSON v : is_JSON v = true -> clone_value v = v.
Proof.
  induction v as [| |b|n|s|es ps IHes _|ps IHps] using json_tree_ind;
    intros Hj; try reflexivity; try discriminate.
  - simpl in Hj. apply andb_true_iff in Hj. destruct Hj as [He Hp].
    destruct ps; [|discriminate]. simpl. f_equal.
    induction es as [|x r IHr]; [reflexivity|].
    simpl in He. apply andb_true_iff in He. destruct He as [Hx Hr].
    apply Forall_cons in IHes. destruct IHes as [Ix Ir].
    simpl. f_equal; auto.
  - induction ps as [|[k x] r IHr]; [reflexivity|].
    apply Forall_cons in IHps. destruct IHps as [Ix Ir].
    assert (Hj' : is_JSON x = true /\ is_JSON (JObj r) = true).
    { simpl in Hj. apply andb_true_iff in Hj. exact Hj. }
    destruct Hj' as [Hx Hr]. rewrite clone_props_cons, (IHr Ir Hr).
    simpl in Ix. rewrite (Ix Hx). destruct x; try reflexivity. discriminate.
Qed.

End CopyContent.

(** C10.  The parent result is a plain object of the store that reads as
    the tree [t].  Then [$response.body] evaluates to a new object [v]:
    the store keeps every object it had, nothing reached from [v] is an
    object the store had, [v] reads as the tree the value view computes
    from [t] (the JSON copy of [t], with the hidden field set to
    [undefined]), and the hidden field of [v] reads [undefined].  The copy
    holds what the parent result holds: every property of the parent
    result other than the hidden field whose value is JSON data is a
    property of the copy with the same value, to any depth, and a name
    under which the parent result holds no value (no property, or
    [undefined]) is no property of the copy. *)
Theorem response_body_copy `{Collaborators}
    (JSONPath_in : option string -> gmap positive Store.cell -> Store.val
                   -> result (option (list Store.val)))
    (paramName : string) (resolveData : Store.val) (resolveDataTree : json) (args : obj)
    (l0 : positive) (ps0 : Store.props) (t : json) (h : gmap positive Store.cell) :
  h !! l0 = Some (Store.Obj ps0) ->
  Store.snapshot (S (size h)) h (Store.VRef l0) = Some t ->
  exists v h' fuel t',
    Store.run (StoreView.resolveRuntimeExpression JSONPath_in paramName "$response.body"
                 resolveData (Store.VRef l0)) h = (Ret v, h')
    /\ Runtime.resolveRuntimeExpression paramName "$response.body" resolveDataTree t args
       = Ret t'
    /\ Store.snapshot fuel h' v = Some t'
    /\ get_prop t' OPENAPI_TO_GRAPHQL = Ret JUndefined
    /\ Store.runR (Store.get_prop v OPENAPI_TO_GRAPHQL) h' = Ret Store.VUndefined
    /\ (forall k x, k <> OPENAPI_TO_GRAPHQL -> get_prop t k = Ret x ->
          is_JSON x = true -> get_prop t' k = Ret x)
    /\ (forall k, k <> OPENAPI_TO_GRAPHQL ->
          (forall x, In (k, x) (own_props t) -> x = JUndefined) ->
          js_in k t' = Ret false)
    /\ h ⊆ h'
    /\ forall l, Frame.reachable h' v l -> h !! l = None.
Proof.
  intros Hl0 Hsnap.
  assert (Ht : exists o, t = JObj o).
  { simpl in Hsnap. rewrite Hl0 in Hsnap.
    destruct (mapM _ ps0) as [o|]; [|discriminate]. inversion Hsnap. eauto. }
  destruct Ht as [o ->].
  assert (Hclone : exists o', clone_value (JObj o) = JObj o') by (simpl; eauto).
  destruct Hclone as [o' Hclone].
  change (StoreView.resolveRuntimeExpression JSONPath_in paramName "$response.body"
            resolveData (Store.VRef l0))
    with (result ← Store.JSON_clone (Store.VRef l0);
          Store.set_prop result OPENAPI_TO_GRAPHQL Store.VUndefined ;; mret result).
  change (Runtime.resolveRuntimeExpression paramName "$response.body" resolveDataTree
            (JObj o) args)
    with (result ← JSON_clone (JObj o); set_prop result OPENAPI_TO_GRAPHQL JUndefined).
  pose proof (alloc_tree_built (JObj o') h) as Hb.
  destruct (alloc_props_snapshot o'
              (Forall_true _ _ (fun kv => alloc_tree_snapshot kv.2)) h) as [n Hn].
  pose proof (alloc_props_grows o' h) as Hg.
  simpl in Hb. destruct (Store.alloc_props Store.alloc_tree o' h) as [ps h1] eqn:Ep.
  simpl in Hb, Hn, Hg.
  set (l := fresh (dom h1)) in *.
  set (h2 := <[l:=Store.Obj ps]> h1) in *.
  set (h' := <[l:=Store.Obj (obj_set OPENAPI_TO_GRAPHQL Store.VUndefined ps)]> h2).
  assert (Erun : Store.run (Store.JSON_clone (Store.VRef l0)) h = (Ret (Store.VRef l), h2)).
  { unfold Store.JSON_clone, Store.run. rewrite Hsnap, Hclone. simpl. rewrite Ep.
    reflexivity. }
  assert (Eset : Store.run (Store.set_prop (Store.VRef l) OPENAPI_TO_GRAPHQL
                              Store.VUndefined) h2 = (Ret tt, h')).
  { unfold Store.set_prop, Store.run, h2. rewrite lookup_insert_eq. reflexivity. }
  assert (S1 : h1 ⊆ h').
  { unfold h', h2. rewrite insert_insert_eq. apply alloc_subseteq. }
  assert (Hnew : h !! l = None).
  { destruct Hb as (_ & V1 & _).
    exact (proj1 (V1 (Store.VRef l) l (or_introl eq_refl) eq_refl)). }
  assert (Hb' : Frame.built h h' [Store.VRef l]).
  { apply (built_write h h2 _ l (Store.Obj ps)); [assumption|assumption| |].
    - unfold h2. apply lookup_insert_eq.
    - intros y Hin. simpl in Hin. apply obj_set_vals in Hin.
      destruct Hin as [->|Hin]; [left; intros l'; discriminate|right; assumption]. }
  exists (Store.VRef l), h', (S n),
    (JObj (obj_set OPENAPI_TO_GRAPHQL JUndefined o')).
  split; [|split; [|split; [|split; [|split; [|split; [|split; [|split]]]]]]].
  - rewrite run_bind, Erun, run_bind, Eset. reflexivity.
  - change (JSON_clone (JObj o)) with (Ret (clone_value (JObj o)) : result json).
    rewrite Hclone. reflexivity.
  - simpl. unfold h' at 1. rewrite lookup_insert_eq.
    rewrite (entries_Some n h' _ _
               (obj_set_entries n h' OPENAPI_TO_GRAPHQL ps o' (Hn n h' (le_n n) S1))).
    reflexivity.
  - simpl. rewrite obj_read_set_eq. reflexivity.
  - unfold Store.get_prop, Store.runR, h'. rewrite lookup_insert_eq. simpl.
    rewrite read_props_set_eq. reflexivity.
  - intros k x Hk Hget Hj. simpl in Hget. injection Hget as Hx.
    unfold obj_read in Hx. destruct (obj_get k o) as [y|] eqn:Hy;
      [subst y|subst x; discriminate].
    assert (Hu : x <> JUndefined) by (intros ->; discriminate).
    simpl. rewrite obj_read_set_ne by congruence. unfold obj_read.
    rewrite (clone_value_get k x o o' Hclone Hy Hu), (clone_value_JSON x Hj).
    reflexivity.
  - intros k Hk Hin. simpl in Hin.
    simpl. rewrite obj_has_set_ne by congruence.
    rewrite (clone_value_absent k o o' Hclone Hin). reflexivity.
  - exact (proj1 Hb').
  - intros l1 Hr. apply (built_reachable h h' _ _ l1 Hb' Hr).
    intros l2 E2. inversion E2; subst. assumption.
Qed.

(** C10 on the sample: [$response.body] of the parent result. *)
Lemma response_body_copy_witness :
  exists v h' fuel t',
    Store.run (StoreView.resolveRuntimeExpression (H:=Example.toy)
                 (fun _ _ _ => Ret None) "id" "$response.body"
                 Store.VUndefined (Store.VRef 1)) Example.parent_store = (Ret v, h')
    /\ Runtime.resolveRuntimeExpression (H:=Example.toy) "id" "$response.body"
         JUndefined Example.parent_tree [] = Ret t'
    /\ Store.snapshot fuel h' v = Some t'
    /\ get_prop t' OPENAPI_TO_GRAPHQL = Ret JUndefined
    /\ Store.runR (Store.get_prop v OPENAPI_TO_GRAPHQL) h' = Ret Store.VUndefined
    /\ (forall k x, k <> OPENAPI_TO_GRAPHQL -> get_prop Example.parent_tree k = Ret x ->
          is_JSON x = true -> get_prop t' k = Ret x)
    /\ (forall k, k <> OPENAPI_TO_GRAPHQL ->
          (forall x, In (k, x) (own_props Example.parent_tree) -> x = JUndefined) ->
          js_in k t' = Ret false)
    /\ Example.parent_store ⊆ h'
    /\ forall l, Frame.reachable h' v l -> Example.parent_store !! l = None.
Proof.
  apply (response_body_copy (H:=Example.toy) (fun _ _ _ => Ret None) "id"
           Store.VUndefined JUndefined [] 1
           [("id", Store.VNum 7); (OPENAPI_TO_GRAPHQL, Store.VRef 2)]
           Example.parent_tree Example.parent_store).
  - reflexivity.
  - vm_compute. reflexivity.
Defined.

(** * More of the module *)

(** ** Identifiers of sibling fields *)

Section Siblings.

Lemma append_cancel_r (a b s : string) : a ++ s = b ++ s -> a = b.
Proof.
  revert b. induction a as [|c a IH]; intros [|d b] E; simpl in E.
  - reflexivity.
  - apply (f_equal String.length) in E. simpl in E.
    rewrite ?length_append in E. simpl in E. lia.
  - apply (f_equal String.length) in E. simpl in E.
    rewrite ?length_append in E. simpl in E. lia.
  - inversion E; subst. f_equal. apply IH. assumption.
Qed.

End Siblings.

(** X1.  Two fields of the same parent with different keys (aliases or names,
    no list index) never get the same identifier: their records do not
    collide in the [data] map. *)
Theorem sibling_identifiers_differ (q : Path) (k1 k2 : PathKey) :
  key_isNaN k1 = true -> key_isNaN k2 = true ->
  key_text k1 <> key_text k2 ->
  getIdentifier (PathNode (Some q) k1) <> getIdentifier (PathNode (Some q) k2).
Proof.
  intros H1 H2 Hne E. unfold getIdentifier in E. simpl in E. rewrite H1, H2 in E.
  apply Hne. apply (append_cancel_r _ _ ("/" ++ getIdentifierRecursive q)). exact E.
Qed.

Lemma sibling_identifiers_differ_witness :
  getIdentifier (PathNode (Some Example.root_info) (Field "friend"))
  <> getIdentifier (PathNode (Some Example.root_info) (Field "employer")).
Proof.
  apply (sibling_identifiers_differ Example.root_info (Field "friend") (Field "employer"));
    [reflexivity|reflexivity|discriminate].
Defined.

(** ** Writing and reading a property *)

Section RoundTrip.

Lemma nth_insert_eq (l : list json) (i : nat) (v d : json) :
  (i < length l)%nat -> nth i (<[i:=v]> l) d = v.
Proof.
  revert i. induction l as [|x l IH]; intros [|i] Hi; simpl in *; try lia.
  - reflexivity.
  - apply IH. lia.
Qed.

Lemma nth_grown (l : list json) (i : nat) (v d : json) :
  (length l <= i)%nat ->
  nth i (l ++ replicate (i - length l) JUndefined ++ [v])%list d = v.
Proof.
  intros Hi. rewrite app_nth2 by lia. rewrite app_nth2 by (rewrite length_replicate; lia).
  rewrite length_replicate. replace (i - length l - (i - length l))%nat with 0%nat by lia.
  reflexivity.
Qed.

(** What was written is read back. *)
Lemma set_prop_get_prop t k v t' : set_prop t k v = Ret t' -> get_prop t' k = Ret v.
Proof.
  destruct t as [| | | | |l ps|o]; simpl; try discriminate.
  - destruct (String.eqb k "length") eqn:El; [discriminate|].
    destruct (array_index k) as [i|] eqn:Ei.
    + destruct (bool_decide (i < length l)%nat) eqn:Eb; intros E; inversion E; subst;
        simpl; rewrite El, Ei; f_equal.
      * apply bool_decide_eq_true in Eb. apply nth_insert_eq. assumption.
      * apply bool_decide_eq_false in Eb. apply nth_grown. lia.
    + intros E. inversion E; subst. simpl. rewrite El, Ei. f_equal.
      apply obj_read_set_eq.
  - intros E. inversion E; subst. simpl. f_equal. apply obj_read_set_eq.
Qed.

End RoundTrip.

(** ** The record a resolver attaches is the record its children recover *)

Section Handed.
Import Store Frame StoreView.
Implicit Types (h : store) (l : loc).

Lemma run_bind_Ret {A B} (m : M A) (k : A -> M B) h a h1 :
  run m h = (Ret a, h1) -> run (m ≫= k) h = run (k a) h1.
Proof. intros E. rewrite run_bind, E. reflexivity. Qed.

Lemma get_prop_at l c k h :
  h !! l = Some c -> runR (get_prop (VRef l) k) h = Ret (cell_read k c).
Proof. intros E. unfold get_prop, runR. rewrite E. reflexivity. Qed.

Lemma read_prop_at l c k h :
  h !! l = Some c -> run (read (get_prop (VRef l) k)) h = (Ret (cell_read k c), h).
Proof. intros E. rewrite run_read, (get_prop_at _ _ _ _ E). reflexivity. Qed.

Lemma set_prop_at l ps k v h :
  h !! l = Some (Obj ps) ->
  run (set_prop (VRef l) k v) h = (Ret tt, <[l:=Obj (obj_set k v ps)]> h).
Proof. intros E. unfold set_prop, run. rewrite E. reflexivity. Qed.

Lemma set_props_at l (px : props) : forall (p : props) h,
  h !! l = Some (Obj p) ->
  run (set_props (VRef l) px) h = (Ret tt, <[l:=Obj (obj_assign p px)]> h).
Proof.
  induction px as [|[k v] r IH]; intros p h E.
  - simpl. unfold obj_assign. simpl. rewrite insert_id by assumption. reflexivity.
  - rewrite set_props_cons, (run_bind_Ret _ _ _ _ _ (set_prop_at _ _ k v _ E)).
    rewrite (IH (obj_set k v p)) by apply lookup_insert_eq.
    rewrite insert_insert_eq. reflexivity.
Qed.

(** After [Object.assign] the target holds under [k] what the source holds
    under [k], when the source holds one value there. *)
Lemma obj_get_assign_all {A} k (x : A) (px : list (string * A)) :
  forall p : list (string * A),
  (forall v, In (k, v) px -> v = x) ->
  obj_get k p = Some x \/ obj_has k px = true ->
  obj_get k (obj_assign p px) = Some x.
Proof.
  unfold obj_assign, obj_has.
  induction px as [|[k0 v0] r IH]; intros p Hall Hk; simpl.
  - destruct Hk as [Hk|Hk]; [assumption|discriminate].
  - apply IH; [intros v Hv; apply Hall; right; assumption|].
    simpl in Hk. destruct (String.eqb_spec k k0) as [->|Hne].
    + left. rewrite (Hall v0 (or_introl eq_refl)). apply obj_get_set_eq.
    + destruct Hk as [Hk|Hk]; [left|right; assumption].
      rewrite obj_get_set_ne by congruence. assumption.
Qed.

(** [has_hidden] looks at the parent result only. *)
Lemma has_hidden_kept source h h' b :
  runR (has_hidden source) h = Ret b ->
  (forall l c, source = VRef l -> h !! l = Some c -> h' !! l = Some c) ->
  runR (has_hidden source) h' = Ret b.
Proof.
  unfold has_hidden. intros Hr Hk.
  destruct source as [| |b0|n|s|l]; simpl is_object in *;
    rewrite ?andb_false_r in *; try exact Hr.
  simpl in Hr |- *.
  destruct (h !! l) as [c|] eqn:E; [|discriminate].
  rewrite (Hk l c eq_refl E). exact Hr.
Qed.

(** Where the record is found, the first statement of the resolver copies
    it. *)
Lemma recover_found l cs lx cx ld pd info parentIdentifier record h :
  h !! l = Some cs -> cell_read OPENAPI_TO_GRAPHQL cs = VRef lx ->
  h !! lx = Some cx -> cell_read "data" cx = VRef ld ->
  h !! ld = Some (Obj pd) -> obj_get parentIdentifier pd = Some record ->
  getParentIdentifier info = Ret parentIdentifier -> parentIdentifier <> "" ->
  run (recover (VRef l) info) h = run (JSON_clone record) h.
Proof.
  intros Hcs Hx Hcx Hd Hpd Hrec Hp Hne.
  assert (G1 : runR (get_prop (VRef l) OPENAPI_TO_GRAPHQL) h = Ret (VRef lx)).
  { rewrite (get_prop_at _ _ _ _ Hcs), Hx. reflexivity. }
  assert (G2 : runR (get_prop (VRef lx) "data") h = Ret (VRef ld)).
  { rewrite (get_prop_at _ _ _ _ Hcx), Hd. reflexivity. }
  assert (G3 : runR (js_in parentIdentifier (VRef ld)) h = Ret true).
  { unfold js_in, runR. rewrite Hpd. simpl. unfold obj_has. rewrite Hrec. reflexivity. }
  assert (G4 : runR (get_prop (VRef ld) parentIdentifier) h = Ret record).
  { rewrite (get_prop_at _ _ _ _ Hpd). simpl. unfold read_props. rewrite Hrec.
    reflexivity. }
  assert (G0 : runR (has_hidden (VRef l)) h = Ret true).
  { unfold has_hidden. simpl (truthy _ && _). cbv iota. rewrite runR_bind, G1.
    reflexivity. }
  unfold recover.
  rewrite run_bind, run_read, G0. cbv iota beta.
  rewrite run_bind, run_read, G1. cbv iota beta.
  rewrite run_bind, run_read, G2. cbv iota beta.
  change (is_object (VRef ld)) with true. cbv iota.
  rewrite run_bind, run_lift, Hp. cbv iota beta.
  destruct (String.eqb_spec parentIdentifier "") as [->|_]; [contradiction|].
  simpl negb. cbv iota.
  rewrite run_bind, run_read, G3. cbv iota beta.
  rewrite run_bind, run_read, G4. reflexivity.
Qed.

(** The children of a field: a field of the result, or a field of an
    element of a list result.  Their parent identifier is the identifier
    of the field. *)
Lemma child_parent_identifier (info : Path) (k : PathKey) (i : nat) :
  getParentIdentifier (PathNode (Some info) k) = Ret (getIdentifier info)
  /\ getParentIdentifier (PathNode (Some (PathNode (Some info) (Index i))) k)
     = Ret (getIdentifier info).
Proof. split; reflexivity. Qed.

(** What one round of [attach] does to the store: the object carries the
    record, the map handed down has gained it, and every other object the
    store had is as it was. *)
Lemma attach_one_effect source shared id rd le ps h :
  h !! le = Some (Obj ps) -> obj_get OPENAPI_TO_GRAPHQL ps = None ->
  parent_map h source shared [le] ->
  exists h',
    run (attach_one source id rd (VRef le)) h = (Ret tt, h')
    /\ attached h h' shared id rd le
    /\ (forall l, l <> le -> shared <> Some l -> is_Some (h !! l) -> h' !! l = h !! l)
    /\ (forall ld pd, shared = Some ld -> h !! ld = Some (Obj pd) ->
          h' !! ld = Some (Obj (obj_set id rd pd)))
    /\ (forall l, is_Some (h !! l) -> is_Some (h' !! l)).
Proof.
  intros Hle Hx [Hsrc Hpm].
  assert (Hsle : source <> VRef le) by (apply Hsrc; left; reflexivity).
  set (l1 := fresh (dom h)). set (h1 := <[l1:=Obj []]> h).
  set (l2 := fresh (dom h1)). set (h2 := <[l2:=Obj [("data", VRef l1)]]> h1).
  set (h3 := <[le:=Obj (obj_set OPENAPI_TO_GRAPHQL (VRef l2) ps)]> h2).
  assert (N1 : h !! l1 = None) by apply fresh_lookup.
  assert (N2 : h1 !! l2 = None) by apply fresh_lookup.
  assert (D12 : l1 <> l2).
  { intros E. unfold h1 in N2. rewrite <- E, lookup_insert_eq in N2. discriminate. }
  assert (N2' : h !! l2 = None).
  { unfold h1 in N2. rewrite lookup_insert_ne in N2 by assumption. assumption. }
  assert (D1 : l1 <> le) by (intros E; rewrite E, Hle in N1; discriminate).
  assert (D2 : l2 <> le) by (intros E; rewrite E, Hle in N2'; discriminate).
  assert (Old : forall l, is_Some (h !! l) -> l <> l1 /\ l <> l2).
  { intros l [c Hc]. split; intros E; rewrite E in Hc; congruence. }
  assert (K3 : forall l, l <> le -> is_Some (h !! l) -> h3 !! l = h !! l).
  { intros l Hne Hs. destruct (Old l Hs) as [O1 O2]. unfold h3, h2, h1.
    rewrite !lookup_insert_ne by congruence. reflexivity. }
  assert (L3e : h3 !! le = Some (Obj (obj_set OPENAPI_TO_GRAPHQL (VRef l2) ps)))
    by apply lookup_insert_eq.
  assert (L32 : h3 !! l2 = Some (Obj [("data", VRef l1)])).
  { unfold h3, h2. rewrite lookup_insert_ne by congruence. apply lookup_insert_eq. }
  assert (L31 : h3 !! l1 = Some (Obj [])).
  { unfold h3, h2, h1. rewrite !lookup_insert_ne by congruence. apply lookup_insert_eq. }
  assert (Einit : run (d ← alloc (Obj []);
                       hidden ← alloc (Obj [("data", d)]);
                       set_prop (VRef le) OPENAPI_TO_GRAPHQL hidden) h = (Ret tt, h3)).
  { rewrite (run_bind_Ret _ _ _ _ _ (run_alloc _ _)).
    rewrite (run_bind_Ret _ _ _ _ _ (run_alloc _ _)).
    apply set_prop_at. unfold h2, h1.
    rewrite !lookup_insert_ne by congruence. assumption. }
  assert (Rx : cell_read OPENAPI_TO_GRAPHQL (Obj ps) = VUndefined).
  { simpl. unfold read_props. rewrite Hx. reflexivity. }
  assert (Rx3 : cell_read OPENAPI_TO_GRAPHQL
                  (Obj (obj_set OPENAPI_TO_GRAPHQL (VRef l2) ps)) = VRef l2)
    by apply read_props_set_eq.
  unfold attach_one.
  rewrite (run_bind_Ret _ _ _ _ _ (read_prop_at _ _ OPENAPI_TO_GRAPHQL _ Hle)), Rx.
  change (is_undefined VUndefined) with true. cbv iota.
  rewrite (run_bind_Ret _ _ _ _ _ Einit).
  destruct shared as [ld|].
  - destruct Hpm as (ls & lx & cs & px & pd & -> & Hls & Hcx & Hlx & Hd & Hall & Hld
                     & Dls & Dlx & Nlx & Nld).
    assert (Dse : ls <> le) by congruence.
    assert (Dxe : lx <> le) by (intros E; apply Nlx; left; congruence).
    assert (Dde : ld <> le) by (intros E; apply Nld; left; congruence).
    assert (L3s : h3 !! ls = Some cs) by (rewrite K3; eauto).
    assert (L3x : h3 !! lx = Some (Obj px)) by (rewrite K3; eauto).
    assert (L3d : h3 !! ld = Some (Obj pd)) by (rewrite K3; eauto).
    destruct (Old ld (ex_intro _ _ Hld)) as [Od1 Od2].
    assert (Hh : run (read (has_hidden (VRef ls))) h3 = (Ret true, h3)).
    { rewrite run_read. unfold has_hidden. simpl (truthy _ && _). cbv iota.
      rewrite runR_bind, (get_prop_at _ _ _ _ L3s), Hcx. reflexivity. }
    rewrite (run_bind_Ret _ _ _ _ _ Hh). cbv iota.
    set (h4 := <[l2:=Obj (obj_assign [("data", VRef l1)] px)]> h3).
    assert (Eas : run (target ← read (get_prop (VRef le) OPENAPI_TO_GRAPHQL);
                       src ← read (get_prop (VRef ls) OPENAPI_TO_GRAPHQL);
                       assign_stmt target src) h3 = (Ret tt, h4)).
    { rewrite (run_bind_Ret _ _ _ _ _ (read_prop_at _ _ OPENAPI_TO_GRAPHQL _ L3e)), Rx3.
      rewrite (run_bind_Ret _ _ _ _ _ (read_prop_at _ _ OPENAPI_TO_GRAPHQL _ L3s)), Hcx.
      unfold assign_stmt.
      assert (Eo : run (read (own_props (VRef lx))) h3 = (Ret px, h3)).
      { rewrite run_read. unfold own_props, runR. rewrite L3x. reflexivity. }
      rewrite (run_bind_Ret _ _ _ _ _ Eo).
      apply set_props_at. assumption. }
    rewrite (run_bind_Ret _ _ _ _ _ Eas).
    assert (L4e : h4 !! le = Some (Obj (obj_set OPENAPI_TO_GRAPHQL (VRef l2) ps))).
    { unfold h4. rewrite lookup_insert_ne by congruence. assumption. }
    assert (L42 : h4 !! l2 = Some (Obj (obj_assign [("data", VRef l1)] px)))
      by apply lookup_insert_eq.
    assert (L4d : h4 !! ld = Some (Obj pd)).
    { unfold h4. rewrite lookup_insert_ne by congruence. assumption. }
    assert (Rd : read_props "data" (obj_assign [("data", VRef l1)] px) = VRef ld).
    { unfold read_props.
      rewrite (obj_get_assign_all "data" (VRef ld) px _ Hall (or_intror Hd)).
      reflexivity. }
    rewrite (run_bind_Ret _ _ _ _ _ (read_prop_at _ _ OPENAPI_TO_GRAPHQL _ L4e)), Rx3.
    rewrite (run_bind_Ret _ _ _ _ _ (read_prop_at _ _ "data" _ L42)).
    change (cell_read "data" (Obj (obj_assign [("data", VRef l1)] px)))
      with (read_props "data" (obj_assign [("data", VRef l1)] px)).
    rewrite Rd, (set_prop_at _ _ id rd _ L4d).
    eexists. split; [reflexivity|]. split; [|split; [|split]].
    + exists (obj_set OPENAPI_TO_GRAPHQL (VRef l2) ps), l2,
        (obj_assign [("data", VRef l1)] px), ld, (obj_set id rd pd).
      rewrite !(lookup_insert_ne _ ld) by congruence.
      rewrite lookup_insert_eq.
      split; [exact L4e|]. split; [apply read_props_set_eq|].
      split; [exact N2'|]. split; [exact L42|]. split; [exact Rd|].
      split; [reflexivity|]. split; [apply obj_get_set_eq|reflexivity].
    + intros l Hne Hsh Hs. destruct (Old l Hs) as [O1 O2].
      rewrite lookup_insert_ne by congruence.
      unfold h4. rewrite lookup_insert_ne by congruence. apply K3; assumption.
    + intros ld' pd' E Hpd'. inversion E; subst ld'.
      rewrite Hld in Hpd'. inversion Hpd'; subst pd'. apply lookup_insert_eq.
    + intros l Hs. unfold h4, h3, h2, h1.
      rewrite !lookup_insert_is_Some'. auto 10.
  - assert (Hh : run (read (has_hidden source)) h3 = (Ret false, h3)).
    { rewrite run_read. f_equal. apply (has_hidden_kept source h h3 false Hpm).
      intros l c -> Hc. rewrite K3; [assumption|congruence|eauto]. }
    rewrite (run_bind_Ret _ _ _ _ _ Hh). cbv iota.
    assert (Em : run (mret tt : M unit) h3 = (Ret tt, h3)) by reflexivity.
    rewrite (run_bind_Ret _ _ _ _ _ Em).
    rewrite (run_bind_Ret _ _ _ _ _ (read_prop_at _ _ OPENAPI_TO_GRAPHQL _ L3e)), Rx3.
    rewrite (run_bind_Ret _ _ _ _ _ (read_prop_at _ _ "data" _ L32)).
    change (cell_read "data" (Obj [("data", VRef l1)])) with (VRef l1).
    rewrite (set_prop_at _ _ id rd _ L31).
    eexists. split; [reflexivity|]. split; [|split; [|split]].
    + exists (obj_set OPENAPI_TO_GRAPHQL (VRef l2) ps), l2, [("data", VRef l1)], l1,
        (obj_set id rd []).
      rewrite !(lookup_insert_ne _ l1) by congruence. rewrite lookup_insert_eq.
      split; [exact L3e|]. split; [apply read_props_set_eq|].
      split; [exact N2'|]. split; [exact L32|]. split; [reflexivity|].
      split; [reflexivity|]. split; [apply obj_get_set_eq|exact N1].
    + intros l Hne _ Hs. destruct (Old l Hs) as [O1 O2].
      rewrite lookup_insert_ne by congruence. apply K3; assumption.
    + intros ld pd E. discriminate.
    + intros l Hs. unfold h3, h2, h1. rewrite !lookup_insert_is_Some'. auto 10.
Qed.

(** The rounds over the elements of a list, one after the other. *)
Lemma attach_all_effect source shared id rd : forall todo h,
  NoDup todo ->
  (forall l, In l todo ->
     exists ps, h !! l = Some (Obj ps) /\ obj_get OPENAPI_TO_GRAPHQL ps = None) ->
  parent_map h source shared todo ->
  exists h',
    run (attach_all source id rd (map VRef todo)) h = (Ret tt, h')
    /\ (forall l, In l todo -> attached h h' shared id rd l)
    /\ (forall l, ~ In l todo -> shared <> Some l -> is_Some (h !! l) ->
          h' !! l = h !! l)
    /\ (forall ld pd, shared = Some ld -> h !! ld = Some (Obj pd) ->
          exists pd', h' !! ld = Some (Obj pd')
            /\ (obj_get id pd = Some rd -> obj_get id pd' = Some rd))
    /\ (forall l, is_Some (h !! l) -> is_Some (h' !! l)).
Proof.
  induction todo as [|le rest IH]; intros h Hnd Hobj Hpm.
  - exists h. split; [reflexivity|]. split; [intros l []|]. split; [auto|].
    split; [|auto]. intros ld pd _ Hpd. eauto.
  - apply NoDup_cons in Hnd. destruct Hnd as [Hle_rest Hnd].
    rewrite list_elem_of_In in Hle_rest.
    destruct (Hobj le (or_introl eq_refl)) as (ps & Hle & Hx).
    destruct Hpm as [Hsrc Hpm].
    assert (Hshared : forall ld, shared = Some ld ->
              ~ In ld (le :: rest) /\ exists pd, h !! ld = Some (Obj pd)).
    { intros ld ->. destruct Hpm as (ls & lx & cs & px & pd & _ & _ & _ & _ & _ & _
                                     & Hld & _ & _ & _ & Nld). eauto. }
    assert (Hpm1 : parent_map h source shared [le]).
    { split; [intros l [<-|[]]; apply Hsrc; left; reflexivity|].
      destruct shared as [ld|]; [|assumption].
      destruct Hpm as (ls & lx & cs & px & pd & Hpm).
      exists ls, lx, cs, px, pd.
      destruct Hpm as (E1 & E2 & E3 & E4 & E5 & E6 & E7 & E8 & E9 & Nlx & Nld).
      repeat (split; [assumption|]).
      split; intros [<-|[]]; [apply Nlx|apply Nld]; left; reflexivity. }
    destruct (attach_one_effect source shared id rd le ps h Hle Hx Hpm1)
      as (h1 & E1 & A1 & B1 & C1 & D1).
    assert (Same : forall l, In l rest -> h1 !! l = h !! l).
    { intros l Hin. destruct (Hobj l (or_intror Hin)) as (psl & Hl & _).
      apply B1; [congruence| |eauto].
      intros E. destruct (Hshared l E) as [Hn _]. apply Hn. right. assumption. }
    assert (Hobj1 : forall l, In l rest ->
              exists ps, h1 !! l = Some (Obj ps)
                         /\ obj_get OPENAPI_TO_GRAPHQL ps = None).
    { intros l Hin. rewrite (Same l Hin). apply Hobj. right. assumption. }
    assert (Hpmr : parent_map h1 source shared rest).
    { split; [intros l Hin; apply Hsrc; right; assumption|].
      destruct shared as [ld|].
      - destruct Hpm as (ls & lx & cs & px & pd & E0 & E2 & E3 & E4 & E5 & E6 & E7
                         & E8 & E9 & Nlx & Nld).
        exists ls, lx, cs, px, (obj_set id rd pd).
        assert (Dse : ls <> le).
        { intros E. apply (Hsrc le (or_introl eq_refl)). congruence. }
        assert (Dxe : lx <> le) by (intros E; apply Nlx; left; congruence).
        split; [assumption|].
        split; [rewrite B1; [assumption|assumption|congruence|eauto]|].
        split; [assumption|].
        split; [rewrite B1; [assumption|assumption|congruence|eauto]|].
        split; [assumption|]. split; [assumption|].
        split; [apply (C1 ld pd eq_refl E7)|].
        split; [assumption|]. split; [assumption|].
        split; intros Hin; [apply Nlx|apply Nld]; right; assumption.
      - apply (has_hidden_kept source h h1 false Hpm).
        intros l c -> Hc. rewrite B1; [assumption| |discriminate|eauto].
        intros E. apply (Hsrc le (or_introl eq_refl)). congruence. }
    destruct (IH h1 Hnd Hobj1 Hpmr) as (h' & E2 & A2 & B2 & C2 & D2).
    assert (Hnew : forall l, h !! l = None ->
              ~ In l rest /\ shared <> Some l /\ l <> le).
    { intros l Hn. split; [|split].
      - intros Hin. destruct (Hobj l (or_intror Hin)) as (psl & Hl & _). congruence.
      - intros E. destruct (Hshared l E) as (_ & pd & Hpd). congruence.
      - intros ->. congruence. }
    exists h'. split; [|split; [|split; [|split]]].
    + simpl map. simpl attach_all. rewrite (run_bind_Ret _ _ _ _ _ E1). exact E2.
    + intros l [<-|Hin].
      * destruct A1 as (ps1 & l2 & p2 & ld & pd & F1 & F2 & F3 & F4 & F5 & F6 & F7 & F8).
        destruct (Hnew l2 F3) as (G1 & G2 & G3).
        assert (Hle' : h' !! le = Some (Obj ps1)).
        { rewrite B2; [assumption|assumption| |eauto].
          intros E. destruct (Hshared le E) as [Hn _]. apply Hn. left. reflexivity. }
        assert (Hl2' : h' !! l2 = Some (Obj p2)) by (rewrite B2; eauto).
        destruct shared as [handed|].
        -- subst ld. destruct (C2 handed pd eq_refl F6) as (pd' & Hpd' & Hk).
           exists ps1, l2, p2, handed, pd'.
           repeat (split; [assumption|]). split; [auto|reflexivity].
        -- destruct (Hnew ld F8) as (G4 & G5 & G6).
           exists ps1, l2, p2, ld, pd.
           repeat (split; [assumption|]).
           split; [rewrite B2; eauto|]. split; assumption.
      * destruct (A2 l Hin) as (psl & l2 & p2 & ld & pd & F1 & F2 & F3 & F4 & F5 & F6
                                & F7 & F8).
        assert (Back : forall x, h1 !! x = None -> h !! x = None).
        { intros x Hx1. destruct (h !! x) as [c|] eqn:Ec; [|reflexivity].
          destruct (D1 x (ex_intro _ c Ec)) as [c1 Hc1]. congruence. }
        exists psl, l2, p2, ld, pd.
        split; [assumption|]. split; [assumption|]. split; [auto|].
        repeat (split; [assumption|]).
        destruct shared; [assumption|auto].
    + intros l Hn Hs Hl.
      assert (Hne : l <> le) by (intros ->; apply Hn; left; reflexivity).
      rewrite B2; [apply B1; assumption| |assumption|apply D1; assumption].
      intros Hin. apply Hn. right. assumption.
    + intros ld pd E Hpd.
      destruct (C2 ld (obj_set id rd pd) E (C1 ld pd E Hpd)) as (pd' & Hpd' & Hk).
      exists pd'. split; [assumption|]. intros _. apply Hk. apply obj_get_set_eq.
    + intros l Hl. apply D2, D1. assumption.
Qed.

End Handed.

(** X2.  The result of a field is a plain object, or a list of plain
    objects, and the parent result either has no hidden field or hands
    down its map of records.  Then attaching the record [resolveData]
    succeeds, and in the store it leaves, the resolver of every child field
    (a field of the result, or of an element of the list) starts from the
    JSON copy of [resolveData].  This is the state right after the run:
    the map handed down is one object for all the results below a parent,
    and a later run of the same field writes the same entry. *)
Theorem attached_record_recovered
    (source : Store.val) (info : Path) (resolveData saneData : Store.val)
    (targets : list positive) (shared : option positive)
    (h : gmap positive Store.cell) :
  Frame.result_objects h saneData targets ->
  Frame.parent_map h source shared targets ->
  getIdentifier info <> "" ->
  exists h',
    Store.run (StoreView.attach source (getIdentifier info) resolveData saneData) h
    = (Ret tt, h')
    /\ forall l k, In l targets ->
         Store.run (StoreView.recover (Store.VRef l) (PathNode (Some info) k)) h'
         = Store.run (Store.JSON_clone resolveData) h'
         /\ forall i,
              Store.run (StoreView.recover (Store.VRef l)
                           (PathNode (Some (PathNode (Some info) (Index i))) k)) h'
              = Store.run (Store.JSON_clone resolveData) h'.
Proof.
  intros (Hnd & Hobj & Hshape) Hpm Hne.
  assert (Hfound : forall h' l, Frame.attached h h' shared (getIdentifier info)
                                  resolveData l ->
            forall child, getParentIdentifier child = Ret (getIdentifier info) ->
              Store.run (StoreView.recover (Store.VRef l) child) h'
              = Store.run (Store.JSON_clone resolveData) h').
  { intros h' l (ps & l2 & p2 & ld & pd & F1 & F2 & F3 & F4 & F5 & F6 & F7 & F8)
      child Hc.
    exact (recover_found l (Store.Obj ps) l2 (Store.Obj p2) ld pd child _ _ h'
             F1 F2 F4 F5 F6 F7 Hc Hne). }
  assert (Hall : forall h', (forall l, In l targets ->
                    Frame.attached h h' shared (getIdentifier info) resolveData l) ->
            forall l k, In l targets ->
              Store.run (StoreView.recover (Store.VRef l) (PathNode (Some info) k)) h'
              = Store.run (Store.JSON_clone resolveData) h'
              /\ forall i,
                   Store.run (StoreView.recover (Store.VRef l)
                                (PathNode (Some (PathNode (Some info) (Index i))) k)) h'
                   = Store.run (Store.JSON_clone resolveData) h').
  { intros h' Ha l k Hin. split; [|intros i];
      apply (Hfound h' l (Ha l Hin)); apply (child_parent_identifier info k 0). }
  unfold StoreView.attach.
  destruct Hshape as [(l & -> & ->)|(la & ps & -> & Hla)].
  - destruct (Hobj l (or_introl eq_refl)) as (psl & Hl & Hx).
    destruct (attach_one_effect source shared (getIdentifier info) resolveData l psl h
                Hl Hx Hpm) as (h' & E & A & _).
    exists h'. split.
    + simpl andb. cbv iota.
      assert (Ee : Store.run (Store.read (StoreView.elements_of (Store.VRef l))) h
                   = (Ret None, h)).
      { rewrite run_read. unfold StoreView.elements_of, Store.runR. rewrite Hl.
        reflexivity. }
      rewrite (run_bind_Ret _ _ _ _ _ Ee). exact E.
    + apply Hall. intros l' [<-|[]]. exact A.
  - destruct (attach_all_effect source shared (getIdentifier info) resolveData targets h
                Hnd Hobj Hpm) as (h' & E & A & _).
    exists h'. split.
    + simpl andb. cbv iota.
      assert (Ee : Store.run (Store.read (StoreView.elements_of (Store.VRef la))) h
                   = (Ret (Some (map Store.VRef targets)), h)).
      { rewrite run_read. unfold StoreView.elements_of, Store.runR. rewrite Hla.
        reflexivity. }
      rewrite (run_bind_Ret _ _ _ _ _ Ee). exact E.
    + apply Hall. exact A.
Qed.

Lemma attached_record_recovered_witness :
  exists h',
    Store.run (StoreView.attach (Store.VRef 1) (getIdentifier Example.child_info)
                 (Store.VRef 5) (Store.VRef 6)) Example.list_store
    = (Ret tt, h')
    /\ forall l k, In l [7%positive; 8%positive] ->
         Store.run (StoreView.recover (Store.VRef l)
                      (PathNode (Some Example.child_info) k)) h'
         = Store.run (Store.JSON_clone (Store.VRef 5)) h'
         /\ forall i,
              Store.run (StoreView.recover (Store.VRef l)
                           (PathNode (Some (PathNode (Some Example.child_info)
                                              (Index i))) k)) h'
              = Store.run (Store.JSON_clone (Store.VRef 5)) h'.
Proof.
  apply (attached_record_recovered (Store.VRef 1) Example.child_info (Store.VRef 5)
           (Store.VRef 6) [7%positive; 8%positive] (Some 3%positive)
           Example.list_store).
  - split; [|split].
    + repeat constructor; rewrite ?list_elem_of_In; simpl; intuition discriminate.
    + intros l [<-|[<-|[]]]; eexists; split; reflexivity.
    + right. eexists _, _. split; reflexivity.
  - split.
    + intros l [<-|[<-|[]]]; discriminate.
    + exists 1%positive, 2%positive, (Store.Obj [("id", Store.VNum 7);
                                                  (OPENAPI_TO_GRAPHQL, Store.VRef 2)]),
        [("data", Store.VRef 3)], [("users", Store.VRef 4)].
      split; [reflexivity|]. split; [reflexivity|]. split; [reflexivity|].
      split; [reflexivity|]. split; [reflexivity|].
      split; [intros v [E|[]]; inversion E; reflexivity|].
      split; [reflexivity|]. split; [discriminate|]. split; [discriminate|].
      split; intros [E|[E|[]]]; discriminate.
  - discriminate.
Defined.

(** On the sample the two elements share the map of the parent result: the
    record is written once for both, next to the record of the parent. *)
Example list_elements_share_map :
  let h' := snd (Store.run (StoreView.attach (Store.VRef 1)
                              (getIdentifier Example.child_info)
                              (Store.VRef 5) (Store.VRef 6)) Example.list_store) in
  h' !! 3%positive
  = Some (Store.Obj [("users", Store.VRef 4); ("friend/users", Store.VRef 5)])
  /\ (exists l2, h' !! 7%positive
                 = Some (Store.Obj [("name", Store.VStr "ann");
                                    (OPENAPI_TO_GRAPHQL, Store.VRef l2)])
                 /\ h' !! l2 = Some (Store.Obj [("data", Store.VRef 3)]))
  /\ (exists l2, h' !! 8%positive
                 = Some (Store.Obj [("name", Store.VStr "bob");
                                    (OPENAPI_TO_GRAPHQL, Store.VRef l2)])
                 /\ h' !! l2 = Some (Store.Obj [("data", Store.VRef 3)])).
Proof. vm_compute. split; [reflexivity|]. split; eexists; split; reflexivity. Qed.

(** ** Arguments: what the caller supplied, defaults and links *)

Section LinkLemmas.
Context `{Collaborators}.


Lemma prefix_cons a p c r :
  String.prefix (String a p) (String c r)
  = if ascii_dec a c then String.prefix p r else false.
Proof. reflexivity. Qed.

Lemma cut_cons sep c r :
  Str.cut sep (String c r)
  = if String.prefix sep (String c r)
    then Some (EmptyString, Str.drop (String.length sep) (String c r))
    else match Str.cut sep r with
         | Some (a, b) => Some (String c a, b)
         | None => None
         end.
Proof. reflexivity. Qed.

Lemma not_dollar_prefix value p :
  String.prefix "$" value = false -> String.prefix (String "$" p) value = false.
Proof.
  destruct value as [|c r]; [reflexivity|]. rewrite !prefix_cons.
  destruct (ascii_dec "$" c); [|reflexivity].
  rewrite prefix_empty. discriminate.
Qed.

Lemma not_dollar_neq value p :
  String.prefix "$" value = false -> String.eqb value (String "$" p) = false.
Proof.
  intros Hp. apply String.eqb_neq. intros ->. rewrite prefix_cons in Hp.
  destruct (ascii_dec "$" "$"); [|congruence]. rewrite prefix_empty in Hp. discriminate.
Qed.

(** An expression that does not begin with a dollar sign is no runtime
    expression: it is rejected. *)
Lemma not_dollar_invalid paramName value resolveData root args :
  String.prefix "$" value = false ->
  resolveRuntimeExpression paramName value resolveData root args
  = Throw (invalid_expression value).
Proof.
  intros Hp. unfold resolveRuntimeExpression, Str.startsWith.
  rewrite !(not_dollar_neq _ _ Hp).
  rewrite (not_dollar_prefix value "request." Hp).
  rewrite (not_dollar_prefix value "response." Hp). reflexivity.
Qed.

Lemma no_brace_no_match s : forall cur,
  Str.has_brace s = false -> Str.match_braces_from s cur = [].
Proof.
  induction s as [|c r IH]; intros cur Hb; simpl in *; [reflexivity|].
  apply orb_false_iff in Hb. destruct Hb as [Hb Hr].
  apply orb_false_iff in Hb. destruct Hb as [Ho Hc].
  destruct cur as [acc|]; [rewrite Hc|rewrite Ho]; apply IH; assumption.
Qed.

Lemma includes_cons c r sub :
  Str.includes (String c r) sub = false -> Str.includes r sub = false.
Proof.
  unfold Str.includes. rewrite cut_cons.
  destruct (String.prefix sub (String c r)); [discriminate|].
  destruct (Str.cut sub r) as [[a b]|]; [discriminate|reflexivity].
Qed.

Lemma no_closing_no_match s : forall cur,
  Str.includes s "}" = false -> Str.match_braces_from s cur = [].
Proof.
  induction s as [|c r IH]; intros cur Hi; [reflexivity|].
  pose proof (includes_cons _ _ _ Hi) as Hr.
  assert (Hc : Str.ascii_eqb c "}" = false).
  { unfold Str.includes in Hi. rewrite cut_cons, prefix_cons in Hi.
    destruct (ascii_dec "}" c) as [<-|Hne].
    - rewrite prefix_empty in Hi. discriminate.
    - apply Ascii.eqb_neq. congruence. }
  cbn [Str.match_braces_from]. destruct cur as [acc|].
  - rewrite Hc. apply IH. assumption.
  - destruct (Str.ascii_eqb c "{"); apply IH; assumption.
Qed.

End LinkLemmas.

(** X3.  An argument the caller supplied, with a value other than [undefined],
    reaches the request as it is when no link supplies a parameter of that
    name: default filling never replaces it. *)
Theorem supplied_argument_kept `{Collaborators}
    p baseUrl source args context info prepared k v :
  prepare p baseUrl source args context info = Ret prepared ->
  obj_get k args = Some v -> is_undefined v = false ->
  (forall link, In link (argsFromLink p) ->
     sanitize (fst link) (caseStyle (data p)) <> k) ->
  obj_get k (prep_args prepared) = Some v.
Proof.
  intros Hp Hk Hv Hl.
  destruct (prepare_args _ _ _ _ _ _ _ Hp) as (args1 & rd & Hf & Hr).
  rewrite (resolve_links_keeps _ _ _ _ _ _ _ Hl Hr).
  eapply fill_defaults_keeps; eauto.
Qed.

Lemma supplied_argument_kept_witness :
  exists prepared,
    prepare (H:=Example.toy)
      (Example.sample_params Example.sample_operation [] None
         (Example.sample_transport 200 None ""))
      "http://api" JUndefined [("id", JNum 7); ("size", JNum 3)] JNull Example.root_info
    = Ret prepared
    /\ obj_get "size" (prep_args prepared) = Some (JNum 3).
Proof.
  eexists. split; [reflexivity|].
  apply (supplied_argument_kept (H:=Example.toy)
           (Example.sample_params Example.sample_operation [] None
              (Example.sample_transport 200 None ""))
           "http://api" JUndefined [("id", JNum 7); ("size", JNum 3)] JNull
           Example.root_info _ "size" (JNum 3));
    [reflexivity|reflexivity|reflexivity|intros link []].
Defined.



(** X5.  A braced part of a link value that does not begin with a dollar sign
    is no runtime expression: the round of the link throws the error that
    names it, and no argument is set. *)
Theorem braced_text_rejected `{Collaborators}
    data resolveData source args name value linkParam rest :
  Str.match_braces value = linkParam :: rest ->
  String.prefix "$" (Str.strip_ends linkParam) = false ->
  resolve_link data resolveData source args (name, value)
  = Throw (Error ("Cannot create link because '" ++ Str.strip_ends linkParam
                  ++ "' is an invalid runtime expression.")).
Proof.
  intros Hm Hp. unfold resolve_link. simpl fst. simpl snd.
  destruct (Str.has_brace value) eqn:Hb.
  - simpl. rewrite Hm. simpl.
    rewrite (not_dollar_invalid _ _ _ _ _ Hp). reflexivity.
  - unfold Str.match_braces in Hm. rewrite (no_brace_no_match _ _ Hb) in Hm.
    discriminate.
Qed.

Lemma braced_text_rejected_witness :
  resolve_link (H:=Example.toy) Example.sample_data (JObj []) (JObj [("id", JNum 7)]) []
    ("name", "user_{id}")
  = Throw (Error "Cannot create link because 'id' is an invalid runtime expression.").
Proof.
  apply (braced_text_rejected (H:=Example.toy) Example.sample_data (JObj [])
           (JObj [("id", JNum 7)]) [] "name" "user_{id}" "{id}" []);
    reflexivity.
Defined.

(** X6.  A link value with a brace but no closing brace has no braced part:
    [value.match] gives [null], and the round of the link throws a
    TypeError at [forEach]. *)
Theorem unclosed_brace_throws `{Collaborators}
    data resolveData source args name value :
  Str.has_brace value = true -> Str.includes value "}" = false ->
  exists note,
    resolve_link data resolveData source args (name, value) = Throw (TypeError note).
Proof.
  intros Hb Hc. unfold resolve_link. simpl fst. simpl snd. rewrite Hb. simpl.
  unfold Str.match_braces. rewrite (no_closing_no_match _ _ Hc). eauto.
Qed.

Lemma unclosed_brace_throws_witness :
  exists note,
    resolve_link (H:=Example.toy) Example.sample_data (JObj []) (JObj []) []
      ("name", "user_{$response.body#/id") = Throw (TypeError note).
Proof.
  apply (unclosed_brace_throws (H:=Example.toy) Example.sample_data (JObj []) (JObj []) []
           "name" "user_{$response.body#/id"); reflexivity.
Defined.

Section DefaultLemmas.
Context `{Collaborators}.

Lemma fill_defaults_app operation data l1 l2 args :
  fill_defaults operation data (l1 ++ l2) args
  = (fill_defaults operation data l1 args ≫= fill_defaults operation data l2).
Proof.
  revert args. induction l1 as [|param r IH]; intros args; simpl.
  - reflexivity.
  - destruct (fill_default operation data args param) as [a|e|w]; simpl;
      [apply IH|reflexivity|reflexivity].
Qed.

(** A round of default filling writes to the argument of its parameter
    only. *)
Lemma fill_default_other operation data args param args' k :
  fill_default operation data args param = Ret args' ->
  sanitize (param_name param) (caseStyle data) <> k ->
  obj_get k args' = obj_get k args.
Proof.
  unfold fill_default. intros Hf Hne.
  destruct (is_undefined (obj_read _ args)); [|inversion Hf; reflexivity].
  destruct (param_schema param) as [sr|]; [|inversion Hf; reflexivity].
  bind_inv Hf schema Es.
  destruct schema as [s|]; [|inversion Hf; reflexivity].
  destruct (truthy (schema_default s)); inversion Hf; subst; [|reflexivity].
  apply obj_get_set_ne. assumption.
Qed.

Lemma fill_defaults_other operation data params args args' k :
  fill_defaults operation data params args = Ret args' ->
  (forall q, In q params -> sanitize (param_name q) (caseStyle data) <> k) ->
  obj_get k args' = obj_get k args.
Proof.
  revert args. induction params as [|param rest IH]; simpl; intros args Hf Hn.
  - inversion Hf; reflexivity.
  - bind_inv Hf args1 E1.
    rewrite (IH _ Hf (fun q Hq => Hn q (or_intror Hq))).
    eapply fill_default_other; eauto.
Qed.

Lemma truthy_defined v : truthy v = true -> is_undefined v = false.
Proof. destruct v; simpl; congruence. Qed.

End DefaultLemmas.

(** X7.  The first parameter of its name that declares a default other than a
    falsy one, for an argument the caller left [undefined] and no link
    supplies: the request is built with the default as the argument.  The
    parameters are named as no object inherits ([constructor], [toString]
    and the like read as the inherited member, not as [undefined]). *)
Theorem truthy_default_injected `{Collaborators}
    p baseUrl source args context info prepared before param after s :
  prepare p baseUrl source args context info = Ret prepared ->
  (forall q, In q (parameters (operation p)) ->
     inherited (sanitize (param_name q) (caseStyle (data p))) = false) ->
  parameters (operation p) = (before ++ param :: after)%list ->
  (forall q, In q before ->
     sanitize (param_name q) (caseStyle (data p))
     <> sanitize (param_name param) (caseStyle (data p))) ->
  is_undefined (obj_read (sanitize (param_name param) (caseStyle (data p))) args) = true ->
  param_schema param = Some (Schema s) ->
  truthy (schema_default s) = true ->
  (forall link, In link (argsFromLink p) ->
     sanitize (fst link) (caseStyle (data p))
     <> sanitize (param_name param) (caseStyle (data p))) ->
  obj_get (sanitize (param_name param) (caseStyle (data p))) (prep_args prepared)
  = Some (schema_default s).
Proof.
  intros Hp _ Hparams Hbefore Hu Hs Ht Hl.
  destruct (prepare_args _ _ _ _ _ _ _ Hp) as (args1 & rd & Hf & Hr).
  rewrite (resolve_links_keeps _ _ _ _ _ _ _ Hl Hr).
  rewrite Hparams, fill_defaults_app in Hf.
  bind_inv Hf args0 E0. simpl in Hf. bind_inv Hf args2 E2.
  apply (fill_defaults_keeps _ _ _ _ _ _ _ Hf); [|apply truthy_defined; assumption].
  unfold fill_default in E2.
  assert (Hu0 : is_undefined
                  (obj_read (sanitize (param_name param) (caseStyle (data p))) args0)
                = true).
  { unfold obj_read in *. rewrite (fill_defaults_other _ _ _ _ _ _ E0 Hbefore).
    assumption. }
  rewrite Hu0, Hs in E2. simpl in E2. rewrite Ht in E2.
  inversion E2; subst. apply obj_get_set_eq.
Qed.

Lemma truthy_default_injected_witness :
  exists prepared,
    prepare (H:=Example.toy)
      (Example.sample_params Example.sample_operation [] None
         (Example.sample_transport 200 None ""))
      "http://api" JUndefined [("id", JNum 7)] JNull Example.root_info
    = Ret prepared
    /\ obj_get "size" (prep_args prepared) = Some (JNum 10).
Proof.
  eexists. split; [reflexivity|].
  apply (truthy_default_injected (H:=Example.toy)
           (Example.sample_params Example.sample_operation [] None
              (Example.sample_transport 200 None ""))
           "http://api" JUndefined [("id", JNum 7)] JNull Example.root_info _
           [ {| param_name := "id"; param_in := "path"; param_schema := None |};
             {| param_name := "page"; param_in := "query";
                param_schema := Some (Schema {| schema_default := JNum 0 |}) |} ]
           {| param_name := "size"; param_in := "query";
              param_schema := Some (Schema {| schema_default := JNum 10 |}) |}
           [] {| schema_default := JNum 10 |});
    [ reflexivity
    | intros q [<-|[<-|[<-|[]]]]; reflexivity
    | reflexivity
    | intros q [<-|[<-|[]]]; discriminate
    | reflexivity | reflexivity | reflexivity | intros link [] ].
Defined.

(** ** Request data from the arguments *)

Section ExtractLemmas.
Context `{Collaborators}.

Lemma fold_left_invariant {A B} (f : A -> B -> A) (P : A -> Prop) (l : list B) (a : A) :
  P a -> (forall a b, In b l -> P a -> P (f a b)) -> P (fold_left f l a).
Proof.
  revert a. induction l as [|b r IH]; intros a Ha Hstep; simpl; [assumption|].
  apply IH.
  - apply Hstep; [left; reflexivity|assumption].
  - intros a' b' Hin. apply Hstep. right. assumption.
Qed.

Lemma obj_has_set_inv {A} k k' (v : A) o :
  obj_has k (obj_set k' v o) = true -> k = k' \/ obj_has k o = true.
Proof.
  intros Hh. destruct (string_dec k' k) as [->|Hne]; [left; reflexivity|].
  right. rewrite obj_has_set_ne in Hh; assumption.
Qed.

(** A parameter is supplied: its sanitized name is not empty and is a key
    of the arguments. *)
Lemma extract_param_absent data args st param :
  negb (String.eqb (sanitize (param_name param) (caseStyle data)) "")
  && obj_has (sanitize (param_name param) (caseStyle data)) args = false ->
  extract_param data args st param = st.
Proof.
  intros Ha. unfold extract_param. destruct st as [[path qs] headers].
  rewrite Ha. reflexivity.
Qed.

End ExtractLemmas.

(** X8.  Every key of the query string is the name of a supplied query
    parameter, and every header is named after a supplied header
    parameter or is the [cookie] header of a supplied cookie parameter:
    arguments that are no declared parameter are not sent.  The parameters
    are named as no object inherits: for such a name, being supplied is
    being an own property of the arguments. *)
Theorem request_data_declared `{Collaborators}
    (path : string) (parameters : list ParameterObject) (args : obj)
    (data : PreprocessingData) (path' : string) (qs headers : obj) :
  (forall q, In q parameters ->
     inherited (sanitize (param_name q) (caseStyle data)) = false) ->
  extractRequestDataFromArgs path parameters args data = (path', qs, headers) ->
  (forall k, obj_has k qs = true ->
     exists param, In param parameters
       /\ obj_has (sanitize (param_name param) (caseStyle data)) args = true
       /\ param_in param = "query" /\ param_name param = k)
  /\ (forall k, obj_has k headers = true ->
        exists param, In param parameters
          /\ obj_has (sanitize (param_name param) (caseStyle data)) args = true
          /\ ((param_in param = "header" /\ param_name param = k)
              \/ (param_in param = "cookie" /\ k = "cookie"))).
Proof.
  unfold extractRequestDataFromArgs. intros _ E.
  pose (P := fun st : string * obj * obj =>
    (forall k, obj_has k (snd (fst st)) = true ->
       exists param, In param parameters
         /\ obj_has (sanitize (param_name param) (caseStyle data)) args = true
         /\ param_in param = "query" /\ param_name param = k)
    /\ (forall k, obj_has k (snd st) = true ->
          exists param, In param parameters
            /\ obj_has (sanitize (param_name param) (caseStyle data)) args = true
            /\ ((param_in param = "header" /\ param_name param = k)
                \/ (param_in param = "cookie" /\ k = "cookie")))).
  assert (HP : P (fold_left (extract_param data args) parameters (path, [], []))).
  { apply fold_left_invariant.
    - split; intros k Hk; discriminate.
    - intros [[pth q] hs] param Hin [Hq Hh]. unfold extract_param.
      destruct (negb _ && obj_has _ args) eqn:Ea; [|split; assumption].
      apply andb_true_iff in Ea. destruct Ea as [_ Ea].
      destruct (String.eqb_spec (param_in param) "path") as [Ep|_]; [split; assumption|].
      destruct (String.eqb_spec (param_in param) "query") as [Eq|_].
      { split; [|assumption]. simpl. intros k Hk.
        apply obj_has_set_inv in Hk. destruct Hk as [->|Hk]; [|auto].
        exists param. auto. }
      destruct (String.eqb_spec (param_in param) "header") as [Eh|_].
      { split; [assumption|]. simpl. intros k Hk.
        apply obj_has_set_inv in Hk. destruct Hk as [->|Hk]; [|auto].
        exists param. auto. }
      destruct (String.eqb_spec (param_in param) "cookie") as [Ec|_]; [|split; assumption].
      split; [assumption|]. simpl. intros k Hk.
      apply obj_has_set_inv in Hk. destruct Hk as [->|Hk]; [exists param; auto|].
      destruct (obj_has "cookie" hs); [auto|].
      apply obj_has_set_inv in Hk. destruct Hk as [->|Hk]; [exists param; auto|auto]. }
  rewrite E in HP. exact HP.
Qed.

Lemma request_data_declared_witness :
  (forall k, obj_has k [("size", JNum 3)] = true ->
     exists param, In param (parameters Example.sample_operation)
       /\ obj_has (@sanitize Example.toy (param_name param)
                     (caseStyle Example.sample_data))
            [("id", JNum 7); ("size", JNum 3); ("other", JNum 1)] = true
       /\ param_in param = "query" /\ param_name param = k)
  /\ (forall k, obj_has k ([] : obj) = true ->
        exists param, In param (parameters Example.sample_operation)
          /\ obj_has (@sanitize Example.toy (param_name param)
                        (caseStyle Example.sample_data))
               [("id", JNum 7); ("size", JNum 3); ("other", JNum 1)] = true
          /\ ((param_in param = "header" /\ param_name param = k)
              \/ (param_in param = "cookie" /\ k = "cookie"))).
Proof.
  apply (request_data_declared (H:=Example.toy) "/users/{id}"
           (parameters Example.sample_operation)
           [("id", JNum 7); ("size", JNum 3); ("other", JNum 1)]
           Example.sample_data "/users/7").
  - intros q [<-|[<-|[<-|[]]]]; reflexivity.
  - reflexivity.
Defined.

Section ExtractMore.
Context `{Collaborators}.

Lemma no_dollar_substitution matched before after repl :
  Str.includes repl "$" = false ->
  Str.GetSubstitution matched before after repl = repl.
Proof.
  induction repl as [|c r IH]; intros Hi; [reflexivity|].
  pose proof (includes_cons _ _ _ Hi) as Hr.
  assert (Hc : Str.ascii_eqb c "$" = false).
  { unfold Str.includes in Hi. rewrite cut_cons, prefix_cons in Hi.
    destruct (ascii_dec "$" c) as [<-|Hne].
    - rewrite prefix_empty in Hi. discriminate.
    - apply Ascii.eqb_neq. congruence. }
  cbn [Str.GetSubstitution]. rewrite Hc. f_equal. apply IH. assumption.
Qed.

(** The rounds of parameters that are no supplied path parameter leave the
    path as it is. *)
Lemma extract_path_kept data args params st :
  (forall q, In q params ->
     param_in q <> "path"
     \/ negb (String.eqb (sanitize (param_name q) (caseStyle data)) "")
        && obj_has (sanitize (param_name q) (caseStyle data)) args = false) ->
  fst (fst (fold_left (extract_param data args) params st)) = fst (fst st).
Proof.
  intros Hn.
  apply (fold_left_invariant (extract_param data args)
           (fun st' => fst (fst st') = fst (fst st))); [reflexivity|].
  intros [[pth q] hs] param Hin Hst. simpl in Hst. unfold extract_param.
  destruct (negb _ && obj_has _ args) eqn:Ea; [|assumption].
  destruct (Hn param Hin) as [Hp|Hp]; [|congruence].
  destruct (String.eqb_spec (param_in param) "path") as [Ep|_]; [contradiction|].
  destruct (String.eqb (param_in param) "query"); [assumption|].
  destruct (String.eqb (param_in param) "header"); [assumption|].
  destruct (String.eqb (param_in param) "cookie"); assumption.
Qed.

End ExtractMore.

(** X9.  The one supplied path parameter of an operation: the first
    [{name}] of the path is replaced by the text of the argument (a text
    without a dollar sign, which [replace] would expand), and a path
    without the placeholder is left as it is.  The argument is a value
    whose text is exact (a text, a safe integer, ...), and the parameters
    are named as no object inherits. *)
Theorem path_placeholder_substituted `{Collaborators}
    (path : string) (before : list ParameterObject) (param : ParameterObject)
    (after : list ParameterObject) (args : obj) (data : PreprocessingData) :
  let supplied q :=
    negb (String.eqb (sanitize (param_name q) (caseStyle data)) "")
    && obj_has (sanitize (param_name q) (caseStyle data)) args in
  let text := ToString (obj_read (sanitize (param_name param) (caseStyle data)) args) in
  (forall q, In q (before ++ param :: after)%list ->
     inherited (sanitize (param_name q) (caseStyle data)) = false) ->
  exact_text (obj_read (sanitize (param_name param) (caseStyle data)) args) = true ->
  (forall q, In q (before ++ after)%list -> param_in q <> "path" \/ supplied q = false) ->
  param_in param = "path" -> supplied param = true ->
  Str.includes text "$" = false ->
  fst (fst (extractRequestDataFromArgs path (before ++ param :: after)%list args data))
  = match Str.cut ("{" ++ param_name param ++ "}") path with
    | Some (a, b) => a ++ text ++ b
    | None => path
    end.
Proof.
  intros supplied text _ _ Hothers Hin Hs Ht. unfold extractRequestDataFromArgs.
  rewrite fold_left_app. simpl fold_left.
  rewrite extract_path_kept
    by (intros q Hq; apply Hothers, in_or_app; right; assumption).
  pose proof (extract_path_kept data args before (path, [], [])
                (fun q Hq => Hothers q (in_or_app _ _ _ (or_introl Hq)))) as Hb.
  destruct (fold_left (extract_param data args) before (path, [], [])) as [[pth q] hs].
  simpl in Hb. subst pth. unfold extract_param.
  fold (supplied param). rewrite Hs, Hin. simpl.
  unfold Str.replace. fold text.
  destruct (Str.cut _ path) as [[a b]|]; [|reflexivity].
  rewrite no_dollar_substitution by assumption. reflexivity.
Qed.

Lemma path_placeholder_substituted_witness :
  fst (fst (extractRequestDataFromArgs (H:=Example.toy) "/users/{id}"
              (parameters Example.sample_operation)
              [("id", JNum 7); ("size", JNum 3)] Example.sample_data))
  = "/users/7".
Proof.
  apply (path_placeholder_substituted (H:=Example.toy) "/users/{id}" []
           {| param_name := "id"; param_in := "path"; param_schema := None |}
           [ {| param_name := "page"; param_in := "query";
                param_schema := Some (Schema {| schema_default := JNum 0 |}) |};
             {| param_name := "size"; param_in := "query";
                param_schema := Some (Schema {| schema_default := JNum 10 |}) |} ]
           [("id", JNum 7); ("size", JNum 3)] Example.sample_data);
    [ intros q [<-|[<-|[<-|[]]]]; reflexivity
    | reflexivity
    | intros q [<-|[<-|[]]]; left; discriminate
    | reflexivity | reflexivity | reflexivity ].
Defined.



(** ** Authentication *)

Section AuthLemmas.
Context `{Collaborators}.

(** The loop over the security requirements stops at the first one whose
    credentials the parent result holds. *)
Lemma first_fulfilled_first requirements hidden r s :
  first_fulfilled requirements hidden = Ret (Some (r, s)) ->
  s = sanitize r camelCase
  /\ exists before after sec entry,
       requirements = (before ++ r :: after)%list
       /\ get_prop hidden "security" = Ret sec
       /\ get_prop sec s = Ret entry /\ is_object entry = true
       /\ forall q, In q before ->
            exists e, get_prop sec (sanitize q camelCase) = Ret e /\ is_object e = false.
Proof.
  induction requirements as [|q rest IH]; simpl; intros Hf; [discriminate|].
  bind_inv Hf sec Es. bind_inv Hf entry Ee.
  destruct (is_object entry) eqn:Eo.
  - inversion Hf; subst. split; [reflexivity|].
    exists [], rest, sec, entry. repeat split; try assumption. intros q0 [].
  - destruct (IH Hf) as (-> & before & after & sec' & entry' & -> & Hs & He & Ho & Hb).
    split; [reflexivity|].
    exists (q :: before), after, sec', entry'. repeat split; try assumption.
    intros q0 [<-|Hin]; [|auto].
    rewrite Hs in Es. inversion Es; subst. eauto.
Qed.


End AuthLemmas.

(** X11.  The security requirement the resolver authenticates with is the first
    one, in the order of the operation, for which the parent result holds
    credentials: an object under the sanitized name of the requirement. *)
Theorem first_viable_requirement `{Collaborators}
    (operation : Operation) (hidden : json) (found : AuthReqAndProtcolName)
    (requirement : string) :
  getAuthReqAndProtcolName operation hidden = Ret found ->
  securityRequirement found = Some requirement ->
  authRequired found = true
  /\ sanitizedSecurityRequirement found = Some (sanitize requirement camelCase)
  /\ exists before after sec entry,
       securityRequirements operation = (before ++ requirement :: after)%list
       /\ get_prop hidden "security" = Ret sec
       /\ get_prop sec (sanitize requirement camelCase) = Ret entry
       /\ is_object entry = true
       /\ forall q, In q before ->
            exists e, get_prop sec (sanitize q camelCase) = Ret e /\ is_object e = false.
Proof.
  unfold getAuthReqAndProtcolName. intros Hg Hr.
  destruct (securityRequirements operation) as [|q rest] eqn:Eq.
  - inversion Hg; subst. discriminate.
  - bind_inv Hg f Ef. destruct f as [[r s]|]; inversion Hg; subst; simpl in Hr;
      [|discriminate].
    inversion Hr; subst.
    destruct (first_fulfilled_first _ _ _ _ Ef) as (-> & Hrest).
    split; [reflexivity|]. split; [reflexivity|]. exact Hrest.
Qed.


(** X13.  Authentication adds one credential at most, in one place: a header, a
    query parameter or a cookie. *)
Theorem one_credential_at_most `{Collaborators}
    (operation : Operation) (hidden : json) (data : PreprocessingData)
    (authHeaders authQs : obj) (authCookie : json) :
  getAuthOptions operation hidden data = Ret (authHeaders, authQs, authCookie) ->
  (length authHeaders + length authQs <= 1)%nat
  /\ (authCookie = JNull
      \/ exists text, authCookie = JStr text /\ authHeaders = [] /\ authQs = []).
Proof.
  unfold getAuthOptions. intros Hg.
  assert (Done : forall hs qs : obj,
            (length hs + length qs <= 1)%nat ->
            Ret (hs, qs, JNull) = Ret (authHeaders, authQs, authCookie) ->
            (length authHeaders + length authQs <= 1)%nat
            /\ (authCookie = JNull
                \/ exists text, authCookie = JStr text /\ authHeaders = []
                                /\ authQs = [])).
  { intros hs qs Hl E. inversion E; subst. auto. }
  bind_inv Hg r Er.
  destruct (negb (authRequired r)); [apply (Done [] []); [simpl; lia|assumption]|].
  destruct (securityRequirement r) as [requirement|]; [|discriminate].
  destruct (sanitizedSecurityRequirement r) as [sanitized|]; [|discriminate].
  destruct (obj_get requirement (security data)) as [def|]; [|discriminate].
  destruct (String.eqb (def_type def) "apiKey").
  { bind_inv Hg sec Es. bind_inv Hg entry Ee. bind_inv Hg apiKey Ek.
    destruct (def_in def) as [location|];
      [|apply (Done [] []); [simpl; lia|assumption]].
    destruct (def_name def) as [name|]; [|discriminate].
    destruct (String.eqb location "header");
      [apply (Done [(name, apiKey)] []); [simpl; lia|assumption]|].
    destruct (String.eqb location "query");
      [apply (Done [] [(name, apiKey)]); [simpl; lia|assumption]|].
    destruct (String.eqb location "cookie");
      [|apply (Done [] []); [simpl; lia|assumption]].
    inversion Hg; subst. split; [simpl; lia|]. right. eauto. }
  destruct (String.eqb (def_type def) "http").
  { destruct (def_scheme def) as [scheme|]; [|discriminate].
    destruct (String.eqb scheme "basic"); [|discriminate].
    bind_inv Hg sec Es. bind_inv Hg entry Ee. bind_inv Hg username Eu.
    bind_inv Hg sec' Es'. bind_inv Hg entry' Ee'. bind_inv Hg password Ew.
    eapply Done; [|exact Hg]. simpl; lia. }
  destruct (String.eqb (def_type def) "oauth2");
    [apply (Done [] []); [simpl; lia|assumption]|].
  destruct (String.eqb (def_type def) "openIdConnect");
    [apply (Done [] []); [simpl; lia|assumption]|discriminate].
Qed.

Lemma first_viable_requirement_witness :
  authRequired {| authRequired := true; securityRequirement := Some "key";
                  sanitizedSecurityRequirement := Some "key" |} = true
  /\ sanitizedSecurityRequirement
       {| authRequired := true; securityRequirement := Some "key";
          sanitizedSecurityRequirement := Some "key" |}
     = Some (@sanitize Example.toy "key" camelCase)
  /\ exists before after sec entry,
       securityRequirements Example.secured_operation = (before ++ "key" :: after)%list
       /\ get_prop Example.credentials "security" = Ret sec
       /\ get_prop sec (@sanitize Example.toy "key" camelCase) = Ret entry
       /\ is_object entry = true
       /\ forall q, In q before ->
            exists e, get_prop sec (@sanitize Example.toy q camelCase) = Ret e
                      /\ is_object e = false.
Proof.
  apply (first_viable_requirement (H:=Example.toy) Example.secured_operation
           Example.credentials
           {| authRequired := true; securityRequirement := Some "key";
              sanitizedSecurityRequirement := Some "key" |} "key");
    reflexivity.
Defined.


Lemma one_credential_at_most_witness :
  (length [("X-API-KEY", JStr "secret")] + length ([] : obj) <= 1)%nat
  /\ (JNull = JNull
      \/ exists text, JNull = JStr text /\ [("X-API-KEY", JStr "secret")] = []
                      /\ ([] : obj) = []).
Proof.
  apply (one_credential_at_most (H:=Example.toy) Example.secured_operation
           Example.credentials Example.secured_data).
  reflexivity.
Defined.

(** ** The OAuth token *)

(** X14.  The two ways of sending the OAuth token use the same token: the
    [Authorization] header is [Bearer] and the token the query string
    would carry, and no header is made when the query string would be
    empty.  The token JSONPath finds first is a value whose text is exact
    (a text, as tokens are, or a safe integer). *)
Theorem oauth_header_of_token `{Collaborators}
    (data : PreprocessingData) (context : json) :
  (forall path token others,
     tokenJSONpath (options data) = Some path ->
     JSONPath (Some path) context = Ret (Some (token :: others)) ->
     exact_text token = true) ->
  createOAuthHeader data context
  = (qs ← createOAuthQS data context;
     Ret (match obj_get "access_token" qs with
          | Some token => [("Authorization", JStr ("Bearer " ++ ToString token));
                           ("User-Agent", JStr "openapi-to-graphql")]
          | None => []
          end)).
Proof.
  intros _. unfold createOAuthHeader, createOAuthQS, extractToken.
  destruct (tokenJSONpath (options data)) as [path|]; [|reflexivity].
  destruct (JSONPath (Some path) context) as [tokens|e|w]; [|reflexivity..].
  simpl. destruct (first_token tokens); reflexivity.
Qed.

Lemma oauth_header_of_token_witness :
  createOAuthHeader (H:=Example.toy) Example.oauth_data (JObj [("token", JStr "abc")])
  = Ret [("Authorization", JStr "Bearer abc"); ("User-Agent", JStr "openapi-to-graphql")].
Proof.
  eapply eq_trans;
    [apply (oauth_header_of_token (H:=Example.toy) Example.oauth_data
              (JObj [("token", JStr "abc")]))|reflexivity].
  intros path token others Hp Hj. inversion Hp; subst path.
  inversion Hj; subst. reflexivity.
Defined.

(** ** More of the response *)

Section ResponseLemmas.
Context `{Collaborators}.

(** [attach_one] on a value that is no object or array never returns:
    reading or creating the hidden field throws. *)
Lemma attach_one_primitive source identifier resolveData element :
  truthy element && is_object element = false ->
  forall element', attach_one source identifier resolveData element <> Ret element'.
Proof.
  intros Hp element' Ha. unfold attach_one in Ha.
  destruct element as [| |b|n|s|l ps|o]; discriminate.
Qed.

Lemma attach_all_each source identifier resolveData elements elements' :
  attach_all source identifier resolveData elements = Ret elements' ->
  forall element, In element elements ->
    exists element', attach_one source identifier resolveData element = Ret element'.
Proof.
  revert elements'. induction elements as [|e r IH]; intros elements' Ha x Hin; simpl in Ha.
  - destruct Hin.
  - bind_inv Ha e' Ee. bind_inv Ha r' Er. destruct Hin as [<-|Hin]; eauto.
Qed.

End ResponseLemmas.

(** X15.  A response in the 2xx range whose content type matches the declared
    one and does not include [application/json]: the field is the body as
    received, not parsed, with no hidden record. *)
Theorem other_content_returned `{Collaborators}
    p baseUrl source args context info prepared response :
  prepare p baseUrl source args context info = Ret prepared ->
  httpRequest p (prep_options prepared) context = Ret response ->
  200 <= resp_statusCode response <= 299 ->
  truthy (obj_read "content-type" (resp_headers response)) = true ->
  content_type_matches (operation p) (obj_read "content-type" (resp_headers response))
  = Ret true ->
  js_includes (obj_read "content-type" (resp_headers response)) (JStr "application/json")
  = Ret false ->
  resolve p baseUrl source args context info = Ret (resp_body response).
Proof.
  intros Hp Hr Hs Ht Hm Hj.
  rewrite (resolve_after_dispatch _ _ _ _ _ _ _ _ Hp Hr).
  unfold handle_response. rewrite (status_in_range _ Hs), Ht, Hm. simpl.
  rewrite Hj. reflexivity.
Qed.

Lemma other_content_returned_witness :
  resolve (H:=Example.toy)
    (Example.sample_params Example.text_operation [] None
       (Example.sample_transport 200 (Some "text/plain; charset=utf-8") "{}"))
    "http://api" JUndefined [] JNull Example.root_info
  = Ret (JStr "{}").
Proof.
  eapply eq_trans.
  - eapply (other_content_returned (H:=Example.toy)); [reflexivity|reflexivity| | | |].
    + simpl. lia.
    + reflexivity.
    + reflexivity.
    + reflexivity.
  - reflexivity.
Defined.

(** X16.  A response in the 2xx range that announces JSON with a body that does
    not parse: the resolver throws the error that names the operation. *)
Theorem unparsable_body_throws `{Collaborators}
    p baseUrl source args context info prepared response :
  prepare p baseUrl source args context info = Ret prepared ->
  httpRequest p (prep_options prepared) context = Ret response ->
  200 <= resp_statusCode response <= 299 ->
  truthy (obj_read "content-type" (resp_headers response)) = true ->
  content_type_matches (operation p) (obj_read "content-type" (resp_headers response))
  = Ret true ->
  js_includes (obj_read "content-type" (resp_headers response)) (JStr "application/json")
  = Ret true ->
  JSON_parse (ToString (resp_body response)) = None ->
  resolve p baseUrl source args context info
  = Throw (Error ("Cannot JSON parse response body of operation "
                  ++ operationString (operation p)
                  ++ " even though it has content-type 'application/json'")).
Proof.
  intros Hp Hr Hs Ht Hm Hj Hb.
  rewrite (resolve_after_dispatch _ _ _ _ _ _ _ _ Hp Hr).
  unfold handle_response. rewrite (status_in_range _ Hs), Ht, Hm. simpl.
  rewrite Hj. simpl. rewrite Hb. reflexivity.
Qed.

Lemma unparsable_body_throws_witness :
  resolve (H:=Example.toy)
    (Example.sample_params Example.sample_operation [] None
       (Example.sample_transport 200 (Some "application/json") "<html>"))
    "http://api" JUndefined [("id", JNum 7)] JNull Example.root_info
  = Throw (Error ("Cannot JSON parse response body of operation GET /users/{id}"
                  ++ " even though it has content-type 'application/json'")).
Proof.
  eapply eq_trans.
  - eapply (unparsable_body_throws (H:=Example.toy)); [reflexivity|reflexivity| | | | |].
    + simpl. lia.
    + reflexivity.
    + reflexivity.
    + reflexivity.
    + reflexivity.
  - reflexivity.
Defined.

(** X17.  A JSON response that is an array with an element that is no object
    or array (a number, a text, a boolean, [null]): the resolver returns
    nothing, it throws where the hidden record is attached to that
    element. *)
Theorem primitive_element_fails `{Collaborators}
    p baseUrl source args context info prepared response responseBody
    elements ps element :
  prepare p baseUrl source args context info = Ret prepared ->
  httpRequest p (prep_options prepared) context = Ret response ->
  json_response (operation p) response responseBody ->
  sanitizeObjectKeys responseBody (caseStyle (data p)) = Ret (JArr elements ps) ->
  In element elements ->
  truthy element && is_object element = false ->
  forall result, resolve p baseUrl source args context info <> Ret result.
Proof.
  intros Hp Hr Hj Hsan Hin Hprim result Hres.
  rewrite (resolve_after_dispatch _ _ _ _ _ _ _ _ Hp Hr) in Hres.
  rewrite (handle_json_response _ _ _ _ _ _ _ Hj) in Hres.
  bind_inv Hres saneData Esh. unfold shape in Esh.
  bind_inv Esh rd Erd. rewrite Hsan in Esh. simpl in Esh.
  unfold attach in Esh. simpl in Esh. bind_inv Esh elements' Ea.
  destruct (attach_all_each _ _ _ _ _ Ea element Hin) as [element' He].
  exact (attach_one_primitive _ _ _ _ Hprim element' He).
Qed.

Lemma primitive_element_fails_witness :
  ~ exists result,
      resolve (H:=Example.lab)
        (Example.sample_params Example.sample_operation [] None
           (Example.sample_transport 200 (Some "application/json") "[1,{}]"))
        "http://api" JUndefined [("id", JNum 7); ("limit", JNum 2)] JNull
        Example.root_info
      = Ret result.
Proof.
  intros [result Hres]. revert Hres.
  refine (primitive_element_fails (H:=Example.lab)
            (Example.sample_params Example.sample_operation [] None
               (Example.sample_transport 200 (Some "application/json") "[1,{}]"))
            "http://api" JUndefined [("id", JNum 7); ("limit", JNum 2)] JNull
            Example.root_info _ _ (JArr [JNum 1; JObj []] []) [JNum 1; JObj []] []
            (JNum 1) _ _ _ _ _ _ result);
    [ reflexivity | reflexivity
    | repeat split; try reflexivity; simpl; lia
    | reflexivity | left; reflexivity | reflexivity ].
Defined.

(** X18.  The auto-generated limit is not applied when the option is off, when
    the operation declares a parameter named [limit] of its own, or when
    the shaped result is no array that holds an object (an object, or the
    empty array): the resolver returns the shaped result, whatever [limit]
    the arguments hold or lack. *)
Theorem limit_not_applied `{Collaborators}
    p baseUrl source args context info prepared response responseBody saneData :
  prepare p baseUrl source args context info = Ret prepared ->
  httpRequest p (prep_options prepared) context = Ret response ->
  json_response (operation p) response responseBody ->
  shape p (prep_resolveData prepared) source info response responseBody = Ret saneData ->
  addLimitArgument (options (data p)) = false
  \/ (exists param, In param (parameters (operation p)) /\ param_name param = "limit")
  \/ (forall elements ps', saneData = JArr elements ps' ->
        existsb is_object elements = false) ->
  resolve p baseUrl source args context info = Ret saneData.
Proof.
  intros Hp Hr Hj Hsh Hwhy.
  rewrite (resolve_after_dispatch _ _ _ _ _ _ _ _ Hp Hr).
  rewrite (handle_json_response _ _ _ _ _ _ _ Hj), Hsh. simpl.
  unfold apply_limit. destruct Hwhy as [Hoff|[(param & Hin & Hname)|Hshape]].
  - rewrite Hoff. reflexivity.
  - assert (He : existsb (fun parameter => String.eqb (param_name parameter) "limit")
                   (parameters (operation p)) = true).
    { apply existsb_exists. exists param. split; [assumption|].
      apply String.eqb_eq. assumption. }
    rewrite He, andb_false_r. reflexivity.
  - destruct (_ && _); [|reflexivity].
    destruct saneData as [| | | | |elements ps'|o]; try reflexivity.
    rewrite (Hshape elements ps' eq_refl). reflexivity.
Qed.

Lemma limit_not_applied_witness :
  resolve (H:=Example.lab)
    (Example.sample_params Example.sample_operation [] None
       (Example.sample_transport 200 (Some "application/json") "[]"))
    "http://api" JUndefined [("id", JNum 7)] JNull Example.root_info
  = Ret (JArr [] []).
Proof.
  eapply eq_trans.
  - refine (limit_not_applied (H:=Example.lab)
              (Example.sample_params Example.sample_operation [] None
                 (Example.sample_transport 200 (Some "application/json") "[]"))
              "http://api" JUndefined [("id", JNum 7)] JNull Example.root_info
              _ _ (JArr [] []) (JArr [] []) _ _ _ _ _);
      [ reflexivity | reflexivity
      | repeat split; try reflexivity; simpl; lia
      | reflexivity
      | right; right; intros elements ps' E; inversion E; reflexivity ].
  - reflexivity.
Defined.

(** ** The request and its record *)

Section RequestLemmas.
Context `{Collaborators}.

(** A write under a named key leaves the other properties as they read. *)
Lemma set_named_get_other t k v t' k' :
  array_index k = None -> k <> "length" ->
  set_prop t k v = Ret t' -> k <> k' -> get_prop t' k' = get_prop t k'.
Proof.
  intros Hi Hl Hs Hne. destruct t as [| | | | |l ps|o]; simpl in Hs; try discriminate.
  - destruct (String.eqb_spec k "length") as [->|_]; [contradiction|].
    rewrite Hi in Hs. inversion Hs; subst. simpl.
    destruct (String.eqb k' "length"); [reflexivity|].
    destruct (array_index k'); [reflexivity|].
    rewrite obj_read_set_ne by assumption. reflexivity.
  - inversion Hs; subst. simpl. rewrite obj_read_set_ne by assumption. reflexivity.
Qed.

Lemma request_options_method_url requestOptions method url headers qs options oh oq :
  request_options requestOptions method url headers qs = (options, oh, oq) ->
  obj_get "method" options = Some (JStr method)
  /\ obj_get "url" options = Some (JStr url).
Proof.
  unfold request_options. destruct requestOptions as [ro|]; intros E; inversion E; subst.
  - split.
    + rewrite !obj_get_set_ne by discriminate. apply obj_get_set_eq.
    + rewrite !obj_get_set_ne by discriminate. apply obj_get_set_eq.
  - split; reflexivity.
Qed.

(** What [prepare] returns, statement by statement: the request options
    carry the method of the operation and the URL, and the record holds
    the request options and the declared status code. *)
Lemma prepare_request p baseUrl source args context info prepared :
  prepare p baseUrl source args context info = Ret prepared ->
  obj_get "method" (prep_options prepared) = Some (JStr (method (operation p)))
  /\ obj_get "url" (prep_options prepared)
     = Some (JStr (baseUrl
                   ++ fst (fst (extractRequestDataFromArgs (path (operation p))
                                  (parameters (operation p)) (prep_args prepared)
                                  (data p)))))
  /\ get_prop (prep_resolveData prepared) "usedRequestOptions"
     = Ret (JObj (prep_options prepared))
  /\ get_prop (prep_resolveData prepared) "usedStatusCode"
     = Ret (JStr (statusCode (operation p)))
  /\ exists usedParams usedParams',
       assign usedParams (JObj (prep_args prepared)) = Ret usedParams'
       /\ get_prop (prep_resolveData prepared) "usedParams" = Ret usedParams'.
Proof.
  unfold prepare. intros Hp.
  bind_inv Hp rd0 E0. bind_inv Hp rd1 E1.
  bind_inv Hp args1 Ea. bind_inv Hp args2 El.
  bind_inv Hp up Eu. bind_inv Hp up' Eu'. bind_inv Hp rd2 E2.
  destruct (extractRequestDataFromArgs _ _ args2 _) as [[pth qs] hs] eqn:Ex.
  destruct (request_options _ _ _ _ _) as [[o oh] oq] eqn:Eo.
  destruct (request_options_method_url _ _ _ _ _ _ _ _ Eo) as [Hm Hu].
  bind_inv Hp rd3 E3. bind_inv Hp raw Er. bind_inv Hp ord Eord.
  destruct ord as [o' rd4].
  assert (Ho' : obj_get "method" o' = Some (JStr (method (operation p)))
                /\ obj_get "url" o' = Some (JStr (baseUrl ++ pth))
                /\ get_prop rd4 "usedParams" = Ret up').
  { assert (U3 : get_prop rd3 "usedParams" = Ret up').
    { rewrite (set_named_get_other rd2 "usedPayload" JUndefined rd3 "usedParams");
        [exact (set_prop_get_prop _ _ _ _ E2)|reflexivity|discriminate|exact E3
        |discriminate]. }
    destruct raw as [r|].
    - bind_inv Eord rd5 E5. inversion Eord; subst.
      rewrite !obj_get_set_ne by discriminate. split; [auto|]. split; [auto|].
      rewrite (set_named_get_other rd3 "usedPayload" r rd4 "usedParams");
        [exact U3|reflexivity|discriminate|exact E5|discriminate].
    - inversion Eord; subst. auto. }
  bind_inv Hp hid Eh. bind_inv Hp hq Ehq. destruct hq as [oh1 oq1].
  bind_inv Hp hq2 Ehq2. destruct hq2 as [oh2 oq2].
  bind_inv Hp rd6 E6. bind_inv Hp rd7 E7. inversion Hp; subst. simpl.
  rewrite Ex. simpl. unfold with_headers_qs. rewrite !obj_get_set_ne by discriminate.
  destruct Ho' as (Hm' & Hu' & U4). split; [assumption|]. split; [assumption|].
  split; [|split].
  - rewrite (set_named_get_other rd6 "usedStatusCode"
               (JStr (statusCode (operation p))) rd7 "usedRequestOptions");
      [exact (set_prop_get_prop _ _ _ _ E6)|reflexivity|discriminate|exact E7
      |discriminate].
  - exact (set_prop_get_prop _ _ _ _ E7).
  - exists up, up'. split; [assumption|].
    rewrite (set_named_get_other rd6 "usedStatusCode"
               (JStr (statusCode (operation p))) rd7 "usedParams");
      [|reflexivity|discriminate|exact E7|discriminate].
    rewrite (set_named_get_other rd4 "usedRequestOptions"
               (JObj (with_headers_qs o' oh2 oq2)) rd6 "usedParams");
      [exact U4|reflexivity|discriminate|exact E6|discriminate].
Qed.

Lemma obj_get_assign_notin k (o ps : obj) :
  ~ In k (map fst ps) -> obj_get k (obj_assign o ps) = obj_get k o.
Proof.
  unfold obj_assign. revert o. induction ps as [|[k0 v0] r IH]; intros o Hn; simpl.
  - reflexivity.
  - rewrite IH by (intros Hin; apply Hn; right; assumption).
    apply obj_get_set_ne. intros ->. apply Hn. left. reflexivity.
Qed.

(** [Object.assign] gives the target the properties of the source. *)
Lemma obj_get_assign k v (o ps : obj) :
  NoDup (map fst ps) -> obj_get k ps = Some v ->
  obj_get k (obj_assign o ps) = Some v.
Proof.
  revert o. induction ps as [|[k0 v0] r IH]; intros o Hd Hk; simpl in *; [discriminate|].
  apply NoDup_cons in Hd. destruct Hd as [Hn Hd].
  destruct (String.eqb_spec k k0) as [->|Hne].
  - inversion Hk; subst. change (obj_get k0 (obj_assign (obj_set k0 v o) r) = Some v).
    rewrite obj_get_assign_notin; [apply obj_get_set_eq|].
    intros Hin. apply Hn. apply list_elem_of_In. assumption.
  - apply (IH (obj_set k0 v0 o) Hd Hk).
Qed.

Lemma set_props_obj (o ps : obj) : set_props (JObj o) ps = Ret (JObj (obj_assign o ps)).
Proof.
  revert o. induction ps as [|[k v] r IH]; intros o; simpl; [reflexivity|]. apply IH.
Qed.

Lemma set_props_to_obj t (ps used : obj) :
  set_props t ps = Ret (JObj used) -> exists o, t = JObj o.
Proof.
  revert t. induction ps as [|[k v] r IH]; intros t Hs; simpl in Hs.
  - inversion Hs; subst. eauto.
  - bind_inv Hs t1 E1. destruct (IH _ Hs) as [o1 ->].
    destruct t as [| | | | |l ps|o]; simpl in E1; try discriminate; [|eauto].
    destruct (String.eqb k "length"); [discriminate|].
    destruct (array_index k); [destruct (bool_decide _)|]; discriminate.
Qed.

End RequestLemmas.

(** X19.  The request goes to the URL of the operation with the method of the
    operation, whatever per-call [requestOptions] were given: a [method]
    or [url] among them is overwritten. *)
Theorem method_and_url_fixed `{Collaborators}
    p baseUrl source args context info prepared :
  prepare p baseUrl source args context info = Ret prepared ->
  obj_get "method" (prep_options prepared) = Some (JStr (method (operation p)))
  /\ obj_get "url" (prep_options prepared)
     = Some (JStr (baseUrl
                   ++ fst (fst (extractRequestDataFromArgs (path (operation p))
                                  (parameters (operation p)) (prep_args prepared)
                                  (data p))))).
Proof.
  intros Hp. destruct (prepare_request _ _ _ _ _ _ _ Hp) as (Hm & Hu & _).
  split; assumption.
Qed.

Lemma method_and_url_fixed_witness :
  exists prepared,
    prepare (H:=Example.toy)
      (Example.sample_params Example.sample_operation []
         (Some [("method", JStr "delete"); ("url", JStr "http://elsewhere")])
         (Example.sample_transport 200 None ""))
      "http://api" JUndefined [("id", JNum 7)] JNull Example.root_info
    = Ret prepared
    /\ obj_get "method" (prep_options prepared) = Some (JStr "get")
    /\ obj_get "url" (prep_options prepared) = Some (JStr "http://api/users/7").
Proof.
  eexists. split; [reflexivity|].
  apply (method_and_url_fixed (H:=Example.toy)
           (Example.sample_params Example.sample_operation []
              (Some [("method", JStr "delete"); ("url", JStr "http://elsewhere")])
              (Example.sample_transport 200 None ""))
           "http://api" JUndefined [("id", JNum 7)] JNull Example.root_info).
  reflexivity.
Defined.

(** X20.  The record of a request answers the runtime expressions [$method],
    [$url] and [$statusCode] with the method and the URL of the request and
    with the status code the operation declares (not the one received). *)
Theorem request_expressions `{Collaborators}
    p baseUrl source args context info prepared paramName root linkArgs :
  prepare p baseUrl source args context info = Ret prepared ->
  let record := prep_resolveData prepared in
  resolveRuntimeExpression paramName "$method" record root linkArgs
  = Ret (JStr (method (operation p)))
  /\ resolveRuntimeExpression paramName "$url" record root linkArgs
     = Ret (JStr (baseUrl
                  ++ fst (fst (extractRequestDataFromArgs (path (operation p))
                                 (parameters (operation p)) (prep_args prepared)
                                 (data p)))))
  /\ resolveRuntimeExpression paramName "$statusCode" record root linkArgs
     = Ret (JStr (statusCode (operation p))).
Proof.
  intros Hp record.
  destruct (prepare_request _ _ _ _ _ _ _ Hp) as (Hm & Hu & Ho & Hs & _).
  unfold record.
  change (resolveRuntimeExpression paramName "$method" (prep_resolveData prepared)
            root linkArgs)
    with (o ← get_prop (prep_resolveData prepared) "usedRequestOptions";
          get_prop o "method").
  change (resolveRuntimeExpression paramName "$url" (prep_resolveData prepared)
            root linkArgs)
    with (o ← get_prop (prep_resolveData prepared) "usedRequestOptions";
          get_prop o "url").
  change (resolveRuntimeExpression paramName "$statusCode" (prep_resolveData prepared)
            root linkArgs)
    with (get_prop (prep_resolveData prepared) "usedStatusCode").
  rewrite Ho, Hs. simpl. unfold obj_read. rewrite Hm, Hu. auto.
Qed.

Lemma request_expressions_witness :
  exists prepared,
    prepare (H:=Example.toy)
      (Example.sample_params Example.sample_operation [] None
         (Example.sample_transport 404 None ""))
      "http://api" JUndefined [("id", JNum 7)] JNull Example.root_info
    = Ret prepared
    /\ resolveRuntimeExpression (H:=Example.toy) "x" "$statusCode"
         (prep_resolveData prepared) JNull [] = Ret (JStr "200").
Proof.
  eexists. split; [reflexivity|].
  apply (request_expressions (H:=Example.toy)
           (Example.sample_params Example.sample_operation [] None
              (Example.sample_transport 404 None ""))
           "http://api" JUndefined [("id", JNum 7)] JNull Example.root_info _
           "x" JNull []).
  reflexivity.
Defined.

(** X21.  The record of a request answers [$request.query.name] and
    [$request.path.name] with the argument the request was made with, read
    under the sanitized name. *)
Theorem request_parameter_recorded `{Collaborators}
    p baseUrl source args context info prepared used kind name value
    paramName root linkArgs :
  prepare p baseUrl source args context info = Ret prepared ->
  get_prop (prep_resolveData prepared) "usedParams" = Ret (JObj used) ->
  NoDup (map fst (prep_args prepared)) ->
  kind = "query" \/ kind = "path" ->
  Str.split_1 (kind ++ ".") ("$request." ++ kind ++ "." ++ name) = Some name ->
  obj_get (sanitize name camelCase) (prep_args prepared) = Some value ->
  resolveRuntimeExpression paramName ("$request." ++ kind ++ "." ++ name)
    (prep_resolveData prepared) root linkArgs = Ret value.
Proof.
  intros Hp Hused Hd Hkind Hsplit Hv.
  destruct (prepare_request _ _ _ _ _ _ _ Hp) as (_ & _ & _ & _ & up & up' & Ha & Hg).
  rewrite Hused in Hg. inversion Hg; subst up'. clear Hg.
  assert (Hup : used = obj_assign (match up with JObj o => o | _ => [] end)
                         (prep_args prepared)
                /\ exists o, up = JObj o).
  { unfold assign in Ha. destruct up as [| | | | |l ps|o]; try discriminate.
    - destruct (set_props_to_obj _ _ _ Ha) as [o E]. discriminate.
    - simpl in Ha. rewrite set_props_obj in Ha. inversion Ha; subst. eauto. }
  destruct Hup as [-> _].
  assert (Hread : used_param (kind ++ ".") ("$request." ++ kind ++ "." ++ name)
                    (prep_resolveData prepared) = Ret value).
  { unfold used_param. rewrite Hused. simpl. rewrite Hsplit. simpl. unfold obj_read.
    rewrite (obj_get_assign _ _ _ _ Hd Hv). reflexivity. }
  destruct Hkind as [->| ->]; exact Hread.
Qed.

Lemma request_parameter_recorded_witness :
  exists prepared,
    prepare (H:=Example.toy)
      (Example.sample_params Example.sample_operation [] None
         (Example.sample_transport 200 None ""))
      "http://api" JUndefined [("id", JNum 7)] JNull Example.root_info
    = Ret prepared
    /\ resolveRuntimeExpression (H:=Example.toy) "user" "$request.path.id"
         (prep_resolveData prepared) JNull [] = Ret (JNum 7).
Proof.
  eexists. split; [reflexivity|].
  refine (request_parameter_recorded (H:=Example.toy)
            (Example.sample_params Example.sample_operation [] None
               (Example.sample_transport 200 None ""))
            "http://api" JUndefined [("id", JNum 7)] JNull Example.root_info _
            [("id", JNum 7); ("size", JNum 10)] "path" "id" (JNum 7) "user" JNull []
            _ _ _ _ _ _);
    [ reflexivity | reflexivity
    | repeat constructor; simpl; intros Hin; apply list_elem_of_In in Hin;
      simpl in Hin; intuition discriminate
    | right; reflexivity | reflexivity | reflexivity ].
Defined.

(** ** Runtime expressions and the store *)

(** X22.  Evaluating a runtime expression changes no object the store has: the
    record and the parent result are read, and [$response.body] writes to
    the copy it has just made only. *)
Theorem expression_keeps_store `{Collaborators}
    (JSONPath_in : option string -> gmap positive Store.cell -> Store.val
                   -> result (option (list Store.val)))
    (paramName value : string) (resolveData root : Store.val)
    (h h' : gmap positive Store.cell) (r : result Store.val) :
  Store.run (StoreView.resolveRuntimeExpression JSONPath_in paramName value
               resolveData root) h = (r, h') ->
  h ⊆ h'.
Proof.
  intros E. apply map_subseteq_spec. intros l c Hc.
  pose proof (resolveRuntimeExpression_frame JSONPath_in ∅ h _ _ _ _ _ _ _ E
                (frame_refl ∅ h)) as F.
  apply (proj2 (F l c Hc)). apply not_elem_of_empty.
Qed.

Lemma expression_keeps_store_witness :
  Example.parent_store
  ⊆ snd (Store.run (StoreView.resolveRuntimeExpression (H:=Example.toy)
                      (fun _ _ _ => Ret None) "id" "$response.body"
                      Store.VUndefined (Store.VRef 1)) Example.parent_store).
Proof.
  apply (expression_keeps_store (H:=Example.toy) (fun _ _ _ => Ret None) "id"
           "$response.body" Store.VUndefined (Store.VRef 1) Example.parent_store _
           (fst (Store.run (StoreView.resolveRuntimeExpression (H:=Example.toy)
                              (fun _ _ _ => Ret None) "id" "$response.body"
                              Store.VUndefined (Store.VRef 1)) Example.parent_store))).
  apply surjective_pairing.
Defined.

(** ** More of links, headers and the shaped result *)

Section MoreLemmas.
Context `{Collaborators}.

Lemma has_brace_app a b :
  Str.has_brace (a ++ b) = Str.has_brace a || Str.has_brace b.
Proof.
  induction a as [|c a IH]; simpl; [reflexivity|]. rewrite IH.
  rewrite !orb_assoc. reflexivity.
Qed.

(** The headers of the request when nothing is merged into them. *)
Lemma prepare_plain_headers p baseUrl source args context info prepared :
  prepare p baseUrl source args context info = Ret prepared ->
  requestOptions p = None ->
  opt_headers (options (data p)) = None ->
  has_hidden source = Ret false ->
  tokenJSONpath (options (data p)) = None ->
  obj_get "headers" (prep_options prepared)
  = Some (JObj (content_headers (operation p)
                  (snd (extractRequestDataFromArgs (path (operation p))
                          (parameters (operation p)) (prep_args prepared) (data p))))).
Proof.
  unfold prepare. intros Hp Hro Hoh Hhid Htok.
  bind_inv Hp rd0 E0. bind_inv Hp rd1 E1.
  bind_inv Hp args1 Ea. bind_inv Hp args2 El.
  bind_inv Hp up Eu. bind_inv Hp up' Eu'. bind_inv Hp rd2 E2.
  destruct (extractRequestDataFromArgs _ _ args2 _) as [[pth qs] hs] eqn:Ex.
  rewrite Hro in Hp. simpl in Hp.
  bind_inv Hp rd3 E3. bind_inv Hp raw Er. bind_inv Hp ord Eord.
  destruct ord as [o' rd4].
  rewrite Hoh, Hhid in Hp. simpl in Hp.
  unfold createOAuthQS, createOAuthHeader in Hp. rewrite Htok in Hp.
  destruct (sendOAuthTokenInQuery (options (data p))); simpl in Hp;
    bind_inv Hp rd6 E6; bind_inv Hp rd7 E7; inversion Hp; subst; simpl;
    rewrite Ex; simpl; unfold with_headers_qs;
    rewrite obj_get_set_ne by discriminate; apply obj_get_set_eq.
Qed.

End MoreLemmas.

(** X23.  With no per-call request options, no static option headers, no
    credentials on the parent result and no OAuth token path, the request
    carries the content types the operation declares: [accept] is the
    response content type, and for a method other than GET [content-type]
    is the payload content type ([application/json] when none is
    declared). *)
Theorem declared_content_headers_sent `{Collaborators}
    p baseUrl source args context info prepared :
  prepare p baseUrl source args context info = Ret prepared ->
  requestOptions p = None ->
  opt_headers (options (data p)) = None ->
  has_hidden source = Ret false ->
  tokenJSONpath (options (data p)) = None ->
  dispatched_header "accept" (Ret prepared)
  = Some (JStr (default "application/json" (responseContentType (operation p))))
  /\ (method (operation p) <> "get" ->
      dispatched_header "content-type" (Ret prepared)
      = Some (JStr (default "application/json" (payloadContentType (operation p))))).
Proof.
  intros Hp Hro Hoh Hhid Htok. unfold dispatched_header.
  rewrite (prepare_plain_headers _ _ _ _ _ _ _ Hp Hro Hoh Hhid Htok).
  unfold content_headers. split.
  - apply obj_get_set_eq.
  - intros Hm. rewrite obj_get_set_ne by discriminate.
    destruct (String.eqb_spec (method (operation p)) HTTP_METHODS_get) as [E|_];
      [contradiction|]. simpl. apply obj_get_set_eq.
Qed.

Lemma declared_content_headers_sent_witness :
  exists prepared,
    prepare (H:=Example.toy)
      (Example.sample_params Example.sample_post_operation [] None
         (Example.sample_transport 200 None ""))
      "http://api" JUndefined [] JNull Example.root_info
    = Ret prepared
    /\ dispatched_header "accept" (Ret prepared) = Some (JStr "application/json")
    /\ (method Example.sample_post_operation <> "get" ->
        dispatched_header "content-type" (Ret prepared) = Some (JStr "application/json")).
Proof.
  eexists. split; [reflexivity|].
  apply (declared_content_headers_sent (H:=Example.toy)
           (Example.sample_params Example.sample_post_operation [] None
              (Example.sample_transport 200 None ""))
           "http://api" JUndefined [] JNull Example.root_info);
    reflexivity.
Defined.

(** X24.  A link whose value is [$response.body#/] and a pointer: the argument
    is the first value the pointer finds in the parent result; when it
    finds none, the round of the link throws the error of an invalid
    runtime expression. *)
Theorem response_pointer_link `{Collaborators}
    data resolveData source args name pointer tokens :
  Str.has_brace pointer = false ->
  Str.split_1 "body#/" ("$response.body#/" ++ pointer) = Some pointer ->
  JSONPath (Some pointer) source = Ret tokens ->
  resolve_link data resolveData source args (name, "$response.body#/" ++ pointer)
  = match first_token tokens with
    | Some token => Ret (obj_set (sanitize name (caseStyle data)) token args)
    | None =>
        Throw (Error ("Cannot create link because '$response.body#/" ++ pointer
                      ++ "' is an invalid runtime expression."))
    end.
Proof.
  intros Hb Hs Hj. unfold resolve_link. simpl fst. simpl snd.
  rewrite has_brace_app, Hb. simpl.
  change (resolveRuntimeExpression name ("$response.body#/" ++ pointer)
            resolveData source args)
    with (tokens ← JSONPath (Str.split_1 "body#/" ("$response.body#/" ++ pointer)) source;
          match first_token tokens with
          | Some t => Ret t
          | None => Throw (invalid_expression ("$response.body#/" ++ pointer))
          end).
  rewrite Hs, Hj. simpl. destruct (first_token tokens); reflexivity.
Qed.

Lemma response_pointer_link_witness :
  resolve_link (H:=Example.toy) Example.sample_data (JObj [])
    (JObj [("id", JStr "42")]) [] ("userId", "$response.body#/id")
  = Ret [("userId", JStr "42")].
Proof.
  apply (response_pointer_link (H:=Example.toy) Example.sample_data (JObj [])
           (JObj [("id", JStr "42")]) [] "userId" "id" (Some [JStr "42"]));
    reflexivity.
Defined.

Section KeepsLemmas.

Lemma named_hidden_key :
  array_index OPENAPI_TO_GRAPHQL = None /\ OPENAPI_TO_GRAPHQL <> "length".
Proof. split; [reflexivity|discriminate]. Qed.

Lemma attach_one_keeps source identifier resolveData element element' k :
  attach_one source identifier resolveData element = Ret element' ->
  k <> OPENAPI_TO_GRAPHQL ->
  get_prop element' k = get_prop element k.
Proof.
  unfold attach_one. intros Ha Hk.
  destruct named_hidden_key as [Hi Hl].
  assert (Step : forall t v t', set_prop t OPENAPI_TO_GRAPHQL v = Ret t' ->
            get_prop t' k = get_prop t k).
  { intros t v t' Hs. eapply set_named_get_other; eauto. }
  bind_inv Ha h0 E0. bind_inv Ha e1 E1. bind_inv Ha hid Eh. bind_inv Ha e2 E2.
  bind_inv Ha h E3. bind_inv Ha d E4. bind_inv Ha d' E5. bind_inv Ha h' E6.
  rewrite (Step _ _ _ Ha).
  assert (K2 : get_prop e2 k = get_prop e1 k).
  { destruct hid; [|inversion E2; reflexivity].
    bind_inv E2 target Et. bind_inv E2 src Es. bind_inv E2 target' Et'.
    exact (Step _ _ _ E2). }
  rewrite K2.
  destruct (is_undefined h0); [exact (Step _ _ _ E1)|inversion E1; reflexivity].
Qed.

End KeepsLemmas.

(** X25.  The hidden record is put beside the data: every property of the
    shaped result other than [_openAPIToGraphQL] reads as before, and a
    list keeps its length and each element its other properties. *)
Theorem attach_keeps_data
    (source : json) (identifier : string) (resolveData saneData result : json)
    (k : string) :
  attach source identifier resolveData saneData = Ret result ->
  k <> OPENAPI_TO_GRAPHQL ->
  match saneData with
  | JArr elements ps =>
      exists elements', result = JArr elements' ps
        /\ Forall2 (fun element element' => get_prop element' k = get_prop element k)
             elements elements'
  | _ => get_prop result k = get_prop saneData k
  end.
Proof.
  unfold attach. intros Ha Hk.
  destruct (truthy saneData && is_object saneData) eqn:Eo.
  - destruct saneData as [| | | | |elements ps|o];
      try (eapply attach_one_keeps; eassumption).
    bind_inv Ha elements' Ea. inversion Ha; subst. exists elements'.
    split; [reflexivity|].
    clear Eo Ha. revert elements' Ea.
    induction elements as [|e r IH]; intros elements' Ea; simpl in Ea.
    + inversion Ea; subst. constructor.
    + bind_inv Ea e' Ee. bind_inv Ea r' Er. inversion Ea; subst.
      constructor; [eapply attach_one_keeps; eassumption|auto].
  - inversion Ha; subst.
    destruct result as [| | | | |elements ps|o]; try reflexivity; discriminate.
Qed.

Lemma attach_keeps_data_witness :
  exists elements',
    JArr [JObj [("id", JNum 1); (OPENAPI_TO_GRAPHQL,
                                 JObj [("data", JObj [("users", JObj [])])])];
          JObj [("id", JNum 2); (OPENAPI_TO_GRAPHQL,
                                 JObj [("data", JObj [("users", JObj [])])])]] []
    = JArr elements' []
    /\ Forall2 (fun element element' => get_prop element' "id" = get_prop element "id")
         [JObj [("id", JNum 1)]; JObj [("id", JNum 2)]] elements'.
Proof.
  apply (attach_keeps_data JUndefined "users" (JObj [])
           (JArr [JObj [("id", JNum 1)]; JObj [("id", JNum 2)]] [])
           (JArr [JObj [("id", JNum 1); (OPENAPI_TO_GRAPHQL,
                                         JObj [("data", JObj [("users", JObj [])])])];
                  JObj [("id", JNum 2); (OPENAPI_TO_GRAPHQL,
                                         JObj [("data", JObj [("users", JObj [])])])]] [])
           "id");
    [reflexivity|discriminate].
Defined.

(** ** The payload and the OAuth token in the request *)

Section PayloadLemmas.
Context `{Collaborators}.

(** The end of [prepare]: the payload in the request and in the record,
    and the last merge into the headers and the query string. *)
Lemma prepare_payload_oauth p baseUrl source args context info prepared :
  prepare p baseUrl source args context info = Ret prepared ->
  (exists raw,
     raw_payload p (prep_args prepared) = Ret raw
     /\ get_prop (prep_resolveData prepared) "usedPayload"
        = Ret (match raw with Some r => r | None => JUndefined end)
     /\ (forall r, raw = Some r -> obj_get "body" (prep_options prepared) = Some r))
  /\ (exists oheaders oqs,
        (if sendOAuthTokenInQuery (options (data p))
         then exists oauthQueryObj,
                createOAuthQS (data p) context = Ret oauthQueryObj
                /\ obj_get "qs" (prep_options prepared)
                   = Some (JObj (obj_assign oqs oauthQueryObj))
         else exists oauthHeader,
                createOAuthHeader (data p) context = Ret oauthHeader
                /\ obj_get "headers" (prep_options prepared)
                   = Some (JObj (obj_assign oheaders oauthHeader)))).
Proof.
  unfold prepare. intros Hp.
  bind_inv Hp rd0 E0. bind_inv Hp rd1 E1.
  bind_inv Hp args1 Ea. bind_inv Hp args2 El.
  bind_inv Hp up Eu. bind_inv Hp up' Eu'. bind_inv Hp rd2 E2.
  destruct (extractRequestDataFromArgs _ _ args2 _) as [[pth qs] hs] eqn:Ex.
  destruct (request_options _ _ _ _ _) as [[o oh] oq] eqn:Eo.
  bind_inv Hp rd3 E3. bind_inv Hp raw Er. bind_inv Hp ord Eord.
  destruct ord as [o' rd4].
  assert (Hraw : get_prop rd4 "usedPayload"
                 = Ret (match raw with Some r => r | None => JUndefined end)
                 /\ forall r, raw = Some r -> obj_get "body" o' = Some r).
  { destruct raw as [r|].
    - bind_inv Eord rd5 E5. inversion Eord; subst. split.
      + exact (set_prop_get_prop _ _ _ _ E5).
      + intros r0 Er0. inversion Er0; subst. apply obj_get_set_eq.
    - inversion Eord; subst. split; [|intros r0 Er0; discriminate].
      exact (set_prop_get_prop _ _ _ _ E3). }
  bind_inv Hp hid Eh. bind_inv Hp hq Ehq. destruct hq as [oh1 oq1].
  bind_inv Hp hq2 Ehq2. destruct hq2 as [oh2 oq2].
  bind_inv Hp rd6 E6. bind_inv Hp rd7 E7. inversion Hp; subst. simpl.
  destruct Hraw as [Hu Hb]. split.
  - exists raw. split; [assumption|]. split.
    + rewrite (set_named_get_other rd6 "usedStatusCode"
                 (JStr (statusCode (operation p))) rd7 "usedPayload");
        [|reflexivity|discriminate|exact E7|discriminate].
      rewrite (set_named_get_other rd4 "usedRequestOptions"
                 (JObj (with_headers_qs o' oh2 oq2)) rd6 "usedPayload");
        [exact Hu|reflexivity|discriminate|exact E6|discriminate].
    + intros r Er0. unfold with_headers_qs.
      rewrite !obj_get_set_ne by discriminate. auto.
  - exists oh1, oq1. unfold with_headers_qs.
    destruct (sendOAuthTokenInQuery (options (data p))).
    + bind_inv Ehq2 oauthQueryObj Eoa. inversion Ehq2; subst.
      exists oauthQueryObj. split; [assumption|]. apply obj_get_set_eq.
    + bind_inv Ehq2 oauthHeader Eoa. inversion Ehq2; subst.
      exists oauthHeader. split; [assumption|].
      rewrite obj_get_set_ne by discriminate. apply obj_get_set_eq.
Qed.

End PayloadLemmas.

(** X26.  The payload of a request is recorded as it is sent: for an operation
    with a payload name the [body] of the request options is the payload,
    and [$request.body] evaluates to it on the record; without a payload
    name [$request.body] evaluates to [undefined]. *)
Theorem payload_recorded `{Collaborators}
    p baseUrl source args context info prepared paramName root linkArgs :
  prepare p baseUrl source args context info = Ret prepared ->
  exists raw,
    raw_payload p (prep_args prepared) = Ret raw
    /\ resolveRuntimeExpression paramName "$request.body" (prep_resolveData prepared)
         root linkArgs
       = Ret (match raw with Some r => r | None => JUndefined end)
    /\ (forall r, raw = Some r -> obj_get "body" (prep_options prepared) = Some r)
    /\ (payloadName p = None <-> raw = None).
Proof.
  intros Hp.
  destruct (prepare_payload_oauth _ _ _ _ _ _ _ Hp) as [(raw & Hr & Hu & Hb) _].
  exists raw. split; [assumption|]. split; [exact Hu|]. split; [assumption|].
  unfold raw_payload in Hr. destruct (payloadName p) as [name|].
  - bind_inv Hr rawPayload Ep. inversion Hr; subst. split; discriminate.
  - inversion Hr; subst. split; reflexivity.
Qed.

Lemma payload_recorded_witness :
  exists prepared,
    prepare (H:=Example.toy)
      {| operation := Example.sample_post_operation; argsFromLink := [];
         payloadName := Some "user"; data := Example.sample_data;
         baseUrl := Some "http://api"; requestOptions := None;
         httpRequest := Example.sample_transport 201 None "" |}
      "http://api" JUndefined [("user", JStr "ann")] JNull Example.root_info
    = Ret prepared
    /\ exists raw,
         raw_payload (H:=Example.toy)
           {| operation := Example.sample_post_operation; argsFromLink := [];
              payloadName := Some "user"; data := Example.sample_data;
              baseUrl := Some "http://api"; requestOptions := None;
              httpRequest := Example.sample_transport 201 None "" |}
           (prep_args prepared) = Ret raw
         /\ resolveRuntimeExpression (H:=Example.toy) "x" "$request.body"
              (prep_resolveData prepared) JNull []
            = Ret (match raw with Some r => r | None => JUndefined end)
         /\ (forall r, raw = Some r -> obj_get "body" (prep_options prepared) = Some r)
         /\ (Some "user" = None <-> raw = None).
Proof.
  eexists. split; [reflexivity|].
  apply (payload_recorded (H:=Example.toy)
           {| operation := Example.sample_post_operation; argsFromLink := [];
              payloadName := Some "user"; data := Example.sample_data;
              baseUrl := Some "http://api"; requestOptions := None;
              httpRequest := Example.sample_transport 201 None "" |}
           "http://api" JUndefined [("user", JStr "ann")] JNull Example.root_info _
           "x" JNull []).
  reflexivity.
Defined.

(** X27.  The OAuth token found in the context is merged last, so nothing
    overrides it: with [sendOAuthTokenInQuery] the query string of the
    request has it as [access_token], otherwise the headers have
    [Authorization: Bearer] and the token, for a token whose text is exact
    (a text, as tokens are, or a safe integer). *)
Theorem oauth_token_sent `{Collaborators}
    p baseUrl source args context info prepared path token others :
  prepare p baseUrl source args context info = Ret prepared ->
  tokenJSONpath (options (data p)) = Some path ->
  JSONPath (Some path) context = Ret (Some (token :: others)) ->
  if sendOAuthTokenInQuery (options (data p))
  then exists qs, obj_get "qs" (prep_options prepared) = Some (JObj qs)
                  /\ obj_get "access_token" qs = Some token
  else exact_text token = true ->
       exists headers, obj_get "headers" (prep_options prepared) = Some (JObj headers)
                       /\ obj_get "Authorization" headers
                          = Some (JStr ("Bearer " ++ ToString token)).
Proof.
  intros Hp Ht Hj.
  destruct (prepare_payload_oauth _ _ _ _ _ _ _ Hp) as [_ (oh & oq & Ho)].
  destruct (sendOAuthTokenInQuery (options (data p))).
  - destruct Ho as (q & Hq & Hqs). unfold createOAuthQS, extractToken in Hq.
    rewrite Ht, Hj in Hq. simpl in Hq. inversion Hq; subst.
    eexists. split; [exact Hqs|]. unfold obj_assign. simpl. apply obj_get_set_eq.
  - intros _. destruct Ho as (hd & Hh & Hhs). unfold createOAuthHeader in Hh.
    rewrite Ht, Hj in Hh. simpl in Hh. inversion Hh; subst.
    eexists. split; [exact Hhs|]. unfold obj_assign. simpl.
    rewrite obj_get_set_ne by discriminate. apply obj_get_set_eq.
Qed.

Lemma oauth_token_sent_witness :
  exists prepared,
    prepare (H:=Example.toy)
      {| operation := Example.sample_operation; argsFromLink := [];
         payloadName := None; data := Example.oauth_data;
         baseUrl := Some "http://api";
         requestOptions := Some [("headers", JObj [("Authorization", JStr "mine")])];
         httpRequest := Example.sample_transport 200 None "" |}
      "http://api" JUndefined [("id", JNum 7)] (JObj [("token", JStr "abc")])
      Example.root_info
    = Ret prepared
    /\ exists headers, obj_get "headers" (prep_options prepared) = Some (JObj headers)
                       /\ obj_get "Authorization" headers = Some (JStr "Bearer abc").
Proof.
  eexists. split; [reflexivity|].
  apply (oauth_token_sent (H:=Example.toy)
           {| operation := Example.sample_operation; argsFromLink := [];
              payloadName := None; data := Example.oauth_data;
              baseUrl := Some "http://api";
              requestOptions := Some [("headers", JObj [("Authorization", JStr "mine")])];
              httpRequest := Example.sample_transport 200 None "" |}
           "http://api" JUndefined [("id", JNum 7)] (JObj [("token", JStr "abc")])
           Example.root_info _ "token" (JStr "abc") []);
    reflexivity.
Defined.

(** ** One map of records for the results below a parent *)

Section Shared.
Import Store Frame StoreView.

Lemma attach_object source id rd l ps h :
  h !! l = Some (Obj ps) ->
  run (attach source id rd (VRef l)) h = run (attach_one source id rd (VRef l)) h.
Proof.
  intros Hl. unfold attach. simpl andb. cbv iota.
  assert (Ee : run (read (elements_of (VRef l))) h = (Ret None, h)).
  { rewrite run_read. unfold elements_of, runR. rewrite Hl. reflexivity. }
  rewrite (run_bind_Ret _ _ _ _ _ Ee). reflexivity.
Qed.

(** The identifier of a field does not tell the elements of a list
    apart. *)
Lemma identifier_without_index (q : Path) (i j : nat) (k : PathKey) :
  getIdentifier (PathNode (Some (PathNode (Some q) (Index i))) k)
  = getIdentifier (PathNode (Some (PathNode (Some q) (Index j))) k).
Proof. unfold getIdentifier. simpl. reflexivity. Qed.

End Shared.

(** X28.  Two elements of a list (the parents [source1] and [source2]) hand
    down one map of records, and a field is resolved on the first and then
    on the second: the results are [e1] with the record [rd1], and then a
    new object [e2] with the record [rd2].  The identifier of the field is
    the same for both, and the second run writes the entry of the first:
    after it, a child field of [e1] starts from the copy of [rd2], the
    record of its sibling, not from the copy of [rd1]. *)
Theorem sibling_record_overwritten
    (source1 source2 : Store.val) (q : Path) (i j : nat) (k : PathKey)
    (rd1 rd2 : Store.val) (e1 ld : positive) (h : gmap positive Store.cell) :
  Frame.result_objects h (Store.VRef e1) [e1] ->
  Frame.parent_map h source1 (Some ld) [e1] ->
  Frame.parent_map h source2 (Some ld) [e1] ->
  getIdentifier (PathNode (Some (PathNode (Some q) (Index i))) k) <> "" ->
  exists h1,
    Store.run (StoreView.attach source1
                 (getIdentifier (PathNode (Some (PathNode (Some q) (Index i))) k))
                 rd1 (Store.VRef e1)) h = (Ret tt, h1)
    /\ forall e2 ps2,
         h1 !! e2 = None -> obj_get OPENAPI_TO_GRAPHQL ps2 = None ->
         exists h2,
           Store.run (StoreView.attach source2
                        (getIdentifier (PathNode (Some (PathNode (Some q) (Index j))) k))
                        rd2 (Store.VRef e2)) (<[e2:=Store.Obj ps2]> h1) = (Ret tt, h2)
           /\ forall k',
                Store.run (StoreView.recover (Store.VRef e1)
                             (PathNode (Some (PathNode (Some (PathNode (Some q) (Index i)))
                                                k)) k')) h2
                = Store.run (Store.JSON_clone rd2) h2.
Proof.
  intros (_ & Ho1 & _) P1 [Hs2 Hp2] Hid.
  rewrite (identifier_without_index q j i k).
  set (id := getIdentifier (PathNode (Some (PathNode (Some q) (Index i))) k)) in *.
  destruct (Ho1 e1 (or_introl eq_refl)) as (ps1 & He1 & Hx1).
  destruct (attach_one_effect source1 (Some ld) id rd1 e1 ps1 h He1 Hx1 P1)
    as (h1 & E1 & A1 & B1 & C1 & D1).
  exists h1. split; [rewrite (attach_object _ _ _ _ _ _ He1); exact E1|].
  intros e2 ps2 Hnew Hx2.
  destruct Hp2 as (ls2 & lx2 & cs2 & px2 & pd & -> & Hls2 & Hcx2 & Hlx2 & Hd2 & Hall2
                   & Hld & Dls2 & Dlx2 & Nlx2 & Nld).
  assert (Dd1 : ld <> e1) by (intros E; apply Nld; left; congruence).
  assert (Ds2 : ls2 <> e1).
  { intros E. apply (Hs2 e1 (or_introl eq_refl)). congruence. }
  assert (Dx2 : lx2 <> e1) by (intros E; apply Nlx2; left; congruence).
  assert (Fresh : forall l, is_Some (h1 !! l) -> l <> e2).
  { intros l [c Hc] ->. congruence. }
  assert (Same : forall l, l <> e1 -> l <> ld -> is_Some (h !! l) -> h1 !! l = h !! l).
  { intros l N1 N2 Hl. apply B1; [assumption|congruence|assumption]. }
  set (h1' := <[e2:=Store.Obj ps2]> h1).
  assert (Keep : forall l c, h1 !! l = Some c -> h1' !! l = Some c).
  { intros l c Hc. unfold h1'. rewrite lookup_insert_ne; [assumption|].
    intros <-. congruence. }
  assert (He2 : h1' !! e2 = Some (Store.Obj ps2)) by apply lookup_insert_eq.
  assert (L1d : h1 !! ld = Some (Store.Obj (obj_set id rd1 pd)))
    by apply (C1 ld pd eq_refl Hld).
  assert (P2 : Frame.parent_map h1' (Store.VRef ls2) (Some ld) [e2]).
  { split.
    - intros l [<-|[]] E. injection E as E'.
      apply (Fresh ls2); [apply D1; eauto|exact E'].
    - exists ls2, lx2, cs2, px2, (obj_set id rd1 pd).
      split; [reflexivity|].
      split; [apply Keep; rewrite Same; [assumption|assumption|congruence|eauto]|].
      split; [assumption|].
      split; [apply Keep; rewrite Same; [assumption|assumption|congruence|eauto]|].
      split; [assumption|]. split; [assumption|].
      split; [apply Keep; assumption|].
      split; [assumption|]. split; [assumption|].
      split; intros [E|[]].
      + apply (Fresh lx2); [apply D1; eauto|symmetry; assumption].
      + apply (Fresh ld); [eauto|symmetry; assumption]. }
  destruct (attach_one_effect (Store.VRef ls2) (Some ld) id rd2 e2 ps2 h1' He2 Hx2 P2)
    as (h2 & E2 & A2 & B2 & C2 & D2).
  exists h2. split; [rewrite (attach_object _ _ _ _ _ _ He2); exact E2|].
  intros k'.
  destruct A1 as (ps1' & l2 & p2 & ld' & pd' & F1 & F2 & F3 & F4 & F5 & F6 & F7 & F8).
  simpl in F8. subst ld'.
  assert (Dl2d : l2 <> ld) by (intros ->; congruence).
  refine (recover_found e1 (Store.Obj ps1') l2 (Store.Obj p2) ld (obj_set id rd2 pd')
            _ id rd2 h2 _ F2 _ F5 (C2 ld pd' eq_refl (Keep _ _ F6))
            (obj_get_set_eq _ _ _) _ Hid).
  - rewrite B2; [apply Keep; assumption|apply Fresh; eauto|congruence|eauto].
  - rewrite B2; [apply Keep; assumption|apply Fresh; eauto|congruence|eauto].
  - reflexivity.
Qed.

Lemma sibling_record_overwritten_witness :
  exists h1,
    Store.run (StoreView.attach (Store.VRef 1)
                 (getIdentifier (PathNode (Some (PathNode (Some Example.root_info)
                                                   (Index 0))) (Field "employer")))
                 (Store.VRef 4) (Store.VRef 7)) Example.siblings_store = (Ret tt, h1)
    /\ forall e2 ps2,
         h1 !! e2 = None -> obj_get OPENAPI_TO_GRAPHQL ps2 = None ->
         exists h2,
           Store.run (StoreView.attach (Store.VRef 9)
                        (getIdentifier (PathNode (Some (PathNode (Some Example.root_info)
                                                          (Index 1))) (Field "employer")))
                        (Store.VRef 5) (Store.VRef e2)) (<[e2:=Store.Obj ps2]> h1)
           = (Ret tt, h2)
           /\ forall k',
                Store.run (StoreView.recover (Store.VRef 7)
                             (PathNode (Some (PathNode (Some (PathNode
                                                (Some Example.root_info) (Index 0)))
                                                (Field "employer"))) k')) h2
                = Store.run (Store.JSON_clone (Store.VRef 5)) h2.
Proof.
  apply (sibling_record_overwritten (Store.VRef 1) (Store.VRef 9) Example.root_info
           0 1 (Field "employer") (Store.VRef 4) (Store.VRef 5) 7 3
           Example.siblings_store).
  - split; [|split].
    + repeat constructor. rewrite list_elem_of_In. intros [].
    + intros l [<-|[]]. eexists. split; reflexivity.
    + left. eexists. split; reflexivity.
  - split.
    + intros l [<-|[]]; discriminate.
    + exists 1%positive, 2%positive,
        (Store.Obj [("id", Store.VNum 7); (OPENAPI_TO_GRAPHQL, Store.VRef 2)]),
        [("data", Store.VRef 3)], [("users", Store.VRef 4)].
      split; [reflexivity|]. split; [reflexivity|]. split; [reflexivity|].
      split; [reflexivity|]. split; [reflexivity|].
      split; [intros v [E|[]]; inversion E; reflexivity|].
      split; [reflexivity|]. split; [discriminate|]. split; [discriminate|].
      split; intros [E|[]]; discriminate.
  - split.
    + intros l [<-|[]]; discriminate.
    + exists 9%positive, 10%positive,
        (Store.Obj [("id", Store.VNum 8); (OPENAPI_TO_GRAPHQL, Store.VRef 10)]),
        [("data", Store.VRef 3)], [("users", Store.VRef 4)].
      split; [reflexivity|]. split; [reflexivity|]. split; [reflexivity|].
      split; [reflexivity|]. split; [reflexivity|].
      split; [intros v [E|[]]; inversion E; reflexivity|].
      split; [reflexivity|]. split; [discriminate|]. split; [discriminate|].
      split; intros [E|[]]; discriminate.
  - discriminate.
Defined.
